(** * online-doska: the whiteboard server, its handlers and their contracts

    A shallow embedding of the two entry points of the repository:
    [server.js] (module [Server]) and the earlier, unnamed entry point
    (module [Legacy]).  Both keep two SQLite tables ([drawings] and
    [user_sessions]) and talk to the browsers over socket.io.

    Every socket.io handler and every HTTP route is a function from the
    state before the event to the state after it, together with the messages
    that were emitted.  A handler and the database callbacks it registers are
    taken as one step. *)

From Stdlib Require Import List ZArith Bool String Ascii Lia Sorted Permutation.
From Stdlib Require Import DecimalString DecimalPos DecimalZ.
Import ListNotations.
Local Open Scope string_scope.
Local Open Scope Z_scope.
Local Open Scope list_scope.
Set Warnings "-register-all".

(** ** JavaScript values

    Payloads arrive as JSON; a value is here a primitive or a plain object.
    Arrays are left out of the model.  Numbers are the integers (no handler
    does arithmetic on a payload). *)

Inductive jsval : Type :=
| JUndefined
| JNull
| JBool (b : bool)
| JNum (n : Z)
| JStr (s : string)
| JObj (fields : list (string * jsval)).

(** [!v] is [negb (truthy v)]. *)
Definition truthy (v : jsval) : bool :=
  match v with
  | JUndefined | JNull => false
  | JBool b => b
  | JNum n => negb (n =? 0)
  | JStr s => negb (s =? "")%string
  | JObj _ => true
  end.

Definition nullish (v : jsval) : bool :=
  match v with
  | JUndefined | JNull => true
  | _ => false
  end.

(** [a === b].  Two objects are strictly equal only when they are the same
    reference; the operands compared in this program always come from
    different deserialised fields, hence are never the same object. *)
Definition strict_eq (a b : jsval) : bool :=
  match a, b with
  | JUndefined, JUndefined => true
  | JNull, JNull => true
  | JBool x, JBool y => Bool.eqb x y
  | JNum x, JNum y => x =? y
  | JStr x, JStr y => (x =? y)%string
  | _, _ => false
  end.

Fixpoint lookup (k : string) (fs : list (string * jsval)) : jsval :=
  match fs with
  | [] => JUndefined
  | (k', v) :: fs' => if (k =? k')%string then v else lookup k fs'
  end.

(** [v.k] for a [v] that is not [undefined] or [null] (a primitive has none
    of the fields this program reads).  Reading a field of [undefined] or
    [null] throws; the handlers that can reach such a read test [nullish]
    first. *)
Definition field (v : jsval) (k : string) : jsval :=
  match v with
  | JObj fs => lookup k fs
  | _ => JUndefined
  end.

(** [obj[k] = v] on an own property list: an existing key keeps its place. *)
Fixpoint set_field (k : string) (v : jsval) (fs : list (string * jsval))
  : list (string * jsval) :=
  match fs with
  | [] => [(k, v)]
  | (k', v') :: fs' =>
      if (k =? k')%string then (k, v) :: fs' else (k', v') :: set_field k v fs'
  end.

(** [{...v}]: the own enumerable properties of [v]; spreading [undefined],
    [null], a boolean or a number yields no property.  The characters of a
    string primitive are its indexed properties. *)
Fixpoint string_props (i : nat) (s : string) : list (string * jsval) :=
  match s with
  | EmptyString => []
  | String c s' =>
      (NilZero.string_of_uint (Nat.to_uint i), JStr (String c EmptyString))
        :: string_props (S i) s'
  end.

Definition spread (v : jsval) : list (string * jsval) :=
  match v with
  | JObj fs => fs
  | JStr s => string_props 0 s
  | _ => []
  end.

(** The text a template literal puts for [${v}]; a number prints its
    digits (JavaScript does so up to 21 digits, and the exponent form beyond,
    which is not covered). *)
Definition display (v : jsval) : string :=
  match v with
  | JUndefined => "undefined"
  | JNull => "null"
  | JBool true => "true"
  | JBool false => "false"
  | JNum n => NilZero.string_of_int (Z.to_int n)
  | JStr s => s
  | JObj _ => "[object Object]"
  end.

(** ** The database engine and its driver

    What the source leaves to SQLite and to the driver, of which it pins no
    version: how a text is read as a rowid, which text a [TEXT] column keeps
    for a number the driver binds as a float, and in which order [ORDER BY]
    returns the rows of equal key. *)

(** The text JavaScript gives for a rowid, as in the path of
    [DELETE /api/drawing/:id]. *)
Definition rowid_text (n : Z) : string := display (JNum n).

Definition int32 (n : Z) : bool :=
  (- 2147483648 <=? n) && (n <=? 2147483647).

Definition int64 (n : Z) : bool :=
  (- 9223372036854775808 <=? n) && (n <=? 9223372036854775807).

(** [text_rowid s] is the rowid that [id = ?] matches when the parameter is
    the text [s]: SQLite applies the numeric affinity of the key to the
    text, and reads [12], but also [12.0], [+12], [ 12] or [1.2e1], as 12;
    [None] when the text is no number, or no whole one.  The canonical
    decimal text of a rowid is read as that rowid.
    [wide_number_text n] is the text kept for a number beyond 32 bits, which
    the driver may bind as a float; it is never empty.
    [tie_rank] orders the rows of equal [ORDER BY] key, by their rowid: the
    query fixes no order among them. *)
Record engine : Type := mkengine
  { text_rowid : string -> option Z;
    reads_decimal : forall n, text_rowid (rowid_text n) = Some n;
    wide_number_text : Z -> string;
    wide_number_text_not_empty : forall n, wide_number_text n <> "";
    tie_rank : Z -> Z }.

(** What a [TEXT] column keeps of a bound value: [NULL] for [undefined] and
    [null], the text itself for a text, the digits for a number (a boolean
    is bound as 1 or 0), and the text of [toString()] for an object. *)
Definition sql_text (g : engine) (v : jsval) : jsval :=
  match v with
  | JUndefined | JNull => JNull
  | JBool b => JStr (if b then "1" else "0")
  | JNum n => JStr (if int32 n then display (JNum n) else wide_number_text g n)
  | JStr s => JStr s
  | JObj _ => JStr "[object Object]"
  end.

(** ** Roles and the permission checks *)

Definition Administrator : string := "Администратор".

(** [socket.userData.role === 'Администратор' ||
     socket.userData.username === data.owner], as written in the handlers of
    [textUpdate], [textMove] and [textDelete] of both entry points. *)
Definition canEdit (userData data : jsval) : bool :=
  strict_eq (field userData "role") (JStr Administrator)
  || strict_eq (field userData "username") (field data "owner").

Definition canMove (userData data : jsval) : bool :=
  strict_eq (field userData "role") (JStr Administrator)
  || strict_eq (field userData "username") (field data "owner").

Definition canDelete (userData data : jsval) : bool :=
  strict_eq (field userData "role") (JStr Administrator)
  || strict_eq (field userData "username") (field data "owner").

(** ** The SQLite database

    The driver binds [undefined] and [null] as [NULL].  The columns [type],
    [user_id], [username] and [role] are [TEXT]: they hold a text ([JStr]) or
    [NULL] ([JNull]), as [sql_text] gives it.  [created_at] and
    [connected_at] are [CURRENT_TIMESTAMP], here the whole seconds since the
    epoch (the stored text [YYYY-MM-DD HH:MM:SS] orders the same way). *)

(** The text [JSON.stringify v], kept as the value it serialises.  (The text
    leaves out the fields whose value is [undefined]; reading such a field
    of the parsed value gives [undefined] as well.) *)
Inductive json_text : Type :=
| Json (v : jsval).

(** [JSON.stringify v]; [None] is the [undefined] it yields for
    [undefined]. *)
Definition JSON_stringify (v : jsval) : option json_text :=
  match v with
  | JUndefined => None
  | _ => Some (Json v)
  end.

Definition JSON_parse (t : json_text) : jsval :=
  match t with
  | Json v => v
  end.

Module Drawing.
Record t : Type := mk
  { id : Z;
    type : jsval;
    data : json_text;
    user_id : jsval;
    created_at : Z }.
End Drawing.

Module Session.
Record t : Type := mk
  { id : Z;
    username : jsval;
    role : jsval;
    socket_id : string;
    connected_at : Z }.
End Session.

(** A table is its rows in rowid order, with the largest rowid handed out so
    far (the [sqlite_sequence] entry of an [AUTOINCREMENT] key). *)
Record database : Type := mkdb
  { drawings : list Drawing.t;
    drawings_seq : Z;
    user_sessions : list Session.t;
    user_sessions_seq : Z }.

Definition empty_db : database := mkdb [] 0 [] 0.

Definition max_rowid (ids : list Z) : Z := fold_right Z.max 0 ids.

(** The next [AUTOINCREMENT] rowid: one more than the largest rowid ever
    used, whether it is still in the table or not. *)
Definition next_rowid (seq : Z) (ids : list Z) : Z :=
  Z.max seq (max_rowid ids) + 1.

(** How a bound parameter compares with an [INTEGER PRIMARY KEY]: a number
    (or a boolean, bound as 0 or 1) by its value, a text by the rowid the
    engine reads from it; an object, bound as the text of [toString()], and
    [NULL] match no row. *)
Definition rowid_of (g : engine) (v : jsval) : option Z :=
  match v with
  | JNum n => Some n
  | JBool b => Some (if b then 1 else 0)
  | JStr s => text_rowid g s
  | _ => None
  end.

Definition matches (g : engine) (param : jsval) (rowid : Z) : bool :=
  match rowid_of g param with
  | Some n => n =? rowid
  | None => false
  end.

(** The result of [db.run]: the database after the statement and
    [this.changes], or the message of the error handed to the callback. *)
Inductive run_result : Type :=
| RunOk (db' : database) (changes : nat)
| RunErr (err : string).

Definition not_null_failed (column : string) : string :=
  ("SQLITE_CONSTRAINT: NOT NULL constraint failed: " ++ column)%string.

(** [INSERT INTO drawings (type, data, user_id) VALUES (?, ?, ?)];
    [type] and [data] are [NOT NULL]. *)
Definition insert_drawing (g : engine) (now : Z) (type : jsval)
    (data : option json_text) (user_id : jsval) (d : database) : run_result :=
  if nullish type then RunErr (not_null_failed "drawings.type")
  else
    match data with
    | None => RunErr (not_null_failed "drawings.data")
    | Some text =>
        let rid := next_rowid (drawings_seq d) (map Drawing.id (drawings d)) in
        RunOk (mkdb (drawings d
                       ++ [Drawing.mk rid (sql_text g type) text
                             (sql_text g user_id) now])
                    rid (user_sessions d) (user_sessions_seq d)) 1
    end.

(** [UPDATE drawings SET data = ? WHERE id = ?] *)
Definition set_data (g : engine) (text : json_text) (id : jsval)
    (r : Drawing.t) : Drawing.t :=
  if matches g id (Drawing.id r)
  then Drawing.mk (Drawing.id r) (Drawing.type r) text
                  (Drawing.user_id r) (Drawing.created_at r)
  else r.

Definition update_drawing (g : engine) (data : option json_text) (id : jsval)
    (d : database) : run_result :=
  match data with
  | None =>
      if existsb (fun r => matches g id (Drawing.id r)) (drawings d)
      then RunErr (not_null_failed "drawings.data")
      else RunOk d 0
  | Some text =>
      RunOk (mkdb (map (set_data g text id) (drawings d)) (drawings_seq d)
                  (user_sessions d) (user_sessions_seq d))
            (List.length (filter (fun r => matches g id (Drawing.id r))
                                 (drawings d)))
  end.

(** [DELETE FROM drawings WHERE id = ?] *)
Definition delete_drawing (g : engine) (id : jsval) (d : database)
  : run_result :=
  RunOk (mkdb (filter (fun r => negb (matches g id (Drawing.id r)))
                      (drawings d))
              (drawings_seq d) (user_sessions d) (user_sessions_seq d))
        (List.length (filter (fun r => matches g id (Drawing.id r))
                             (drawings d))).

(** [DELETE FROM drawings] *)
Definition delete_all_drawings (d : database) : run_result :=
  RunOk (mkdb [] (drawings_seq d) (user_sessions d) (user_sessions_seq d))
        (List.length (drawings d)).

(** Sorting for [ORDER BY]: [before x y] tells that [x] may come before
    [y]; the rows are met in rowid order. *)
Fixpoint insert_by {A : Type} (before : A -> A -> bool) (x : A) (l : list A)
  : list A :=
  match l with
  | [] => [x]
  | y :: l' => if before x y then x :: l else y :: insert_by before x l'
  end.

Definition order_by {A : Type} (before : A -> A -> bool) (l : list A)
  : list A :=
  fold_right (insert_by before) [] l.

(** [LIMIT ? OFFSET ?]: a negative limit is no limit, a negative offset is
    none. *)
Definition limit_offset {A : Type} (limit offset : Z) (l : list A) : list A :=
  let rest := skipn (Z.to_nat offset) l in
  if limit <? 0 then rest else firstn (Z.to_nat limit) rest.

(** The rows of equal key come as the engine ranks them. *)
Definition key_then_rank (g : engine) (kx rx ky ry : Z) : bool :=
  (kx <? ky) || ((kx =? ky) && (tie_rank g rx <=? tie_rank g ry)).

(** [SELECT * FROM drawings ORDER BY created_at ASC] *)
Definition select_drawings (g : engine) (d : database) : list Drawing.t :=
  order_by (fun x y => key_then_rank g (Drawing.created_at x) (Drawing.id x)
                                       (Drawing.created_at y) (Drawing.id y))
           (drawings d).

(** [SELECT * FROM drawings ORDER BY created_at ASC LIMIT ? OFFSET ?] *)
Definition select_drawings_page (g : engine) (limit offset : Z) (d : database)
  : list Drawing.t :=
  limit_offset limit offset (select_drawings g d).

(** [SELECT COUNT( * ) as count FROM drawings] *)
Definition count_drawings (d : database) : Z :=
  Z.of_nat (List.length (drawings d)).

(** [INSERT INTO user_sessions (username, role, socket_id) VALUES (?, ?, ?)]
    on the table of the earlier entry point, whose [socket_id] column is
    plain [TEXT]; [username] and [role] are [NOT NULL]. *)
Definition insert_session (g : engine) (now : Z) (username role : jsval)
    (sid : string) (d : database) : run_result :=
  if nullish username then RunErr (not_null_failed "user_sessions.username")
  else if nullish role then RunErr (not_null_failed "user_sessions.role")
  else
    let rid := next_rowid (user_sessions_seq d)
                          (map Session.id (user_sessions d)) in
    RunOk (mkdb (drawings d) (drawings_seq d)
                (user_sessions d
                   ++ [Session.mk rid (sql_text g username) (sql_text g role)
                         sid now])
                rid) 1.

(** [INSERT OR REPLACE INTO user_sessions (username, role, socket_id)
     VALUES (?, ?, ?)] on the table of [server.js], whose [socket_id] column
    is [TEXT UNIQUE]: the rows that hold the same [socket_id] are deleted
    before the new row is inserted.  A [NULL] in a [NOT NULL] column without
    a default aborts the statement. *)
Definition insert_or_replace_session (g : engine) (now : Z)
    (username role : jsval) (sid : string) (d : database) : run_result :=
  if nullish username then RunErr (not_null_failed "user_sessions.username")
  else if nullish role then RunErr (not_null_failed "user_sessions.role")
  else
    let rid := next_rowid (user_sessions_seq d)
                          (map Session.id (user_sessions d)) in
    let kept := filter (fun r => negb (Session.socket_id r =? sid)%string)
                       (user_sessions d) in
    RunOk (mkdb (drawings d) (drawings_seq d)
                (kept ++ [Session.mk rid (sql_text g username)
                            (sql_text g role) sid now])
                rid) 1.

(** [DELETE FROM user_sessions WHERE socket_id = ?] *)
Definition delete_session (sid : string) (d : database) : run_result :=
  RunOk (mkdb (drawings d) (drawings_seq d)
              (filter (fun r => negb (Session.socket_id r =? sid)%string)
                      (user_sessions d))
              (user_sessions_seq d))
        (List.length (filter (fun r => (Session.socket_id r =? sid)%string)
                             (user_sessions d))).

Definition seconds_per_day : Z := 24 * 60 * 60.

(** [DELETE FROM user_sessions WHERE connected_at < ?] with the parameter
    [cutoffTime.toISOString()].  The column holds [YYYY-MM-DD HH:MM:SS] and
    the parameter reads [YYYY-MM-DDTHH:MM:SS.sssZ]; the two are compared as
    text, and a blank sorts before [T]: a row is deleted exactly when its day
    is not after the day of the cutoff. *)
Definition expired (cutoff : Z) (r : Session.t) : bool :=
  Session.connected_at r / seconds_per_day <=? cutoff / seconds_per_day.

Definition delete_old_sessions (cutoff : Z) (d : database) : run_result :=
  RunOk (mkdb (drawings d) (drawings_seq d)
              (filter (fun r => negb (expired cutoff r)) (user_sessions d))
              (user_sessions_seq d))
        (List.length (filter (expired cutoff) (user_sessions d))).

(** [SELECT username, role, connected_at FROM user_sessions
     ORDER BY connected_at DESC] *)
Definition select_sessions (g : engine) (d : database) : list Session.t :=
  order_by (fun x y => key_then_rank g (Session.connected_at y) (Session.id x)
                                       (Session.connected_at x) (Session.id y))
           (user_sessions d).

(** A storage fault makes the statement fail with the fault's message and
    leaves the database as it was. *)
Definition db_run (fault : option string) (stmt : database -> run_result)
    (d : database) : run_result :=
  match fault with
  | Some err => RunErr err
  | None => stmt d
  end.

Definition db_after (r : run_result) (d : database) : database :=
  match r with
  | RunOk d' _ => d'
  | RunErr _ => d
  end.

Definition failed (r : run_result) : bool :=
  match r with
  | RunOk _ _ => false
  | RunErr _ => true
  end.

(** ** Rows and arrays as JavaScript values *)

Fixpoint indexed (i : nat) (l : list jsval) : list (string * jsval) :=
  match l with
  | [] => []
  | v :: l' => (NilZero.string_of_uint (Nat.to_uint i), v) :: indexed (S i) l'
  end.

(** An array the server sends, kept as its indexed entries. *)
Definition js_array (l : list jsval) : jsval := JObj (indexed 0 l).

Definition drawing_json (r : Drawing.t) : jsval :=
  JObj [("id", JNum (Drawing.id r));
        ("type", Drawing.type r);
        ("data", JSON_parse (Drawing.data r));
        ("user_id", Drawing.user_id r);
        ("created_at", JNum (Drawing.created_at r))].

Definition session_json (r : Session.t) : jsval :=
  JObj [("username", Session.username r);
        ("role", Session.role r);
        ("connected_at", JNum (Session.connected_at r))].

(** ** Connections, the server state and the messages sent *)

Module Socket.
Record t : Type := mk
  { id : string;
    userData : jsval }.
End Socket.

Record state : Type := mkstate
  { db : database;
    sockets : list Socket.t }.

Definition initial : state := mkstate empty_db [].

(** One message delivered to one connection. *)
Record emission : Type := mkemit
  { to : string;
    event : string;
    args : list jsval }.

(** What the surroundings decide for one event: the reading of the clock
    ([new Date().toISOString()] and, in seconds, [CURRENT_TIMESTAMP]);
    whether the statement of the handler, or the query of
    [updateOnlineUsers], meets a storage fault ([Some] of its message);
    whether that query, which a handler queues right after its statement and
    outside [db.serialize], is run before the statement; and the engine. *)
Record env : Type := mkenv
  { iso : string;
    now : Z;
    write_fault : option string;
    read_fault : option string;
    select_first : bool;
    sqlite : engine }.

Definition find_socket (sid : string) (st : state) : option Socket.t :=
  find (fun s => (Socket.id s =? sid)%string) (sockets st).

Definition set_userData (sid : string) (ud : jsval) (st : state) : state :=
  mkstate (db st)
          (map (fun s => if (Socket.id s =? sid)%string
                         then Socket.mk (Socket.id s) ud else s)
               (sockets st)).

Definition with_db (d : database) (st : state) : state :=
  mkstate d (sockets st).

(** [socket.emit(ev, ...)] *)
Definition socket_emit (sid : string) (ev : string) (a : list jsval)
  : list emission :=
  [mkemit sid ev a].

(** [socket.broadcast.emit(ev, ...)]: every connection but the sender. *)
Definition broadcast_emit (st : state) (sid : string) (ev : string)
    (a : list jsval) : list emission :=
  map (fun s => mkemit (Socket.id s) ev a)
      (filter (fun s => negb (Socket.id s =? sid)%string) (sockets st)).

(** [io.emit(ev, ...)]: every connection. *)
Definition io_emit (st : state) (ev : string) (a : list jsval)
  : list emission :=
  map (fun s => mkemit (Socket.id s) ev a) (sockets st).

Definition message (text : string) : jsval := JObj [("message", JStr text)].

(** [{ ...data, timestamp: new Date().toISOString(),
       userId: socket.userData.username }] *)
Definition stamped (data : jsval) (e : env) (userData : jsval) : jsval :=
  JObj (set_field "userId" (field userData "username")
          (set_field "timestamp" (JStr (iso e)) (spread data))).

(** The notice of [user_joined] and [user_left]. *)
Definition membership_notice (userData : jsval) (what : string) (e : env)
  : jsval :=
  JObj [("username", field userData "username");
        ("role", field userData "role");
        ("message", JStr (display (field userData "username") ++ what)%string);
        ("timestamp", JStr (iso e))].

(** [updateOnlineUsers()], its query reading the table as [st] has it. *)
Definition updateOnlineUsers (st : state) (e : env) : list emission :=
  match read_fault e with
  | Some _ => []
  | None => io_emit st "online_users_update"
              [js_array (map session_json
                             (select_sessions (sqlite e) (db st)))]
  end.

(** The state whose table the query of [updateOnlineUsers] reads, when the
    handler queued it after a statement that takes [before] to [after]. *)
Definition as_read (e : env) (before after : state) : state :=
  if select_first e then with_db (db before) after else after.

(** An HTTP response: the status and the JSON body. *)
Record response : Type := mkresponse
  { status : Z;
    body : jsval }.

Definition success_false (text : string) : jsval :=
  JObj [("success", JBool false); ("error", JStr text)].

(** ** [server.js] *)

Module Server.

(** *** socket.io handlers

    Each takes the state, the id of the connection the event arrived on,
    the payload and the surroundings, and yields the state after the
    handler and its database callback have run, with the messages emitted
    in order.  An event for a connection that is not open is not
    dispatched. *)

Definition on_connection (st : state) (sid : string) : state :=
  match find_socket sid st with
  | Some _ => st
  | None => mkstate (db st) (sockets st ++ [Socket.mk sid JUndefined])
  end.

Definition on_user_join (st : state) (sid : string) (userData : jsval)
    (e : env) : state * list emission :=
  match find_socket sid st with
  | None => (st, [])
  | Some _ =>
      if negb (truthy userData) || negb (truthy (field userData "username"))
      then (st, [])
      else
        let ud := JObj (set_field "joinedAt" (JStr (iso e))
                          (set_field "socketId" (JStr sid)
                             (spread userData))) in
        let st1 := set_userData sid ud st in
        let r := db_run (write_fault e)
                   (insert_or_replace_session (sqlite e) (now e)
                      (field userData "username") (field userData "role")
                      sid)
                   (db st1) in
        let st2 := with_db (db_after r (db st1)) st1 in
        (st2,
         broadcast_emit st2 sid "user_joined"
           [membership_notice userData " присоединился к доске" e]
         ++ updateOnlineUsers (as_read e st1 st2) e)
  end.

Definition on_drawing (st : state) (sid : string) (data : jsval) (e : env)
  : state * list emission :=
  match find_socket sid st with
  | None => (st, [])
  | Some s =>
      if negb (truthy (Socket.userData s)) then (st, [])
      else if negb (truthy data) || negb (truthy (field data "from"))
              || negb (truthy (field data "to"))
      then (st, [])
      else
        let drawingData := stamped data e (Socket.userData s) in
        let r := db_run (write_fault e)
                   (insert_drawing (sqlite e) (now e) (JStr "drawing")
                      (JSON_stringify drawingData)
                      (field (Socket.userData s) "username"))
                   (db st) in
        (with_db (db_after r (db st)) st,
         broadcast_emit st sid "drawing" [drawingData])
  end.

Definition on_text (st : state) (sid : string) (data : jsval) (e : env)
  : state * list emission :=
  match find_socket sid st with
  | None => (st, [])
  | Some s =>
      if negb (truthy (Socket.userData s)) then (st, [])
      else if negb (truthy data) || negb (truthy (field data "text"))
              || negb (truthy (field data "id"))
      then (st, [])
      else
        let textData := stamped data e (Socket.userData s) in
        let r := db_run (write_fault e)
                   (insert_drawing (sqlite e) (now e) (JStr "text")
                      (JSON_stringify textData)
                      (field (Socket.userData s) "username"))
                   (db st) in
        (with_db (db_after r (db st)) st,
         broadcast_emit st sid "text" [textData])
  end.

Definition on_textUpdate (st : state) (sid : string) (data : jsval)
    (e : env) : state * list emission :=
  match find_socket sid st with
  | None => (st, [])
  | Some s =>
      if negb (truthy (Socket.userData s)) then (st, [])
      else if negb (truthy data) || negb (truthy (field data "id"))
      then (st, [])
      else if negb (canEdit (Socket.userData s) data)
      then (st, socket_emit sid "error"
                  [message "Нет прав для редактирования этого текста"])
      else
        let updateData := stamped data e (Socket.userData s) in
        let r := db_run (write_fault e)
                   (update_drawing (sqlite e) (JSON_stringify updateData)
                                   (field data "id")) (db st) in
        (with_db (db_after r (db st)) st,
         broadcast_emit st sid "textUpdate" [updateData]
         ++ (if failed r
             then socket_emit sid "error"
                    [message "Ошибка при обновлении текста"]
             else []))
  end.

Definition on_textMove (st : state) (sid : string) (data : jsval)
    (e : env) : state * list emission :=
  match find_socket sid st with
  | None => (st, [])
  | Some s =>
      if negb (truthy (Socket.userData s)) then (st, [])
      else if negb (truthy data) || negb (truthy (field data "id"))
      then (st, [])
      else if negb (canMove (Socket.userData s) data)
      then (st, socket_emit sid "error"
                  [message "Нет прав для перемещения этого текста"])
      else
        let moveData := stamped data e (Socket.userData s) in
        let r := db_run (write_fault e)
                   (update_drawing (sqlite e) (JSON_stringify moveData)
                                   (field data "id")) (db st) in
        (with_db (db_after r (db st)) st,
         broadcast_emit st sid "textMove" [moveData]
         ++ (if failed r
             then socket_emit sid "error"
                    [message "Ошибка при перемещении текста"]
             else []))
  end.

Definition on_textDelete (st : state) (sid : string) (data : jsval)
    (e : env) : state * list emission :=
  match find_socket sid st with
  | None => (st, [])
  | Some s =>
      if negb (truthy (Socket.userData s)) then (st, [])
      else if negb (truthy data) || negb (truthy (field data "id"))
      then (st, [])
      else if negb (canDelete (Socket.userData s) data)
      then (st, socket_emit sid "error"
                  [message "Нет прав для удаления этого текста"])
      else
        let r := db_run (write_fault e)
                   (delete_drawing (sqlite e) (field data "id")) (db st) in
        (with_db (db_after r (db st)) st,
         broadcast_emit st sid "textDelete" [field data "id"]
         ++ (if failed r
             then socket_emit sid "error"
                    [message "Ошибка при удалении текста"]
             else []))
  end.

(** The notice sent after the board was cleared. *)
Definition cleared_notice (userData : jsval) (e : env) : jsval :=
  JObj [("message",
         JStr (display (field userData "username") ++ " очистил доску")%string);
        ("type", JStr "info");
        ("timestamp", JStr (iso e))].

Definition on_clear (st : state) (sid : string) (userData : jsval)
    (e : env) : state * list emission :=
  match find_socket sid st with
  | None => (st, [])
  | Some s =>
      if negb (truthy (Socket.userData s)) then (st, [])
      else if negb (strict_eq (field (Socket.userData s) "role")
                              (JStr Administrator))
      then (st, socket_emit sid "clear_error"
                  [message "Только учитель может очистить доску"])
      else
        let r := db_run (write_fault e) delete_all_drawings (db st) in
        if failed r
        then (st, socket_emit sid "clear_error"
                    [message "Ошибка при очистке доски"])
        else
          let st' := with_db (db_after r (db st)) st in
          (st',
           io_emit st' "clear" []
           ++ io_emit st' "notification"
                [cleared_notice (Socket.userData s) e])
  end.

Definition on_ping (st : state) (sid : string) (data : jsval) (e : env)
  : state * list emission :=
  match find_socket sid st with
  | None => (st, [])
  | Some _ =>
      (st, socket_emit sid "pong"
             [JObj (set_field "serverTime" (JStr (iso e)) (spread data))])
  end.

Definition on_disconnect (st : state) (sid : string) (e : env)
  : state * list emission :=
  match find_socket sid st with
  | None => (st, [])
  | Some s =>
      let st1 :=
        mkstate (db st)
                (filter (fun t => negb (Socket.id t =? sid)%string)
                        (sockets st)) in
      if truthy (Socket.userData s) then
        let r := db_run (write_fault e) (delete_session sid) (db st1) in
        let st2 := with_db (db_after r (db st1)) st1 in
        (st2,
         broadcast_emit st2 sid "user_left"
           [membership_notice (Socket.userData s) " покинул доску" e]
         ++ updateOnlineUsers (as_read e st1 st2) e)
      else (st1, [])
  end.

(** The hourly sweep of sessions older than 24 hours. *)
Definition sweep (st : state) (e : env) : state * list emission :=
  let r := db_run (write_fault e)
             (delete_old_sessions (now e - seconds_per_day)) (db st) in
  match r with
  | RunErr _ => (st, [])
  | RunOk d changes =>
      let st' := with_db d st in
      (st', if (0 <? changes)%nat then updateOnlineUsers st' e else [])
  end.

(** *** HTTP routes

    [body] is [req.body] as [express.json()] leaves it: the parsed JSON
    object, or an empty object when the request has none. *)

(** [parseInt(q) || dflt]; [None] is [NaN]. *)
Definition parsed_or (q : option Z) (dflt : Z) : Z :=
  match q with
  | Some n => if n =? 0 then dflt else n
  | None => dflt
  end.

(** [GET /api/drawings].  A limit or an offset beyond 64 bits is bound as
    a float, which SQLite refuses for [LIMIT] and [OFFSET]: the query fails.
    Every stored [data] was written by [JSON.stringify], so [JSON.parse]
    does not throw. *)
Definition api_drawings (st : state) (q_limit q_offset : option Z)
    (e : env) : response :=
  let limit := parsed_or q_limit 1000 in
  let offset := parsed_or q_offset 0 in
  match read_fault e with
  | Some _ =>
      mkresponse 500 (JObj [("error", JStr "Failed to fetch drawings")])
  | None =>
      if int64 limit && int64 offset
      then mkresponse 200
             (js_array (map drawing_json
                            (select_drawings_page (sqlite e) limit offset
                                                  (db st))))
      else mkresponse 500 (JObj [("error", JStr "Failed to fetch drawings")])
  end.

(** [POST /api/save] *)
Definition api_save (st : state) (body : jsval) (e : env)
  : state * response :=
  let type := field body "type" in
  let data := field body "data" in
  let userId := field body "userId" in
  if negb (truthy type) || negb (truthy data)
  then (st, mkresponse 400 (success_false "Missing required fields"))
  else
    let r := db_run (write_fault e)
               (insert_drawing (sqlite e) (now e) type (JSON_stringify data)
                  (if truthy userId then userId else JStr "unknown"))
               (db st) in
    match r with
    | RunErr _ => (st, mkresponse 500 (success_false "Database error"))
    | RunOk d _ =>
        (with_db d st,
         mkresponse 200 (JObj [("success", JBool true);
                               ("id", JNum (drawings_seq d))]))
    end.

(** [DELETE /api/clear] *)
Definition api_clear (st : state) (body : jsval) (e : env)
  : state * response * list emission :=
  if negb (strict_eq (field body "role") (JStr Administrator))
  then (st,
        mkresponse 403 (success_false "Только учитель может очистить доску"),
        [])
  else
    match db_run (write_fault e) delete_all_drawings (db st) with
    | RunErr _ => (st, mkresponse 500 (success_false "Database error"), [])
    | RunOk d _ =>
        let st' := with_db d st in
        (st', mkresponse 200 (JObj [("success", JBool true)]),
         io_emit st' "clear" [])
    end.

(** [DELETE /api/drawing/:id]; [id] is the path parameter, a text. *)
Definition api_drawing_delete (st : state) (id : string) (body : jsval)
    (e : env) : state * response * list emission :=
  let userId := field body "userId" in
  let role := field body "role" in
  let owner := field body "owner" in
  if negb (truthy (JStr id))
  then (st, mkresponse 400 (success_false "Missing drawing ID"), [])
  else if negb (strict_eq role (JStr Administrator))
          && negb (strict_eq userId owner)
  then (st, mkresponse 403 (success_false "Нет прав для удаления"), [])
  else
    match db_run (write_fault e) (delete_drawing (sqlite e) (JStr id))
                 (db st) with
    | RunErr _ => (st, mkresponse 500 (success_false "Database error"), [])
    | RunOk d changes =>
        if (changes =? 0)%nat
        then (with_db d st,
              mkresponse 404 (success_false "Drawing not found"), [])
        else
          let st' := with_db d st in
          (st', mkresponse 200 (JObj [("success", JBool true)]),
           io_emit st' "textDelete" [JStr id])
    end.

(** [GET /api/users] *)
Definition api_users (st : state) (e : env) : response :=
  match read_fault e with
  | Some _ => mkresponse 500 (JObj [("error", JStr "Failed to fetch users")])
  | None => mkresponse 200
              (js_array (map session_json
                             (select_sessions (sqlite e) (db st))))
  end.

(** [GET /api/health] *)
Definition api_health (st : state) (e : env) : response :=
  match read_fault e with
  | Some _ => mkresponse 500 (JObj [("status", JStr "error");
                                    ("error", JStr "Database error")])
  | None => mkresponse 200 (JObj [("status", JStr "ok");
                                  ("timestamp", JStr (iso e));
                                  ("drawingsCount",
                                   JNum (count_drawings (db st)))])
  end.

(** *** The server as a transition system *)

Inductive input : Type :=
| Connection (sid : string)
| UserJoin (sid : string) (userData : jsval)
| DrawingEvent (sid : string) (data : jsval)
| TextEvent (sid : string) (data : jsval)
| TextUpdate (sid : string) (data : jsval)
| TextMove (sid : string) (data : jsval)
| TextDelete (sid : string) (data : jsval)
| Clear (sid : string) (userData : jsval)
| Ping (sid : string) (data : jsval)
| Disconnect (sid : string)
| Sweep
| HttpSave (body : jsval)
| HttpClear (body : jsval)
| HttpDelete (id : string) (body : jsval).

Definition step (st : state) (i : input) (e : env) : state * list emission :=
  match i with
  | Connection sid => (on_connection st sid, [])
  | UserJoin sid userData => on_user_join st sid userData e
  | DrawingEvent sid data => on_drawing st sid data e
  | TextEvent sid data => on_text st sid data e
  | TextUpdate sid data => on_textUpdate st sid data e
  | TextMove sid data => on_textMove st sid data e
  | TextDelete sid data => on_textDelete st sid data e
  | Clear sid userData => on_clear st sid userData e
  | Ping sid data => on_ping st sid data e
  | Disconnect sid => on_disconnect st sid e
  | Sweep => sweep st e
  | HttpSave body => (fst (api_save st body e), [])
  | HttpClear body =>
      (fst (fst (api_clear st body e)), snd (api_clear st body e))
  | HttpDelete id body =>
      (fst (fst (api_drawing_delete st id body e)),
       snd (api_drawing_delete st id body e))
  end.

(** The states the server can be in: the fresh state, and whatever a
    reachable state becomes by one event. *)
Inductive reachable : state -> Prop :=
| reachable_initial : reachable initial
| reachable_step st i e :
    reachable st -> reachable (fst (step st i e)).

End Server.

(** ** The earlier entry point

    The same server before payload validation, error notices, pagination,
    the [UNIQUE] session key and the HTTP broadcasts were added.  A handler
    that reads a field of an [undefined] or [null] payload throws a
    [TypeError]; what it did before the throw stays done. *)

Module Legacy.

Inductive completion : Type :=
| Returned
| TypeError.

Definition on_connection (st : state) (sid : string) : state :=
  match find_socket sid st with
  | Some _ => st
  | None => mkstate (db st) (sockets st ++ [Socket.mk sid JUndefined])
  end.

(** [socket.userData = userData; socket.userData.socketId = socket.id]:
    the payload itself becomes the binding; the assignment of [socketId]
    throws on [undefined] and [null] and does nothing on a primitive. *)
Definition on_user_join (st : state) (sid : string) (userData : jsval)
    (e : env) : state * list emission * completion :=
  match find_socket sid st with
  | None => (st, [], Returned)
  | Some _ =>
      if nullish userData
      then (set_userData sid userData st, [], TypeError)
      else
        let ud := match userData with
                  | JObj fs => JObj (set_field "socketId" (JStr sid) fs)
                  | _ => userData
                  end in
        let st1 := set_userData sid ud st in
        let r := db_run (write_fault e)
                   (insert_session (sqlite e) (now e)
                      (field userData "username") (field userData "role")
                      sid)
                   (db st1) in
        let st2 := with_db (db_after r (db st1)) st1 in
        (st2,
         broadcast_emit st2 sid "user_joined"
           [membership_notice userData " присоединился к доске" e]
         ++ updateOnlineUsers (as_read e st1 st2) e,
         Returned)
  end.

Definition on_drawing (st : state) (sid : string) (data : jsval) (e : env)
  : state * list emission * completion :=
  match find_socket sid st with
  | None => (st, [], Returned)
  | Some s =>
      if negb (truthy (Socket.userData s)) then (st, [], Returned)
      else
        let drawingData := stamped data e (Socket.userData s) in
        let r := db_run (write_fault e)
                   (insert_drawing (sqlite e) (now e) (JStr "drawing")
                      (JSON_stringify drawingData)
                      (field (Socket.userData s) "username"))
                   (db st) in
        (with_db (db_after r (db st)) st,
         broadcast_emit st sid "drawing" [drawingData],
         Returned)
  end.

Definition on_text (st : state) (sid : string) (data : jsval) (e : env)
  : state * list emission * completion :=
  match find_socket sid st with
  | None => (st, [], Returned)
  | Some s =>
      if negb (truthy (Socket.userData s)) then (st, [], Returned)
      else
        let textData := stamped data e (Socket.userData s) in
        let r := db_run (write_fault e)
                   (insert_drawing (sqlite e) (now e) (JStr "text")
                      (JSON_stringify textData)
                      (field (Socket.userData s) "username"))
                   (db st) in
        (with_db (db_after r (db st)) st,
         broadcast_emit st sid "text" [textData],
         Returned)
  end.

(** With an [undefined] or [null] payload the handler throws at
    [data.owner] or, for an administrator, at [data.id], in both cases
    before the statement is issued and before anything is emitted. *)
Definition on_textUpdate (st : state) (sid : string) (data : jsval)
    (e : env) : state * list emission * completion :=
  match find_socket sid st with
  | None => (st, [], Returned)
  | Some s =>
      if negb (truthy (Socket.userData s)) then (st, [], Returned)
      else if nullish data then (st, [], TypeError)
      else if negb (canEdit (Socket.userData s) data)
      then (st, [], Returned)
      else
        let updateData := stamped data e (Socket.userData s) in
        let r := db_run (write_fault e)
                   (update_drawing (sqlite e) (JSON_stringify updateData)
                                   (field data "id")) (db st) in
        (with_db (db_after r (db st)) st,
         broadcast_emit st sid "textUpdate" [updateData],
         Returned)
  end.

Definition on_textMove (st : state) (sid : string) (data : jsval)
    (e : env) : state * list emission * completion :=
  match find_socket sid st with
  | None => (st, [], Returned)
  | Some s =>
      if negb (truthy (Socket.userData s)) then (st, [], Returned)
      else if nullish data then (st, [], TypeError)
      else if negb (canMove (Socket.userData s) data)
      then (st, [], Returned)
      else
        let moveData := stamped data e (Socket.userData s) in
        let r := db_run (write_fault e)
                   (update_drawing (sqlite e) (JSON_stringify moveData)
                                   (field data "id")) (db st) in
        (with_db (db_after r (db st)) st,
         broadcast_emit st sid "textMove" [moveData],
         Returned)
  end.

Definition on_textDelete (st : state) (sid : string) (data : jsval)
    (e : env) : state * list emission * completion :=
  match find_socket sid st with
  | None => (st, [], Returned)
  | Some s =>
      if negb (truthy (Socket.userData s)) then (st, [], Returned)
      else if nullish data then (st, [], TypeError)
      else if negb (canDelete (Socket.userData s) data)
      then (st, [], Returned)
      else
        let r := db_run (write_fault e)
                   (delete_drawing (sqlite e) (field data "id")) (db st) in
        (with_db (db_after r (db st)) st,
         broadcast_emit st sid "textDelete" [field data "id"],
         Returned)
  end.

Definition cleared_notice (userData : jsval) (e : env) : jsval :=
  JObj [("message",
         JStr (display (field userData "username") ++ " очистил доску")%string);
        ("type", JStr "info");
        ("timestamp", JStr (iso e))].

Definition on_clear (st : state) (sid : string) (userData : jsval)
    (e : env) : state * list emission * completion :=
  match find_socket sid st with
  | None => (st, [], Returned)
  | Some s =>
      if negb (truthy (Socket.userData s)) then (st, [], Returned)
      else if negb (strict_eq (field (Socket.userData s) "role")
                              (JStr Administrator))
      then (st, socket_emit sid "clear_error"
                  [message "Только учитель может очистить доску"],
            Returned)
      else
        let r := db_run (write_fault e) delete_all_drawings (db st) in
        if failed r
        then (st, socket_emit sid "clear_error"
                    [message "Ошибка при очистке доски"],
              Returned)
        else
          let st' := with_db (db_after r (db st)) st in
          (st',
           io_emit st' "clear" []
           ++ broadcast_emit st' sid "notification"
                [cleared_notice (Socket.userData s) e],
           Returned)
  end.

Definition on_disconnect (st : state) (sid : string) (e : env)
  : state * list emission * completion :=
  match find_socket sid st with
  | None => (st, [], Returned)
  | Some s =>
      let st1 :=
        mkstate (db st)
                (filter (fun t => negb (Socket.id t =? sid)%string)
                        (sockets st)) in
      if truthy (Socket.userData s) then
        let r := db_run (write_fault e) (delete_session sid) (db st1) in
        let st2 := with_db (db_after r (db st1)) st1 in
        (st2,
         broadcast_emit st2 sid "user_left"
           [membership_notice (Socket.userData s) " покинул доску" e]
         ++ updateOnlineUsers (as_read e st1 st2) e,
         Returned)
      else (st1, [], Returned)
  end.

(** The hourly sweep; the list of users is not published again. *)
Definition sweep (st : state) (e : env) : state :=
  with_db (db_after (db_run (write_fault e)
                       (delete_old_sessions (now e - seconds_per_day))
                       (db st))
                    (db st)) st.

(** *** HTTP routes *)

Definition error_body (err : string) : jsval :=
  JObj [("success", JBool false); ("error", JStr err)].

(** [POST /api/save] *)
Definition api_save (st : state) (body : jsval) (e : env)
  : state * response :=
  match db_run (write_fault e)
          (insert_drawing (sqlite e) (now e) (field body "type")
             (JSON_stringify (field body "data")) (field body "userId"))
          (db st) with
  | RunErr err => (st, mkresponse 500 (error_body err))
  | RunOk d _ =>
      (with_db d st,
       mkresponse 200 (JObj [("success", JBool true);
                             ("id", JNum (drawings_seq d))]))
  end.

(** [GET /api/drawings] *)
Definition api_drawings (st : state) (e : env) : response :=
  match read_fault e with
  | Some err => mkresponse 500 (JObj [("error", JStr err)])
  | None => mkresponse 200
              (js_array (map drawing_json (select_drawings (sqlite e) (db st))))
  end.

(** [DELETE /api/clear] *)
Definition api_clear (st : state) (body : jsval) (e : env)
  : state * response :=
  if negb (strict_eq (field body "role") (JStr Administrator))
  then (st,
        mkresponse 403 (success_false "Только учитель может очистить доску"))
  else
    match db_run (write_fault e) delete_all_drawings (db st) with
    | RunErr err => (st, mkresponse 500 (error_body err))
    | RunOk d _ =>
        (with_db d st, mkresponse 200 (JObj [("success", JBool true)]))
    end.

(** [DELETE /api/drawing/:id] *)
Definition api_drawing_delete (st : state) (id : string) (body : jsval)
    (e : env) : state * response :=
  let userId := field body "userId" in
  let role := field body "role" in
  let owner := field body "owner" in
  if negb (strict_eq role (JStr Administrator))
     && negb (strict_eq userId owner)
  then (st, mkresponse 403 (success_false "Нет прав для удаления"))
  else
    match db_run (write_fault e) (delete_drawing (sqlite e) (JStr id))
                 (db st) with
    | RunErr err => (st, mkresponse 500 (error_body err))
    | RunOk d _ =>
        (with_db d st, mkresponse 200 (JObj [("success", JBool true)]))
    end.

(** [GET /api/users] *)
Definition api_users (st : state) (e : env) : response :=
  match read_fault e with
  | Some err => mkresponse 500 (JObj [("error", JStr err)])
  | None => mkresponse 200
              (js_array (map session_json
                             (select_sessions (sqlite e) (db st))))
  end.

(** *** The server as a transition system *)

Inductive input : Type :=
| Connection (sid : string)
| UserJoin (sid : string) (userData : jsval)
| DrawingEvent (sid : string) (data : jsval)
| TextEvent (sid : string) (data : jsval)
| TextUpdate (sid : string) (data : jsval)
| TextMove (sid : string) (data : jsval)
| TextDelete (sid : string) (data : jsval)
| Clear (sid : string) (userData : jsval)
| Disconnect (sid : string)
| Sweep
| HttpSave (body : jsval)
| HttpClear (body : jsval)
| HttpDelete (id : string) (body : jsval).

Definition step (st : state) (i : input) (e : env) : state * list emission :=
  match i with
  | Connection sid => (on_connection st sid, [])
  | UserJoin sid userData => fst (on_user_join st sid userData e)
  | DrawingEvent sid data => fst (on_drawing st sid data e)
  | TextEvent sid data => fst (on_text st sid data e)
  | TextUpdate sid data => fst (on_textUpdate st sid data e)
  | TextMove sid data => fst (on_textMove st sid data e)
  | TextDelete sid data => fst (on_textDelete st sid data e)
  | Clear sid userData => fst (on_clear st sid userData e)
  | Disconnect sid => fst (on_disconnect st sid e)
  | Sweep => (sweep st e, [])
  | HttpSave body => (fst (api_save st body e), [])
  | HttpClear body => (fst (api_clear st body e), [])
  | HttpDelete id body => (fst (api_drawing_delete st id body e), [])
  end.

Inductive reachable : state -> Prop :=
| reachable_initial : reachable initial
| reachable_step st i e :
    reachable st -> reachable (fst (step st i e)).

End Legacy.

(** ** Vocabulary of the contracts *)

Definition is_object (v : jsval) : bool :=
  match v with
  | JObj _ => true
  | _ => false
  end.

(** The binding of a connection, when it has one ([socket.userData] is
    truthy): the connection is Active. *)
Definition active (st : state) (sid : string) (userData : jsval) : Prop :=
  exists s, find_socket sid st = Some s
            /\ Socket.userData s = userData
            /\ truthy userData = true.

Definition is_administrator (userData : jsval) : Prop :=
  field userData "role" = JStr Administrator.

(** The connection [sid] is sent the event [ev] in [out]. *)
Definition receives (out : list emission) (sid ev : string) : Prop :=
  exists a, In (mkemit sid ev a) out.

(** Every connection of [st] is sent [ev] with the arguments [a]. *)
Definition to_everyone (st : state) (out : list emission) (ev : string)
    (a : list jsval) : Prop :=
  forall t, In t (sockets st) -> In (mkemit (Socket.id t) ev a) out.

(** Every connection of [st] but [sid] is sent [ev] with the arguments [a],
    and [sid] is not sent [ev]. *)
Definition to_everyone_else (st : state) (out : list emission)
    (sid ev : string) (a : list jsval) : Prop :=
  (forall t, In t (sockets st) -> Socket.id t <> sid ->
             In (mkemit (Socket.id t) ev a) out)
  /\ ~ receives out sid ev.

(** All of [out] goes to the connection [sid]. *)
Definition only_to (out : list emission) (sid : string) : Prop :=
  forall m, In m out -> to m = sid.

(** The rows of the page come in ascending [created_at], rows of one
    [created_at] in ascending [id]. *)
Definition created_then_id (x y : Drawing.t) : Prop :=
  Drawing.created_at x < Drawing.created_at y
  \/ (Drawing.created_at x = Drawing.created_at y
      /\ Drawing.id x < Drawing.id y).

(** The order of the listing on the engine [g]: ascending [created_at],
    rows of one [created_at] as the engine ranks their rowids. *)
Definition created_then_rank (g : engine) (x y : Drawing.t) : Prop :=
  Drawing.created_at x < Drawing.created_at y
  \/ (Drawing.created_at x = Drawing.created_at y
      /\ tie_rank g (Drawing.id x) <= tie_rank g (Drawing.id y)).

(** The engine returns the rows of equal key in rowid order. *)
Definition ties_in_rowid_order (g : engine) : Prop :=
  forall a b, a < b -> tie_rank g a <= tie_rank g b.

(** The entry [v] of the listing gives the columns of the row [r], its
    [data] parsed. *)
Definition lists (v : jsval) (r : Drawing.t) : Prop :=
  field v "id" = JNum (Drawing.id r)
  /\ field v "type" = Drawing.type r
  /\ field v "data" = JSON_parse (Drawing.data r)
  /\ field v "user_id" = Drawing.user_id r
  /\ field v "created_at" = JNum (Drawing.created_at r).

(** A text; a text or [NULL]. *)
Definition is_text (v : jsval) : bool :=
  match v with
  | JStr _ => true
  | _ => false
  end.

Definition text_or_null (v : jsval) : bool :=
  match v with
  | JNull | JStr _ => true
  | _ => false
  end.

(** The [TEXT] columns hold texts: [type], [username] and [role], which are
    [NOT NULL], a text, and [user_id] a text or [NULL]. *)
Definition columns_are_text (d : database) : Prop :=
  Forall (fun r => is_text (Drawing.type r) = true
                   /\ text_or_null (Drawing.user_id r) = true)
         (drawings d)
  /\ Forall (fun r => is_text (Session.username r) = true
                      /\ is_text (Session.role r) = true)
            (user_sessions d).

(** The entry [v] of the listing shows a text as its [type] and a text or
    [null] as its [user_id]. *)
Definition shows_texts (v : jsval) : Prop :=
  is_text (field v "type") = true /\ text_or_null (field v "user_id") = true.

(** The table invariant of an [INTEGER PRIMARY KEY]: the scan meets the rows
    in strictly ascending rowid. *)
Definition rowid_lt (x y : Drawing.t) : Prop := Drawing.id x < Drawing.id y.

Definition rowid_order (d : database) : Prop :=
  StronglySorted rowid_lt (drawings d).

(** No two session rows hold the same [socket_id]. *)
Definition one_binding_per_connection (d : database) : Prop :=
  NoDup (map Session.socket_id (user_sessions d)).

(** A refused request: nothing changes, and the only message is [ev], sent
    to the connection that asked. *)
Definition refused (st st' : state) (out : list emission) (sid ev : string)
  : Prop :=
  st' = st /\ receives out sid ev /\ only_to out sid.

(** The check the specification describes for [deleteText]: the participant
    against the [user_id] stored with the row of that id, whatever the
    request says of the owner. *)
Definition canMutate_stored (g : engine) (userData id : jsval) (d : database)
  : bool :=
  strict_eq (field userData "role") (JStr Administrator)
  || existsb (fun r => matches g id (Drawing.id r)
                       && strict_eq (field userData "username")
                                    (Drawing.user_id r))
             (drawings d).

(** [after] is [before] without the rows of the given id: the rows whose
    rowid the engine takes the bound [id] for. *)
Definition removed (g : engine) (id : jsval) (before after : database)
  : Prop :=
  (forall r, In r (drawings after)
             <-> In r (drawings before)
                 /\ matches g id (Drawing.id r) = false)
  /\ drawings_seq after = drawings_seq before
  /\ user_sessions after = user_sessions before
  /\ user_sessions_seq after = user_sessions_seq before.

(** No row of the table has the given id. *)
Definition absent (g : engine) (id : jsval) (d : database) : Prop :=
  forall r, In r (drawings d) -> matches g id (Drawing.id r) = false.

(** Row by row, [after] is [before] with the [data] column of the rows of
    the given id set to [text]: every row keeps its [id], [type], [user_id]
    and [created_at], and a row of another id is kept whole. *)
Definition only_data_changed (g : engine) (text : json_text) (id : jsval)
    (before after : database) : Prop :=
  Forall2 (fun r r' =>
             Drawing.id r' = Drawing.id r
             /\ Drawing.type r' = Drawing.type r
             /\ Drawing.user_id r' = Drawing.user_id r
             /\ Drawing.created_at r' = Drawing.created_at r
             /\ (matches g id (Drawing.id r) = true -> Drawing.data r' = text)
             /\ (matches g id (Drawing.id r) = false -> r' = r))
          (drawings before) (drawings after)
  /\ drawings_seq after = drawings_seq before
  /\ user_sessions after = user_sessions before
  /\ user_sessions_seq after = user_sessions_seq before.

(** What an accepted [textUpdate] or [textMove] does when its statement runs:
    the payload of the rows of that id is replaced and nothing else in the
    store changes; when no row has that id the store stays as it is, the
    originator is sent nothing, and the event [ev] still goes to every other
    connection. *)
Definition update_contract (st st' : state) (out : list emission)
    (sid ev : string) (data userData : jsval) (e : env) : Prop :=
  let updateData := stamped data e userData in
  only_data_changed (sqlite e) (Json updateData) (field data "id")
                    (db st) (db st')
  /\ sockets st' = sockets st
  /\ (absent (sqlite e) (field data "id") (db st) ->
      db st' = db st
      /\ (forall ev', ~ receives out sid ev')
      /\ to_everyone_else st out sid ev [updateData]).

(** An update of a text that is not on the board. *)
Definition update_of_missing : jsval :=
  JObj [("id", JNum 7); ("text", JStr "bye"); ("owner", JStr "Ann")].

(** The event [ev] goes out to every connection but the sender whatever
    becomes of the statement: [out] is that broadcast, followed at most by
    messages for the sender alone; and when the statement meets a storage
    fault the store is left without the change that was broadcast. *)
Definition broadcast_regardless (st st' : state) (out : list emission)
    (sid ev : string) (a : list jsval) (e : env) : Prop :=
  (exists tail, out = broadcast_emit st sid ev a ++ tail /\ only_to tail sid)
  /\ to_everyone_else st out sid ev a
  /\ (write_fault e <> None -> db st' = db st).

(** A stroke. *)
Definition stroke : jsval :=
  JObj [("from", JObj [("x", JNum 1); ("y", JNum 2)]);
        ("to", JObj [("x", JNum 3); ("y", JNum 4)]);
        ("color", JStr "#000000")].

(** The binding the earlier entry point keeps for a payload: the payload
    itself, with [socketId] set when it is an object. *)
Definition legacy_binding (sid : string) (userData : jsval) : jsval :=
  match userData with
  | JObj fs => JObj (set_field "socketId" (JStr sid) fs)
  | _ => userData
  end.

(** A statement keeps an invariant of the database. *)
Definition preserves (P : database -> Prop)
    (stmt : database -> run_result) : Prop :=
  forall d d' n, P d -> stmt d = RunOk d' n -> P d'.

(** ** A small board

    Ann and Bob are standard participants, Cara is an administrator; they
    are connected as [a], [b] and [c].  The board holds one text, row 1,
    created by Ann. *)

Definition Ann : jsval :=
  JObj [("username", JStr "Ann"); ("role", JStr "Ученик")].
Definition Bob : jsval :=
  JObj [("username", JStr "Bob"); ("role", JStr "Ученик")].
Definition Cara : jsval :=
  JObj [("username", JStr "Cara"); ("role", JStr Administrator)].

Definition move_of (owner : string) : jsval :=
  JObj [("id", JNum 1); ("owner", JStr owner); ("x", JNum 40)].

(** An engine for the examples: it reads the decimal texts and no other,
    keeps a wide number with a zero fraction, and returns the rows of equal
    key in rowid order. *)
Definition plain : engine.
Proof.
  refine (mkengine (fun s => option_map Z.of_int (NilZero.int_of_string s)) _
                   (fun n => (rowid_text n ++ ".0")%string) _
                   (fun rowid => rowid)).
  - intros n; unfold rowid_text, display.
    rewrite NilZero.isi; [simpl; now rewrite DecimalZ.of_to| |];
      destruct n; simpl; try discriminate; intros H; injection H as H;
      now apply DecimalPos.Unsigned.to_uint_nonnil in H.
  - intros n; destruct (rowid_text n); discriminate.
Defined.

(** The engine [g], reading in addition the text [extra] as the rowid [n]
    (as SQLite reads [1.0], [+1] or [1e0] as 1). *)
Definition reading (extra : string) (n : Z) (g : engine) : engine.
Proof.
  refine (mkengine (fun s => match text_rowid g s with
                             | Some m => Some m
                             | None => if (s =? extra)%string then Some n
                                       else None
                             end) _
                   (wide_number_text g) (wide_number_text_not_empty g)
                   (tie_rank g)).
  intros m; now rewrite (reads_decimal g).
Defined.

(** The engine [g], returning the rows of equal key by [rank]. *)
Definition ranking (rank : Z -> Z) (g : engine) : engine :=
  mkengine (text_rowid g) (reads_decimal g) (wide_number_text g)
           (wide_number_text_not_empty g) rank.

Definition noon : env :=
  mkenv "2024-05-01T12:00:00.000Z" 1714564800 None None false plain.

Definition disk_full : env :=
  mkenv "2024-05-01T12:00:00.000Z" 1714564800
        (Some "SQLITE_FULL: database or disk is full") None false plain.

(** Noon again, the query of [updateOnlineUsers] overtaking the statement
    queued before it. *)
Definition noon_overtaken : env :=
  mkenv "2024-05-01T12:00:00.000Z" 1714564800 None None true plain.

(** Noon again, on an engine that returns the rows of equal key latest
    first. *)
Definition noon_latest_first : env :=
  mkenv "2024-05-01T12:00:00.000Z" 1714564800 None None false
        (ranking Z.opp plain).

Definition note : Drawing.t :=
  Drawing.mk 1 (JStr "text")
    (Json (JObj [("id", JNum 1); ("text", JStr "hello"); ("owner", JStr "Ann")]))
    (JStr "Ann") 1714564000.

Definition board : state :=
  mkstate (mkdb [note] 1 [] 0)
          [Socket.mk "a" Ann; Socket.mk "b" Bob; Socket.mk "c" Cara].

(** The board with a fourth connection, [d], that has not joined. *)
Definition board_with_guest : state :=
  mkstate (db board) (sockets board ++ [Socket.mk "d" JUndefined]).

(** A join that gives an empty username. *)
Definition nameless : jsval :=
  JObj [("username", JStr ""); ("role", JStr "Ученик")].

(** The body of an administrator's HTTP request, and of one by Bob that
    declares Ann, or Bob himself, as the owner. *)
Definition admin_body : jsval :=
  JObj [("userId", JStr "Cara"); ("role", JStr Administrator)].

Definition body_of_Bob (owner : string) : jsval :=
  JObj [("userId", JStr "Bob"); ("role", JStr "Ученик");
        ("owner", JStr owner)].

Definition success_true : jsval := JObj [("success", JBool true)].

(** Ann connects as [a] and sends [user_join] twice, on either entry
    point. *)
Definition server_joined_twice : state :=
  fst (Server.step
         (fst (Server.step
                 (fst (Server.step initial (Server.Connection "a") noon))
                 (Server.UserJoin "a" Ann) noon))
         (Server.UserJoin "a" Ann) noon).

Definition legacy_joined_twice : state :=
  fst (Legacy.step
         (fst (Legacy.step
                 (fst (Legacy.step initial (Legacy.Connection "a") noon))
                 (Legacy.UserJoin "a" Ann) noon))
         (Legacy.UserJoin "a" Ann) noon).

(** Ann connects, joins and draws two strokes within one second, on either
    entry point. *)
Definition server_two_strokes : state :=
  fst (Server.step
         (fst (Server.step
                 (fst (Server.step
                         (fst (Server.step initial (Server.Connection "a")
                                 noon))
                         (Server.UserJoin "a" Ann) noon))
                 (Server.DrawingEvent "a" stroke) noon))
         (Server.DrawingEvent "a" stroke) noon).

Definition legacy_two_strokes : state :=
  fst (Legacy.step
         (fst (Legacy.step
                 (fst (Legacy.step
                         (fst (Legacy.step initial (Legacy.Connection "a")
                                 noon))
                         (Legacy.UserJoin "a" Ann) noon))
                 (Legacy.DrawingEvent "a" stroke) noon))
         (Legacy.DrawingEvent "a" stroke) noon).

(** ** Vocabulary of the further properties *)

(** The connection has no binding: it is not open, or its
    [socket.userData] is falsy. *)
Definition anonymous (st : state) (sid : string) : Prop :=
  forall s, find_socket sid st = Some s -> truthy (Socket.userData s) = false.

(** The day of a time in seconds. *)
Definition day (t : Z) : Z := t / seconds_per_day.

(** The order of the list of participants: later [connected_at] first. *)
Definition later_first (x y : Session.t) : Prop :=
  Session.connected_at y <= Session.connected_at x.

(** The rowid of the row the next [INSERT INTO drawings] creates. *)
Definition next_drawing_id (d : database) : Z :=
  next_rowid (drawings_seq d) (map Drawing.id (drawings d)).

(** Ann, not yet joined, on a fresh server; and her join. *)
Definition lobby : state :=
  fst (Server.step initial (Server.Connection "a") noon).

(** A text that the browser numbers 1718000000000. *)
Definition new_text : jsval :=
  JObj [("id", JNum 1718000000000); ("text", JStr "hi"); ("owner", JStr "Bob");
        ("userId", JStr "Cara")].

(** The body of a save request. *)
Definition save_body : jsval :=
  JObj [("type", JStr "text"); ("data", JObj [("text", JStr "hi")])].

(** No row carries a rowid beyond the largest one handed out. *)
Definition ids_within_seq (d : database) : Prop :=
  Forall (fun r => Drawing.id r <= drawings_seq d) (drawings d).

(** [d] comes after [d0]: the sequence has not gone back, and every row of
    [d] either is a row of [d0] under its old [id], [type], [user_id] and
    [created_at], or has a rowid that [d0] had not yet handed out. *)
Definition extends (d0 d : database) : Prop :=
  drawings_seq d0 <= drawings_seq d
  /\ forall r', In r' (drawings d) ->
       (exists r, In r (drawings d0)
                  /\ Drawing.id r = Drawing.id r'
                  /\ Drawing.type r' = Drawing.type r
                  /\ Drawing.user_id r' = Drawing.user_id r
                  /\ Drawing.created_at r' = Drawing.created_at r)
       \/ drawings_seq d0 < Drawing.id r'.

(** The row an accepted [drawing] or [text] event stores. *)
Definition created_row (d : database) (type : string) (data userData : jsval)
    (e : env) : Drawing.t :=
  Drawing.mk (next_drawing_id d) (JStr type) (Json (stamped data e userData))
             (sql_text (sqlite e) (field userData "username")) (now e).

(** [d'] is [d] with the one row [r] added at the end. *)
Definition appended (r : Drawing.t) (d d' : database) : Prop :=
  drawings d' = drawings d ++ [r]
  /\ drawings_seq d' = Drawing.id r
  /\ user_sessions d' = user_sessions d
  /\ user_sessions_seq d' = user_sessions_seq d.

(** A statement that leaves the table [drawings] and its sequence alone. *)
Definition drawings_untouched (stmt : database -> run_result) : Prop :=
  forall d d' n, stmt d = RunOk d' n ->
                 drawings d' = drawings d /\ drawings_seq d' = drawings_seq d.

(** Every session row names its participant: the username is truthy and
    the role is not null. *)
Definition sessions_named (d : database) : Prop :=
  Forall (fun r => truthy (Session.username r) = true
                   /\ nullish (Session.role r) = false)
         (user_sessions d).

(** No session row holds a null username or role. *)
Definition sessions_not_null (d : database) : Prop :=
  Forall (fun r => nullish (Session.username r) = false
                   /\ nullish (Session.role r) = false)
         (user_sessions d).

(** The binding [server.js] keeps for a join. *)
Definition server_binding (sid : string) (userData : jsval) (e : env)
  : jsval :=
  JObj (set_field "joinedAt" (JStr (iso e))
          (set_field "socketId" (JStr sid) (spread userData))).

(** A join that names another connection as its own. *)
Definition forged_join : jsval :=
  JObj [("username", JStr "Dan"); ("role", JStr "Ученик");
        ("socketId", JStr "c")].

(** Every joined connection is bound to a truthy username and to its own
    connection id. *)
Definition bindings_named (l : list Socket.t) : Prop :=
  Forall (fun s => truthy (Socket.userData s) = true ->
                   truthy (field (Socket.userData s) "username") = true
                   /\ field (Socket.userData s) "socketId"
                      = JStr (Socket.id s))
         l.

(** Every row of the board has a truthy [type] and a truthy [user_id]. *)
Definition rows_owned (d : database) : Prop :=
  Forall (fun r => truthy (Drawing.type r) = true
                   /\ truthy (Drawing.user_id r) = true)
         (drawings d).

(** ** Strict equality and the permission checks *)

Lemma strict_eq_primitive (a b : jsval) :
  is_object a = false -> (strict_eq a b = true <-> a = b).
Proof.
  intros Ha; destruct a, b; simpl in *; try discriminate;
    split; intros H; try discriminate; try reflexivity.
  - apply Bool.eqb_prop in H; now subst.
  - injection H as ->; apply Bool.eqb_reflx.
  - apply Z.eqb_eq in H; now subst.
  - injection H as ->; apply Z.eqb_refl.
  - apply String.eqb_eq in H; now subst.
  - injection H as ->; apply String.eqb_refl.
Qed.

Lemma strict_eq_string (a : jsval) (s : string) :
  strict_eq a (JStr s) = true <-> a = JStr s.
Proof.
  destruct a; simpl; split; intros H; try discriminate.
  - apply String.eqb_eq in H; now subst.
  - injection H as ->; apply String.eqb_refl.
Qed.

Lemma not_administrator (userData : jsval) :
  ~ is_administrator userData ->
  strict_eq (field userData "role") (JStr Administrator) = false.
Proof.
  intros H; destruct (strict_eq _ _) eqn:E; [|reflexivity].
  apply strict_eq_string in E; contradiction.
Qed.

Lemma administrator (userData : jsval) :
  is_administrator userData ->
  strict_eq (field userData "role") (JStr Administrator) = true.
Proof. intros H; now apply strict_eq_string. Qed.

(** C1.  For a participant whose role is Administrator the permission check
    of [textUpdate], [textMove] and [textDelete] is true whatever the event
    says of the owner; for any other participant, of username [u], it is
    true exactly when the [owner] field of the event is [u]. *)
Theorem permission_check_admin_or_owner (userData data : jsval) :
  (is_administrator userData ->
     canEdit userData data = true
     /\ canMove userData data = true
     /\ canDelete userData data = true)
  /\ (~ is_administrator userData ->
      is_object (field userData "username") = false ->
        (canEdit userData data = true
           <-> field data "owner" = field userData "username")
        /\ (canMove userData data = true
           <-> field data "owner" = field userData "username")
        /\ (canDelete userData data = true
           <-> field data "owner" = field userData "username")).
Proof.
  split.
  - intros Hadm; unfold canEdit, canMove, canDelete.
    rewrite (administrator _ Hadm); auto.
  - intros Hstd Hprim; unfold canEdit, canMove, canDelete.
    rewrite (not_administrator _ Hstd); simpl.
    pose proof (strict_eq_primitive _ (field data "owner") Hprim) as E.
    repeat split; intros H; try (apply E in H; congruence);
      apply E; congruence.
Qed.

Lemma permission_check_admin_or_owner_witness :
  canEdit Cara (move_of "Ann") = true
  /\ (canMove Ann (move_of "Ann") = true
      <-> field (move_of "Ann") "owner" = field Ann "username")
  /\ (canDelete Bob (move_of "Ann") = true
      <-> field (move_of "Ann") "owner" = field Bob "username").
Proof.
  split; [|split].
  - apply (proj1 (permission_check_admin_or_owner Cara (move_of "Ann")));
      reflexivity.
  - apply (proj2 (permission_check_admin_or_owner Ann (move_of "Ann")));
      [ unfold is_administrator; vm_compute; discriminate | reflexivity ].
  - apply (proj2 (permission_check_admin_or_owner Bob (move_of "Ann")));
      [ unfold is_administrator; vm_compute; discriminate | reflexivity ].
Defined.

(** ** Who is sent what *)

Lemma find_socket_In (st : state) (sid : string) (s : Socket.t) :
  find_socket sid st = Some s -> In s (sockets st) /\ Socket.id s = sid.
Proof.
  unfold find_socket; intros H; apply find_some in H as [Hin Heq].
  apply String.eqb_eq in Heq; auto.
Qed.

Lemma In_io_emit (st : state) (ev : string) (a : list jsval) (m : emission) :
  In m (io_emit st ev a)
  <-> exists t, In t (sockets st) /\ m = mkemit (Socket.id t) ev a.
Proof.
  unfold io_emit; rewrite in_map_iff; split; intros [t [H1 H2]];
    exists t; auto.
Qed.

Lemma In_broadcast_emit (st : state) (sid ev : string) (a : list jsval)
    (m : emission) :
  In m (broadcast_emit st sid ev a)
  <-> exists t, In t (sockets st) /\ Socket.id t <> sid
                /\ m = mkemit (Socket.id t) ev a.
Proof.
  unfold broadcast_emit; rewrite in_map_iff; split.
  - intros [t [H1 H2]]; apply filter_In in H2 as [H2 H3]; exists t.
    apply negb_true_iff, String.eqb_neq in H3; auto.
  - intros [t [H1 [H2 H3]]]; exists t; split; auto.
    apply filter_In; split; auto.
    now apply negb_true_iff, String.eqb_neq.
Qed.

Lemma io_emit_to_everyone (st : state) (ev : string) (a : list jsval) :
  to_everyone st (io_emit st ev a) ev a.
Proof. intros t Ht; apply In_io_emit; eauto. Qed.

Lemma broadcast_emit_not_to_sender (st : state) (sid ev ev' : string)
    (a : list jsval) :
  ~ receives (broadcast_emit st sid ev a) sid ev'.
Proof.
  intros [a' H]; apply In_broadcast_emit in H as [t [_ [Hne H]]].
  injection H as H _ _; congruence.
Qed.

Lemma broadcast_emit_to_everyone_else (st : state) (sid ev : string)
    (a : list jsval) :
  to_everyone_else st (broadcast_emit st sid ev a) sid ev a.
Proof.
  split; [|apply broadcast_emit_not_to_sender].
  intros t Ht Hne; apply In_broadcast_emit; eauto.
Qed.

Lemma socket_emit_only_to (sid ev : string) (a : list jsval) :
  receives (socket_emit sid ev a) sid ev /\ only_to (socket_emit sid ev a) sid.
Proof.
  split; [exists a; now left|].
  intros m [<-|[]]; reflexivity.
Qed.

(** ** Clearing the board *)

(** C4.  When an Active participant who is not an administrator asks to
    clear the board, the issuer is sent [clear_error], nobody else is sent
    anything, and the state, the stored items included, stays as it was. *)
Theorem clear_refused_for_non_administrator (st : state) (sid : string)
    (userData payload : jsval) (e : env) :
  active st sid userData ->
  ~ is_administrator userData ->
  (let '(st', out) := Server.on_clear st sid payload e in
   refused st st' out sid "clear_error")
  /\ (let '(st', out, _) := Legacy.on_clear st sid payload e in
      refused st st' out sid "clear_error").
Proof.
  intros [s [Hs [Hud Hact]]] Hstd; subst userData.
  unfold Server.on_clear, Legacy.on_clear; rewrite Hs, Hact.
  rewrite (not_administrator _ Hstd); simpl.
  split; (split; [reflexivity | apply socket_emit_only_to]).
Qed.

Lemma clear_refused_for_non_administrator_witness :
  (let '(st', out) := Server.on_clear board "b" JUndefined noon in
   refused board st' out "b" "clear_error")
  /\ (let '(st', out, _) := Legacy.on_clear board "b" JUndefined noon in
      refused board st' out "b" "clear_error").
Proof.
  apply (clear_refused_for_non_administrator board "b" Bob JUndefined noon).
  - exists (Socket.mk "b" Bob); repeat split.
  - unfold is_administrator; vm_compute; discriminate.
Defined.

Lemma active_socket (st : state) (sid : string) (userData : jsval) :
  active st sid userData ->
  exists s, find_socket sid st = Some s /\ In s (sockets st)
            /\ Socket.id s = sid /\ Socket.userData s = userData
            /\ truthy (Socket.userData s) = true.
Proof.
  intros [s [Hs [Hud Hact]]]; exists s; subst userData.
  destruct (find_socket_In _ _ _ Hs); auto.
Qed.

(** C3, as the claim has it, fails on [server.js]: Cara, an administrator,
    clears the board and is herself sent the [notification], which therefore
    is not sent to everyone but the issuer. *)
Lemma clear_notification_reaches_issuer :
  active board "c" Cara /\ is_administrator Cara
  /\ ~ to_everyone_else board (snd (Server.on_clear board "c" JUndefined noon))
         "c" "notification" [Server.cleared_notice Cara noon].
Proof.
  split; [|split].
  - exists (Socket.mk "c" Cara); repeat split.
  - reflexivity.
  - intros [_ H]; apply H.
    exists [Server.cleared_notice Cara noon]; vm_compute; tauto.
Qed.

(** C3, amended.  When an Active administrator clears the board and the
    statement succeeds, no item is left in the store and two rounds of
    messages follow in this order: [clear], to every connection, the issuer
    included; then the [notification] that tells who cleared the board,
    which [server.js] sends to every connection, the issuer included, and
    the earlier entry point to every connection but the issuer.  When the
    statement fails, the issuer alone is sent [clear_error] and nothing
    changes. *)
Theorem clear_by_administrator (st : state) (sid : string)
    (userData payload : jsval) (e : env) :
  active st sid userData ->
  is_administrator userData ->
  (write_fault e = None ->
     (let '(st', out) := Server.on_clear st sid payload e in
      drawings (db st') = [] /\ sockets st' = sockets st
      /\ exists first second, out = first ++ second
           /\ to_everyone st first "clear" []
           /\ Forall (fun m => event m = "clear") first
           /\ to_everyone st second "notification"
                [Server.cleared_notice userData e]
           /\ receives second sid "notification"
           /\ Forall (fun m => event m = "notification") second)
     /\ (let '(st', out, _) := Legacy.on_clear st sid payload e in
         drawings (db st') = [] /\ sockets st' = sockets st
         /\ exists first second, out = first ++ second
              /\ to_everyone st first "clear" []
              /\ Forall (fun m => event m = "clear") first
              /\ to_everyone_else st second sid "notification"
                   [Legacy.cleared_notice userData e]
              /\ Forall (fun m => event m = "notification") second))
  /\ (write_fault e <> None ->
      (let '(st', out) := Server.on_clear st sid payload e in
       refused st st' out sid "clear_error")
      /\ (let '(st', out, _) := Legacy.on_clear st sid payload e in
          refused st st' out sid "clear_error")).
Proof.
  intros Hact Hadm.
  destruct (active_socket _ _ _ Hact) as [s [Hs [Hin [Hid [Hud Htr]]]]].
  unfold Server.on_clear, Legacy.on_clear; rewrite Hs, Htr, Hud.
  rewrite (administrator _ Hadm); simpl.
  split.
  - intros ->; simpl.
    assert (Hev : forall ev a,
               Forall (fun m => event m = ev)
                      (io_emit (with_db (mkdb [] (drawings_seq (db st))
                                  (user_sessions (db st))
                                  (user_sessions_seq (db st))) st) ev a)).
    { intros ev a; apply Forall_forall; intros m Hm.
      apply In_io_emit in Hm as [t [_ ->]]; reflexivity. }
    split; (split; [reflexivity|split; [reflexivity|]]);
      eexists; eexists; (split; [reflexivity|]).
    + repeat split; auto using io_emit_to_everyone.
      * apply (io_emit_to_everyone (with_db _ st)).
      * apply (io_emit_to_everyone (with_db _ st)).
      * exists [Server.cleared_notice userData e].
        rewrite <- Hid; apply (io_emit_to_everyone (with_db _ st)); exact Hin.
    + repeat split; auto.
      * apply (io_emit_to_everyone (with_db _ st)).
      * intros t Ht Hne.
        apply (broadcast_emit_to_everyone_else (with_db _ st)); auto.
      * apply (broadcast_emit_not_to_sender (with_db _ st)).
      * apply Forall_forall; intros m Hm.
        apply In_broadcast_emit in Hm as [t [_ [_ ->]]]; reflexivity.
  - intros Hf; destruct (write_fault e) as [err|]; [|congruence]; simpl.
    split; (split; [reflexivity | apply socket_emit_only_to]).
Qed.

Lemma clear_by_administrator_witness :
  (let '(st', out) := Server.on_clear board "c" JUndefined noon in
   drawings (db st') = [] /\ sockets st' = sockets board
   /\ exists first second, out = first ++ second
        /\ to_everyone board first "clear" []
        /\ Forall (fun m => event m = "clear") first
        /\ to_everyone board second "notification"
             [Server.cleared_notice Cara noon]
        /\ receives second "c" "notification"
        /\ Forall (fun m => event m = "notification") second)
  /\ (let '(st', out, _) := Legacy.on_clear board "c" JUndefined noon in
      drawings (db st') = [] /\ sockets st' = sockets board
      /\ exists first second, out = first ++ second
           /\ to_everyone board first "clear" []
           /\ Forall (fun m => event m = "clear") first
           /\ to_everyone_else board second "c" "notification"
                [Legacy.cleared_notice Cara noon]
           /\ Forall (fun m => event m = "notification") second)
  /\ (let '(st', out) := Server.on_clear board "c" JUndefined disk_full in
      refused board st' out "c" "clear_error").
Proof.
  pose proof (clear_by_administrator board "c" Cara JUndefined noon
                (ex_intro _ (Socket.mk "c" Cara)
                   (conj eq_refl (conj eq_refl eq_refl)))
                eq_refl) as [HA _].
  pose proof (clear_by_administrator board "c" Cara JUndefined disk_full
                (ex_intro _ (Socket.mk "c" Cara)
                   (conj eq_refl (conj eq_refl eq_refl)))
                eq_refl) as [_ HB].
  destruct (HA eq_refl) as [HS HL].
  split; [exact HS | split; [exact HL|]].
  apply HB; discriminate.
Defined.

(** ** Deleting a text *)

Lemma delete_drawing_removed (g : engine) (id : jsval) (d d' : database)
    (n : nat) :
  delete_drawing g id d = RunOk d' n -> removed g id d d'.
Proof.
  unfold delete_drawing; intros H; injection H as <- _.
  repeat split; simpl; auto.
  - now apply filter_In in H.
  - apply filter_In in H as [_ H]; now apply negb_true_iff in H.
  - intros [H1 H2]; apply filter_In; split; auto.
    now apply negb_true_iff.
Qed.

(** C2, as the claim has it, fails on both entry points.  Row 1 is stored
    with Ann as its [user_id]; Bob, a standard participant, asks to delete it
    and names himself as the owner.  The check against the stored owner
    refuses him, the handlers do not: the row is deleted and the deletion is
    broadcast.  And where the earlier entry point does refuse (Bob naming
    Ann as the owner), it sends Bob no error notice. *)
Lemma textDelete_trusts_the_request_owner :
  active board "b" Bob
  /\ canMutate_stored (sqlite noon) Bob (JNum 1) (db board) = false
  /\ drawings (db (fst (Server.on_textDelete board "b" (move_of "Bob") noon)))
     = []
  /\ receives (snd (Server.on_textDelete board "b" (move_of "Bob") noon))
              "a" "textDelete"
  /\ drawings
       (db (fst (fst (Legacy.on_textDelete board "b" (move_of "Bob") noon))))
     = []
  /\ ~ receives
        (snd (fst (Legacy.on_textDelete board "b" (move_of "Ann") noon)))
        "b" "error".
Proof.
  split; [exists (Socket.mk "b" Bob); repeat split|].
  repeat split; try reflexivity.
  - exists [JNum 1]; vm_compute; tauto.
  - intros [a H]; vm_compute in H; exact H.
Qed.

(** C2, amended.  For a [textDelete] event from an Active connection the
    permission decision is [canDelete] of the participant and the request:
    administrator, or the username equals the [owner] field of the request;
    the owner stored with the row is not read.  When it fails nothing
    changes, [server.js] sends the error notice to the originator only and
    the earlier entry point sends nothing.  When it passes the deleted id is
    sent to every connection but the originator and, unless the statement
    meets a storage fault, the rows of that id are removed from the
    store: the rows whose rowid the engine takes the bound id for. *)
Theorem textDelete_checks_the_request_owner (st : state) (sid : string)
    (userData data : jsval) (e : env) :
  active st sid userData ->
  (truthy data = true -> truthy (field data "id") = true ->
   let '(st', out) := Server.on_textDelete st sid data e in
   (canDelete userData data = false -> refused st st' out sid "error")
   /\ (canDelete userData data = true ->
       to_everyone_else st out sid "textDelete" [field data "id"]
       /\ sockets st' = sockets st
       /\ (write_fault e = None ->
           removed (sqlite e) (field data "id") (db st) (db st'))))
  /\ (nullish data = false ->
      let '(st', out, _) := Legacy.on_textDelete st sid data e in
      (canDelete userData data = false -> st' = st /\ out = [])
      /\ (canDelete userData data = true ->
          to_everyone_else st out sid "textDelete" [field data "id"]
          /\ sockets st' = sockets st
          /\ (write_fault e = None ->
              removed (sqlite e) (field data "id") (db st) (db st')))).
Proof.
  intros Hact.
  destruct (active_socket _ _ _ Hact) as [s [Hs [Hin [Hid [Hud Htr]]]]].
  unfold Server.on_textDelete, Legacy.on_textDelete; rewrite Hs, Htr, Hud.
  split.
  - intros -> ->; simpl.
    destruct (canDelete userData data); simpl; split; try discriminate.
    + intros _; split; [|split].
      * destruct (broadcast_emit_to_everyone_else
                    st sid "textDelete" [field data "id"]) as [H1 H2].
        split.
        -- intros t Ht Hne; apply in_or_app; left; auto.
        -- intros [a H]; apply in_app_or in H as [H|H].
           ++ apply H2; exists a; exact H.
           ++ destruct (failed _); [|destruct H].
              destruct H as [H|[]]; discriminate.
      * reflexivity.
      * intros ->; simpl; eapply delete_drawing_removed; reflexivity.
    + intros _; split; [reflexivity | apply socket_emit_only_to].
  - intros ->; simpl.
    destruct (canDelete userData data); simpl; split; try discriminate; auto.
    intros _; split; [|split].
    + apply broadcast_emit_to_everyone_else.
    + reflexivity.
    + intros ->; simpl; eapply delete_drawing_removed; reflexivity.
Qed.

Lemma textDelete_checks_the_request_owner_witness :
  refused board (fst (Server.on_textDelete board "b" (move_of "Ann") noon))
          (snd (Server.on_textDelete board "b" (move_of "Ann") noon))
          "b" "error"
  /\ removed (sqlite noon) (JNum 1) (db board)
       (db (fst (fst (Legacy.on_textDelete board "b" (move_of "Bob") noon)))).
Proof.
  pose proof (textDelete_checks_the_request_owner board "b" Bob
                (move_of "Ann") noon
                (ex_intro _ (Socket.mk "b" Bob)
                   (conj eq_refl (conj eq_refl eq_refl)))) as [HA _].
  pose proof (textDelete_checks_the_request_owner board "b" Bob
                (move_of "Bob") noon
                (ex_intro _ (Socket.mk "b" Bob)
                   (conj eq_refl (conj eq_refl eq_refl)))) as [_ HB].
  split.
  - exact (proj1 (HA eq_refl eq_refl) eq_refl).
  - exact (proj2 (proj2 (proj2 (HB eq_refl) eq_refl)) eq_refl).
Defined.

(** ** Updating and moving a text *)

Lemma update_drawing_frame (g : engine) (text : json_text) (id : jsval)
    (d : database) :
  exists n, update_drawing g (Some text) id d
            = RunOk (db_after (update_drawing g (Some text) id d) d) n
  /\ only_data_changed g text id d
       (db_after (update_drawing g (Some text) id d) d).
Proof.
  eexists; split; [reflexivity|]; simpl.
  repeat split; simpl; auto.
  induction (drawings d) as [|r l IH]; simpl; constructor; auto.
  unfold set_data; destruct (matches g id (Drawing.id r)); simpl;
    repeat split; auto; discriminate.
Qed.

Lemma update_drawing_absent (g : engine) (text : json_text) (id : jsval)
    (d : database) :
  absent g id d -> db_after (update_drawing g (Some text) id d) d = d.
Proof.
  intros Habs; simpl; destruct d as [rows seq us useq]; simpl in *; f_equal.
  unfold absent in Habs; simpl in Habs.
  rewrite <- (map_id rows) at 2; apply map_ext_in; intros r Hr.
  unfold set_data; now rewrite (Habs r Hr).
Qed.

Lemma stamped_stringify (data userData : jsval) (e : env) :
  JSON_stringify (stamped data e userData)
  = Some (Json (stamped data e userData)).
Proof. reflexivity. Qed.

Lemma accepted_update_contract (st : state) (sid ev : string)
    (data userData : jsval) (e : env) (tail : list emission) :
  write_fault e = None ->
  (failed (db_run (write_fault e)
             (update_drawing (sqlite e) (JSON_stringify (stamped data e userData))
                             (field data "id")) (db st)) = false ->
   tail = []) ->
  update_contract st
    (with_db (db_after (db_run (write_fault e)
                          (update_drawing (sqlite e)
                             (JSON_stringify (stamped data e userData))
                             (field data "id")) (db st)) (db st)) st)
    (broadcast_emit st sid ev [stamped data e userData] ++ tail)
    sid ev data userData e.
Proof.
  intros Hf Htail; rewrite Hf in *; rewrite stamped_stringify in *.
  rewrite (Htail eq_refl), app_nil_r; unfold db_run.
  destruct (update_drawing_frame (sqlite e) (Json (stamped data e userData))
              (field data "id") (db st)) as [n [_ Hframe]].
  split; [exact Hframe|split; [reflexivity|]].
  intros Habs; split; [|split].
  - now apply update_drawing_absent.
  - intros ev'; apply broadcast_emit_not_to_sender.
  - apply broadcast_emit_to_everyone_else.
Qed.

(** C9, as the claim has it, fails on both entry points.  Cara updates a
    text whose id, 7, is not in the store: the store stays as it is, but
    nothing at all is sent back to Cara, and the update still goes out to
    the others. *)
Lemma update_of_missing_id_not_signalled :
  active board "c" Cara
  /\ absent (sqlite noon) (field update_of_missing "id") (db board)
  /\ fst (Server.on_textUpdate board "c" update_of_missing noon) = board
  /\ (forall ev,
        ~ receives (snd (Server.on_textUpdate board "c" update_of_missing noon))
                   "c" ev)
  /\ receives (snd (Server.on_textUpdate board "c" update_of_missing noon))
              "a" "textUpdate"
  /\ (forall ev,
        ~ receives
            (snd (fst (Legacy.on_textUpdate board "c" update_of_missing noon)))
            "c" ev).
Proof.
  split; [exists (Socket.mk "c" Cara); repeat split|].
  split; [intros r [<-|[]]; reflexivity|].
  split; [reflexivity|].
  split; [|split].
  - intros ev [a H]; vm_compute in H.
    destruct H as [H|[H|[]]]; discriminate.
  - eexists; vm_compute; left; reflexivity.
  - intros ev [a H]; vm_compute in H.
    destruct H as [H|[H|[]]]; discriminate.
Qed.

(** C9, amended.  When an accepted [textUpdate] or [textMove] runs its
    statement, only the [data] column of the rows of that id (the rows whose
    rowid the engine takes the bound id for) changes: [id],
    [type], [user_id] and [created_at] of every row stay, and every row of
    another id stays whole.  When no row has that id the store is left as it
    is; no absence is signalled: the originator is sent nothing and the
    update is still sent to every other connection. *)
Theorem update_changes_only_the_payload (st : state) (sid : string)
    (userData data : jsval) (e : env) :
  active st sid userData ->
  write_fault e = None ->
  (truthy data = true -> truthy (field data "id") = true ->
     (canEdit userData data = true ->
      let '(st', out) := Server.on_textUpdate st sid data e in
      update_contract st st' out sid "textUpdate" data userData e)
     /\ (canMove userData data = true ->
         let '(st', out) := Server.on_textMove st sid data e in
         update_contract st st' out sid "textMove" data userData e))
  /\ (nullish data = false ->
       (canEdit userData data = true ->
        let '(st', out, _) := Legacy.on_textUpdate st sid data e in
        update_contract st st' out sid "textUpdate" data userData e)
       /\ (canMove userData data = true ->
           let '(st', out, _) := Legacy.on_textMove st sid data e in
           update_contract st st' out sid "textMove" data userData e)).
Proof.
  intros Hact Hf.
  destruct (active_socket _ _ _ Hact) as [s [Hs [Hin [Hid [Hud Htr]]]]].
  unfold Server.on_textUpdate, Server.on_textMove,
    Legacy.on_textUpdate, Legacy.on_textMove; rewrite Hs, Htr, Hud.
  split.
  - intros -> ->; simpl; split; intros ->; simpl;
      apply accepted_update_contract; auto; intros _; rewrite Hf; reflexivity.
  - intros ->; simpl; split; intros ->; simpl;
      rewrite <- (app_nil_r (broadcast_emit _ _ _ _));
      apply accepted_update_contract; auto.
Qed.

Lemma update_changes_only_the_payload_witness :
  update_contract board
    (fst (Server.on_textMove board "a" (move_of "Ann") noon))
    (snd (Server.on_textMove board "a" (move_of "Ann") noon))
    "a" "textMove" (move_of "Ann") Ann noon
  /\ update_contract board
       (fst (fst (Legacy.on_textUpdate board "c" update_of_missing noon)))
       (snd (fst (Legacy.on_textUpdate board "c" update_of_missing noon)))
       "c" "textUpdate" update_of_missing Cara noon.
Proof.
  split.
  - exact (proj2 (proj1 (update_changes_only_the_payload board "a" Ann
                           (move_of "Ann") noon
                           (ex_intro _ (Socket.mk "a" Ann)
                              (conj eq_refl (conj eq_refl eq_refl)))
                           eq_refl)
                        eq_refl eq_refl) eq_refl).
  - exact (proj1 (proj2 (update_changes_only_the_payload board "c" Cara
                           update_of_missing noon
                           (ex_intro _ (Socket.mk "c" Cara)
                              (conj eq_refl (conj eq_refl eq_refl)))
                           eq_refl)
                        eq_refl) eq_refl).
Defined.

(** ** The broadcast and the statement *)

Lemma handler_broadcast_regardless (st : state) (sid ev : string)
    (a : list jsval) (e : env) (stmt : database -> run_result)
    (tail : list emission) :
  only_to tail sid ->
  (forall m, In m tail -> event m <> ev) ->
  broadcast_regardless st
    (with_db (db_after (db_run (write_fault e) stmt (db st)) (db st)) st)
    (broadcast_emit st sid ev a ++ tail) sid ev a e.
Proof.
  intros Honly Hev; split; [|split].
  - exists tail; auto.
  - destruct (broadcast_emit_to_everyone_else st sid ev a) as [H1 H2]; split.
    + intros t Ht Hne; apply in_or_app; left; auto.
    + intros [a' H]; apply in_app_or in H as [H|H].
      * apply H2; exists a'; exact H.
      * now apply Hev in H.
  - intros Hf; destruct (write_fault e); [reflexivity | congruence].
Qed.

Lemma error_tail_only_to (sid text : string) (b : bool) :
  only_to (if b then socket_emit sid "error" [message text] else []) sid.
Proof.
  destruct b; [apply socket_emit_only_to | intros m []].
Qed.

Lemma error_tail_event (sid text : string) (b : bool) (ev : string) :
  ev <> "error" ->
  forall m, In m (if b then socket_emit sid "error" [message text] else []) ->
            event m <> ev.
Proof.
  intros Hev m; destruct b; [intros [<-|[]]; simpl; congruence | intros []].
Qed.

(** C10.  For every valid [drawing], [text], [textUpdate], [textMove] and
    [textDelete] event from an Active connection, on both entry points, the
    event is sent to every connection but the sender whether or not the
    statement succeeds: with or without a storage fault the messages are the
    same broadcast, followed at most by an error notice for the sender; and
    under a storage fault the store is left as it was, without the change
    the others were just sent. *)
Theorem broadcast_independent_of_storage (st : state) (sid : string)
    (userData data : jsval) (e : env) :
  active st sid userData ->
  (truthy data = true ->
     (truthy (field data "from") = true -> truthy (field data "to") = true ->
      let '(st', out) := Server.on_drawing st sid data e in
      broadcast_regardless st st' out sid "drawing"
        [stamped data e userData] e)
     /\ (truthy (field data "text") = true ->
         truthy (field data "id") = true ->
         let '(st', out) := Server.on_text st sid data e in
         broadcast_regardless st st' out sid "text"
           [stamped data e userData] e)
     /\ (truthy (field data "id") = true -> canEdit userData data = true ->
         let '(st', out) := Server.on_textUpdate st sid data e in
         broadcast_regardless st st' out sid "textUpdate"
           [stamped data e userData] e)
     /\ (truthy (field data "id") = true -> canMove userData data = true ->
         let '(st', out) := Server.on_textMove st sid data e in
         broadcast_regardless st st' out sid "textMove"
           [stamped data e userData] e)
     /\ (truthy (field data "id") = true -> canDelete userData data = true ->
         let '(st', out) := Server.on_textDelete st sid data e in
         broadcast_regardless st st' out sid "textDelete"
           [field data "id"] e))
  /\ (let '(st', out, _) := Legacy.on_drawing st sid data e in
      broadcast_regardless st st' out sid "drawing"
        [stamped data e userData] e)
  /\ (let '(st', out, _) := Legacy.on_text st sid data e in
      broadcast_regardless st st' out sid "text"
        [stamped data e userData] e)
  /\ (nullish data = false ->
       (canEdit userData data = true ->
        let '(st', out, _) := Legacy.on_textUpdate st sid data e in
        broadcast_regardless st st' out sid "textUpdate"
          [stamped data e userData] e)
       /\ (canMove userData data = true ->
           let '(st', out, _) := Legacy.on_textMove st sid data e in
           broadcast_regardless st st' out sid "textMove"
             [stamped data e userData] e)
       /\ (canDelete userData data = true ->
           let '(st', out, _) := Legacy.on_textDelete st sid data e in
           broadcast_regardless st st' out sid "textDelete"
             [field data "id"] e)).
Proof.
  intros Hact.
  destruct (active_socket _ _ _ Hact) as [s [Hs [Hin [Hid [Hud Htr]]]]].
  unfold Server.on_drawing, Server.on_text, Server.on_textUpdate,
    Server.on_textMove, Server.on_textDelete, Legacy.on_drawing,
    Legacy.on_text, Legacy.on_textUpdate, Legacy.on_textMove,
    Legacy.on_textDelete; rewrite Hs, Htr, Hud.
  assert (Hnil : forall ev a stmt,
             broadcast_regardless st
               (with_db (db_after (db_run (write_fault e) stmt (db st))
                                  (db st)) st)
               (broadcast_emit st sid ev a) sid ev a e).
  { intros ev a stmt; rewrite <- (app_nil_r (broadcast_emit _ _ _ _)).
    apply handler_broadcast_regardless; intros m []. }
  split; [|split; [|split]].
  - intros ->; simpl; repeat split.
    + intros -> ->; simpl; apply Hnil.
    + intros -> ->; simpl; apply Hnil.
    + intros -> ->; simpl; apply handler_broadcast_regardless;
        [apply error_tail_only_to | apply error_tail_event; discriminate].
    + intros -> ->; simpl; apply handler_broadcast_regardless;
        [apply error_tail_only_to | apply error_tail_event; discriminate].
    + intros -> ->; simpl; apply handler_broadcast_regardless;
        [apply error_tail_only_to | apply error_tail_event; discriminate].
  - simpl; apply Hnil.
  - simpl; apply Hnil.
  - intros ->; simpl; repeat split; intros ->; simpl; apply Hnil.
Qed.

Lemma broadcast_independent_of_storage_witness :
  broadcast_regardless board
    (fst (Server.on_drawing board "a" stroke disk_full))
    (snd (Server.on_drawing board "a" stroke disk_full))
    "a" "drawing" [stamped stroke disk_full Ann] disk_full
  /\ broadcast_regardless board
       (fst (fst (Legacy.on_textDelete board "a" (move_of "Ann") disk_full)))
       (snd (fst (Legacy.on_textDelete board "a" (move_of "Ann") disk_full)))
       "a" "textDelete" [JNum 1] disk_full.
Proof.
  pose proof (broadcast_independent_of_storage board "a" Ann stroke disk_full
                (ex_intro _ (Socket.mk "a" Ann)
                   (conj eq_refl (conj eq_refl eq_refl)))) as HA.
  pose proof (broadcast_independent_of_storage board "a" Ann (move_of "Ann")
                disk_full
                (ex_intro _ (Socket.mk "a" Ann)
                   (conj eq_refl (conj eq_refl eq_refl)))) as HB.
  split.
  - exact (proj1 (proj1 HA eq_refl) eq_refl eq_refl).
  - exact (proj2 (proj2 (proj2 (proj2 (proj2 HB)) eq_refl)) eq_refl).
Defined.

(** ** Joining *)

Lemma set_userData_ids (sid : string) (ud : jsval) (st : state) :
  map Socket.id (sockets (set_userData sid ud st)) = map Socket.id (sockets st).
Proof.
  unfold set_userData; simpl; rewrite map_map; apply map_ext; intros s.
  destruct (Socket.id s =? sid)%string; reflexivity.
Qed.

Lemma find_socket_set_userData (sid : string) (ud : jsval) (st : state)
    (s : Socket.t) :
  find_socket sid st = Some s ->
  find_socket sid (set_userData sid ud st) = Some (Socket.mk sid ud).
Proof.
  unfold find_socket, set_userData; simpl.
  induction (sockets st) as [|t l IH]; simpl; [discriminate|].
  destruct (Socket.id t =? sid)%string eqn:E; simpl.
  - intros _; apply String.eqb_eq in E; rewrite E, String.eqb_refl; reflexivity.
  - rewrite E; exact IH.
Qed.

(** C6, as the claim has it, fails on the earlier entry point, which does
    not look at the payload: the connection [d] joins with an empty
    username, is bound, gets a session row, and the others are told. *)
Lemma legacy_join_accepts_empty_username :
  truthy (field nameless "username") = false
  /\ find_socket "d"
       (fst (fst (Legacy.on_user_join board_with_guest "d" nameless noon)))
     = Some (Socket.mk "d" (legacy_binding "d" nameless))
  /\ truthy (legacy_binding "d" nameless) = true
  /\ user_sessions
       (db (fst (fst (Legacy.on_user_join board_with_guest "d" nameless noon))))
     = [Session.mk 1 (JStr "") (JStr "Ученик") "d" (now noon)]
  /\ receives (snd (fst (Legacy.on_user_join board_with_guest "d" nameless
                           noon)))
              "a" "user_joined"
  /\ receives (snd (fst (Legacy.on_user_join board_with_guest "d" nameless
                           noon)))
              "a" "online_users_update".
Proof.
  repeat split; try reflexivity;
    eexists; vm_compute; tauto.
Qed.

(** C6, amended.  On [server.js] a [user_join] whose payload is missing, or
    whose username is missing or empty, is dropped: no binding, nothing
    stored, nothing sent.  The earlier entry point does not validate.  With
    a missing payload its handler throws: the connection is left without a
    binding, nothing is stored and nothing is sent.  With any other payload
    the payload becomes the binding of the connection and [user_joined] is
    sent to every other connection, whatever the username; the session row
    is added, with the text the columns keep of the username and the role,
    when neither is null and the statement meets no fault. *)
Theorem join_without_username (st : state) (sid : string) (userData : jsval)
    (e : env) :
  (truthy userData = false \/ truthy (field userData "username") = false ->
   Server.on_user_join st sid userData e = (st, []))
  /\ (forall s, find_socket sid st = Some s ->
      (nullish userData = true ->
       let '(st', out, c) := Legacy.on_user_join st sid userData e in
       find_socket sid st' = Some (Socket.mk sid userData)
       /\ db st' = db st /\ out = [] /\ c = Legacy.TypeError)
      /\ (nullish userData = false ->
          let '(st', out, c) := Legacy.on_user_join st sid userData e in
          find_socket sid st' = Some (Socket.mk sid (legacy_binding sid userData))
          /\ map Socket.id (sockets st') = map Socket.id (sockets st)
          /\ to_everyone_else st' out sid "user_joined"
               [membership_notice userData " присоединился к доске" e]
          /\ (write_fault e = None ->
              nullish (field userData "username") = false ->
              nullish (field userData "role") = false ->
              exists rowid,
                user_sessions (db st')
                = user_sessions (db st)
                    ++ [Session.mk rowid
                          (sql_text (sqlite e) (field userData "username"))
                          (sql_text (sqlite e) (field userData "role"))
                          sid (now e)]))).
Proof.
  split.
  - intros H; unfold Server.on_user_join.
    destruct (find_socket sid st); [|reflexivity].
    destruct H as [-> | ->]; [reflexivity|].
    now rewrite orb_true_r.
  - intros s Hs; unfold Legacy.on_user_join; rewrite Hs; split; intros ->.
    + repeat split; eauto using find_socket_set_userData.
    + fold (legacy_binding sid userData).
      set (st1 := set_userData sid (legacy_binding sid userData) st).
      set (r := db_run _ _ _); simpl.
      split; [|split; [|split]].
      * apply (find_socket_set_userData sid _ st s Hs).
      * apply set_userData_ids.
      * destruct (broadcast_emit_to_everyone_else
                    (with_db (db_after r (db st1)) st1) sid "user_joined"
                    [membership_notice userData " присоединился к доске" e])
          as [H1 H2]; split.
        -- intros t Ht Hne; apply in_or_app; left; auto.
        -- intros [a H]; apply in_app_or in H as [H|H].
           ++ apply H2; exists a; exact H.
           ++ unfold updateOnlineUsers in H.
              destruct (read_fault e); [destruct H|].
              apply In_io_emit in H as [t [_ H]]; discriminate.
      * intros Hf Hu Hr; subst r; rewrite Hf; simpl.
        unfold insert_session; rewrite Hu, Hr; simpl; eauto.
Qed.

Lemma join_without_username_witness :
  Server.on_user_join board_with_guest "d" nameless noon
  = (board_with_guest, [])
  /\ find_socket "d"
       (fst (fst (Legacy.on_user_join board_with_guest "d" JUndefined noon)))
     = Some (Socket.mk "d" JUndefined)
  /\ find_socket "d"
       (fst (fst (Legacy.on_user_join board_with_guest "d" nameless noon)))
     = Some (Socket.mk "d" (legacy_binding "d" nameless)).
Proof.
  pose proof (join_without_username board_with_guest "d" nameless noon)
    as [HA HC].
  pose proof (join_without_username board_with_guest "d" JUndefined noon)
    as [_ HB].
  split; [|split].
  - exact (HA (or_intror eq_refl)).
  - exact (proj1 (proj1 (HB (Socket.mk "d" JUndefined) eq_refl) eq_refl)).
  - exact (proj1 (proj2 (HC (Socket.mk "d" JUndefined) eq_refl) eq_refl)).
Defined.

(** ** The HTTP route that deletes an item *)

Lemma no_change_iff_absent (g : engine) (id : jsval) (d : database) :
  List.length (filter (fun r => matches g id (Drawing.id r)) (drawings d))
  = 0%nat
  <-> absent g id d.
Proof.
  unfold absent; induction (drawings d) as [|r l IH]; simpl.
  - split; [intros _ r [] | reflexivity].
  - destruct (matches g id (Drawing.id r)) eqn:E; simpl; split.
    + discriminate.
    + intros H; specialize (H r (or_introl eq_refl)); congruence.
    + intros H r' [<-|Hr']; [exact E | now apply IH].
    + intros H; apply IH; intros r' Hr'; apply H; now right.
Qed.

Lemma delete_drawing_absent (g : engine) (id : jsval) (d : database) :
  absent g id d -> db_after (delete_drawing g id d) d = d.
Proof.
  intros Habs; destruct d as [rows seq us useq]; simpl; f_equal.
  unfold absent in Habs; simpl in Habs.
  induction rows as [|r l IH]; simpl; [reflexivity|].
  rewrite (Habs r (or_introl eq_refl)); simpl; f_equal.
  apply IH; intros r' Hr'; apply Habs; now right.
Qed.

(** C7, as the claim has it, fails on the earlier entry point: an
    administrator who deletes the id 7, which is not stored, is answered
    200 and not 404; and the stored id 1 is deleted without any
    broadcast. *)
Lemma legacy_http_delete_no_404_no_broadcast :
  absent (sqlite noon) (JStr "7") (db board)
  /\ status (snd (Legacy.api_drawing_delete board "7" admin_body noon)) = 200
  /\ ~ absent (sqlite noon) (JStr "1") (db board)
  /\ drawings (db (fst (Legacy.step board (Legacy.HttpDelete "1" admin_body)
                                    noon))) = []
  /\ snd (Legacy.step board (Legacy.HttpDelete "1" admin_body) noon) = [].
Proof.
  split; [intros r [<-|[]]; reflexivity|].
  split; [reflexivity|].
  split; [|split; reflexivity].
  intros H; specialize (H note (or_introl eq_refl)); discriminate.
Qed.

(** C7, amended.  On both entry points a request whose role is not
    Administrator and whose [userId] is not its declared [owner] is answered
    403 and deletes nothing.  Otherwise, when the statement meets no fault:
    [server.js] answers 404 when no item has the id, and else deletes the
    item, answers [{success:true}] and sends [textDelete] with the id to
    every connection; the earlier entry point deletes the item when there is
    one, answers [{success:true}] either way and sends nothing.  The item of
    the id is the row whose rowid the engine reads from the text of the
    path.  Under a storage fault both answer 500 and delete nothing. *)
Theorem http_delete_item (st : state) (id : string) (body : jsval) (e : env) :
  id <> "" ->
  (strict_eq (field body "role") (JStr Administrator) = false ->
   strict_eq (field body "userId") (field body "owner") = false ->
   (let '(st', resp, out) := Server.api_drawing_delete st id body e in
    st' = st /\ status resp = 403 /\ out = [])
   /\ (let '(st', resp) := Legacy.api_drawing_delete st id body e in
       st' = st /\ status resp = 403))
  /\ (strict_eq (field body "role") (JStr Administrator) = true
      \/ strict_eq (field body "userId") (field body "owner") = true ->
      (write_fault e = None ->
       (let '(st', resp, out) := Server.api_drawing_delete st id body e in
        sockets st' = sockets st
        /\ (absent (sqlite e) (JStr id) (db st) ->
            db st' = db st /\ status resp = 404 /\ out = [])
        /\ (~ absent (sqlite e) (JStr id) (db st) ->
            removed (sqlite e) (JStr id) (db st) (db st')
            /\ resp = mkresponse 200 success_true
            /\ to_everyone st out "textDelete" [JStr id]))
       /\ (let '(st', resp) := Legacy.api_drawing_delete st id body e in
           sockets st' = sockets st
           /\ removed (sqlite e) (JStr id) (db st) (db st')
           /\ resp = mkresponse 200 success_true))
      /\ (write_fault e <> None ->
          (let '(st', resp, out) := Server.api_drawing_delete st id body e in
           st' = st /\ status resp = 500 /\ out = [])
          /\ (let '(st', resp) := Legacy.api_drawing_delete st id body e in
              st' = st /\ status resp = 500))).
Proof.
  intros Hid.
  assert (Hid' : negb (truthy (JStr id)) = false).
  { simpl; apply String.eqb_neq in Hid; now rewrite Hid. }
  unfold Server.api_drawing_delete, Legacy.api_drawing_delete; rewrite Hid'.
  split.
  - intros -> ->; simpl; auto.
  - intros Hok.
    assert (Hpass : negb (strict_eq (field body "role") (JStr Administrator))
                    && negb (strict_eq (field body "userId")
                                       (field body "owner")) = false).
    { destruct Hok as [-> | ->]; simpl; auto using andb_false_r. }
    rewrite Hpass; split.
    + intros ->; simpl; split.
      * destruct (Nat.eqb_spec
                    (List.length (filter (fun r => matches (sqlite e) (JStr id)
                                                     (Drawing.id r))
                                         (drawings (db st)))) 0) as [E|E].
        -- apply no_change_iff_absent in E; split; [reflexivity|split].
           ++ intros _; split; [|auto].
              apply (delete_drawing_absent _ _ _ E).
           ++ intros H; contradiction.
        -- split; [reflexivity|split].
           ++ intros H; apply no_change_iff_absent in H; contradiction.
           ++ intros _; split; [|split; [reflexivity|]].
              ** eapply delete_drawing_removed; reflexivity.
              ** apply (io_emit_to_everyone (with_db _ st)).
      * split; [reflexivity|split; [|reflexivity]].
        eapply delete_drawing_removed; reflexivity.
    + intros Hf; destruct (write_fault e); [simpl; auto | congruence].
Qed.

Lemma http_delete_item_witness :
  status (snd (fst (Server.api_drawing_delete board "1" (body_of_Bob "Ann")
                      noon))) = 403
  /\ status (snd (fst (Server.api_drawing_delete board "7" admin_body noon)))
     = 404
  /\ to_everyone board
       (snd (Server.api_drawing_delete board "1" (body_of_Bob "Bob") noon))
       "textDelete" [JStr "1"].
Proof.
  assert (H1 : "1" <> "") by discriminate.
  assert (H7 : "7" <> "") by discriminate.
  pose proof (http_delete_item board "1" (body_of_Bob "Ann") noon H1)
    as [HA _].
  pose proof (http_delete_item board "7" admin_body noon H7) as [_ HB].
  pose proof (http_delete_item board "1" (body_of_Bob "Bob") noon H1)
    as [_ HC].
  split; [|split].
  - exact (proj1 (proj2 (proj1 (HA eq_refl eq_refl)))).
  - refine (proj1 (proj2 (proj1 (proj2 (proj1 (proj1 (HB (or_introl eq_refl))
                                                       eq_refl))) _))).
    intros r [<-|[]]; reflexivity.
  - refine (proj2 (proj2 (proj2 (proj2 (proj1 (proj1 (HC (or_intror eq_refl))
                                                       eq_refl))) _))).
    intros H; specialize (H note (or_introl eq_refl)); discriminate.
Defined.

(** ** Invariants of the tables *)

Lemma db_after_preserves (P : database -> Prop) (stmt : database -> run_result)
    (f : option string) (d : database) :
  preserves P stmt -> P d -> P (db_after (db_run f stmt d) d).
Proof.
  intros Hp Hd; unfold db_run; destruct f; simpl; [exact Hd|].
  destruct (stmt d) eqn:E; simpl; [eapply Hp; eauto | exact Hd].
Qed.

Lemma db_run_preserves (P : database -> Prop) (stmt : database -> run_result)
    (f : option string) (d d' : database) (n : nat) :
  preserves P stmt -> P d -> db_run f stmt d = RunOk d' n -> P d'.
Proof.
  intros Hp Hd; unfold db_run; destruct f; [discriminate|].
  intros E; eapply Hp; eauto.
Qed.

Create HintDb tables.

(** *** One session row per connection *)

Lemma kept_sessions_one_binding (keep : Session.t -> bool)
    (rows : list Session.t) :
  NoDup (map Session.socket_id rows) ->
  NoDup (map Session.socket_id (filter keep rows)).
Proof.
  induction rows as [|r rows IH]; simpl; intros Hrows; [exact Hrows|].
  apply NoDup_cons_iff in Hrows as [Hfresh Hrows].
  destruct (keep r); simpl; [|now apply IH].
  apply NoDup_cons_iff; split; [|now apply IH].
  contradict Hfresh.
  apply in_map_iff in Hfresh as [r' [Hsame Hkept]].
  apply filter_In in Hkept as [Hin _].
  rewrite <- Hsame; now apply in_map.
Qed.

Lemma insert_or_replace_session_one_binding (g : engine) (t : Z)
    (u r : jsval) (sid : string) :
  preserves one_binding_per_connection
            (insert_or_replace_session g t u r sid).
Proof.
  intros d d' n Hd; unfold insert_or_replace_session.
  destruct (nullish u); [discriminate|].
  destruct (nullish r); [discriminate|].
  intros H; injection H as <- _.
  unfold one_binding_per_connection in *; simpl.
  rewrite map_app; simpl.
  apply NoDup_app.
  - now apply kept_sessions_one_binding.
  - constructor; [intros []|constructor].
  - intros x Hx [<-|[]].
    apply in_map_iff in Hx as [y [Hy Hx]]; apply filter_In in Hx as [_ Hx].
    apply negb_true_iff, String.eqb_neq in Hx; congruence.
Qed.

Lemma delete_session_one_binding (sid : string) :
  preserves one_binding_per_connection (delete_session sid).
Proof.
  intros d d' n Hd H; injection H as <- _.
  unfold one_binding_per_connection in *; simpl.
  now apply kept_sessions_one_binding.
Qed.

Lemma delete_old_sessions_one_binding (cutoff : Z) :
  preserves one_binding_per_connection (delete_old_sessions cutoff).
Proof.
  intros d d' n Hd H; injection H as <- _.
  unfold one_binding_per_connection in *; simpl.
  now apply kept_sessions_one_binding.
Qed.

Lemma insert_drawing_one_binding (g : engine) (t : Z) (ty : jsval)
    (data : option json_text) (u : jsval) :
  preserves one_binding_per_connection (insert_drawing g t ty data u).
Proof.
  intros d d' n Hd; unfold insert_drawing.
  destruct (nullish ty); [discriminate|].
  destruct data; [|discriminate].
  intros H; injection H as <- _; exact Hd.
Qed.

Lemma update_drawing_one_binding (g : engine) (data : option json_text)
    (id : jsval) :
  preserves one_binding_per_connection (update_drawing g data id).
Proof.
  intros d d' n Hd; unfold update_drawing.
  destruct data.
  - intros H; injection H as <- _; exact Hd.
  - destruct (existsb _ _); [discriminate|].
    intros H; injection H as <- _; exact Hd.
Qed.

Lemma delete_drawing_one_binding (g : engine) (id : jsval) :
  preserves one_binding_per_connection (delete_drawing g id).
Proof. intros d d' n Hd H; injection H as <- _; exact Hd. Qed.

Lemma delete_all_drawings_one_binding :
  preserves one_binding_per_connection delete_all_drawings.
Proof. intros d d' n Hd H; injection H as <- _; exact Hd. Qed.

#[local] Hint Resolve insert_or_replace_session_one_binding
  delete_session_one_binding delete_old_sessions_one_binding
  insert_drawing_one_binding update_drawing_one_binding
  delete_drawing_one_binding delete_all_drawings_one_binding : tables.

(** Case analysis on the tests of a handler. *)
Ltac handler_cases :=
  repeat match goal with
         | |- context [match ?x with _ => _ end] => destruct x eqn:?
         end.

Ltac keeps_table_invariant :=
  simpl; try assumption;
  try (apply db_after_preserves; [auto with tables | assumption]);
  try (eapply db_run_preserves; [| | eassumption];
       [auto with tables | assumption]).

Lemma server_step_one_binding (st : state) (i : Server.input) (e : env) :
  one_binding_per_connection (db st) ->
  one_binding_per_connection (db (fst (Server.step st i e))).
Proof.
  intros Hinv; destruct i; simpl;
    unfold Server.on_connection, Server.on_user_join, Server.on_drawing,
      Server.on_text, Server.on_textUpdate, Server.on_textMove,
      Server.on_textDelete, Server.on_clear, Server.on_ping,
      Server.on_disconnect, Server.sweep, Server.api_save, Server.api_clear,
      Server.api_drawing_delete;
    handler_cases; keeps_table_invariant.
Qed.

Lemma server_reachable_one_binding (st : state) :
  Server.reachable st -> one_binding_per_connection (db st).
Proof.
  induction 1 as [|st i e _ IH]; [constructor|].
  now apply server_step_one_binding.
Qed.

(** *** [ORDER BY] lists the rows of the table *)

Lemma insert_by_Permutation {A : Type} (before : A -> A -> bool) (x : A)
    (l : list A) :
  Permutation (insert_by before x l) (x :: l).
Proof.
  induction l as [|y l IH]; simpl; [reflexivity|].
  destruct (before x y); [reflexivity|].
  rewrite IH; apply perm_swap.
Qed.

Lemma order_by_Permutation {A : Type} (before : A -> A -> bool) (l : list A) :
  Permutation (order_by before l) l.
Proof.
  induction l as [|x l IH]; simpl; [reflexivity|].
  rewrite insert_by_Permutation; now constructor.
Qed.

Lemma select_sessions_one_binding (g : engine) (d : database) :
  one_binding_per_connection d ->
  NoDup (map Session.socket_id (select_sessions g d)).
Proof.
  unfold one_binding_per_connection, select_sessions; intros H.
  eapply Permutation_NoDup; [|exact H].
  apply Permutation_map, Permutation_sym, order_by_Permutation.
Qed.

(** C5, as the claim has it, fails on the earlier entry point, whose
    [user_sessions] has no [UNIQUE] key and whose join is a plain [INSERT]:
    after a second [user_join] on the connection [a] the table, and the
    list of participants read from it, hold two rows for [a]. *)
Lemma legacy_join_twice_two_bindings :
  Legacy.reachable legacy_joined_twice
  /\ map Session.socket_id
         (select_sessions (sqlite noon) (db legacy_joined_twice))
     = ["a"; "a"]
  /\ ~ one_binding_per_connection (db legacy_joined_twice).
Proof.
  split; [repeat constructor|].
  split; [reflexivity|].
  intros H; vm_compute in H; inversion H as [|? ? Hin _]; subst.
  apply Hin; now left.
Qed.

(** C5, amended.  On [server.js], whose [socket_id] column is [UNIQUE] and
    whose join is [INSERT OR REPLACE], every reachable state holds at most
    one session row per connection, and so does the list of participants
    read from the table, on whatever engine; a join that is stored replaces
    the rows of its connection by the one new row, which keeps the text of
    the username and of the role.  On the earlier entry point a join that
    is stored adds its row and keeps the rows the connection already
    had. *)
Theorem one_session_row_per_connection (st : state) :
  (Server.reachable st ->
   one_binding_per_connection (db st)
   /\ forall g, NoDup (map Session.socket_id (select_sessions g (db st))))
  /\ (forall sid s userData e,
      find_socket sid st = Some s ->
      truthy userData = true ->
      truthy (field userData "username") = true ->
      nullish (field userData "role") = false ->
      write_fault e = None ->
      (exists rowid,
         user_sessions (db (fst (Server.on_user_join st sid userData e)))
         = filter (fun r => negb (Session.socket_id r =? sid)%string)
                  (user_sessions (db st))
             ++ [Session.mk rowid
                   (sql_text (sqlite e) (field userData "username"))
                   (sql_text (sqlite e) (field userData "role"))
                   sid (now e)])
      /\ (exists rowid,
            user_sessions
              (db (fst (fst (Legacy.on_user_join st sid userData e))))
            = user_sessions (db st)
                ++ [Session.mk rowid
                      (sql_text (sqlite e) (field userData "username"))
                      (sql_text (sqlite e) (field userData "role"))
                      sid (now e)])).
Proof.
  split.
  - intros Hr; apply server_reachable_one_binding in Hr.
    split; [exact Hr | intros g; now apply select_sessions_one_binding].
  - intros sid s userData e Hs Hud Hname Hrole Hf.
    assert (Hnn : nullish userData = false)
      by (destruct userData; simpl in *; congruence).
    assert (Hnu : nullish (field userData "username") = false)
      by (destruct (field userData "username"); simpl in *; congruence).
    unfold Server.on_user_join, Legacy.on_user_join.
    rewrite Hs, Hud, Hname, Hnn, Hf; simpl.
    unfold insert_or_replace_session, insert_session.
    rewrite Hnu, Hrole; simpl; eauto.
Qed.

Lemma one_session_row_per_connection_witness :
  one_binding_per_connection (db server_joined_twice)
  /\ NoDup (map Session.socket_id
                (select_sessions plain (db server_joined_twice))).
Proof.
  destruct (proj1 (one_session_row_per_connection server_joined_twice))
    as [H1 H2].
  - unfold server_joined_twice; repeat constructor.
  - split; [exact H1 | exact (H2 plain)].
Defined.

(** *** The scan meets the rows in ascending rowid *)

Lemma StronglySorted_filter {A : Type} (R : A -> A -> Prop) (p : A -> bool)
    (l : list A) :
  StronglySorted R l -> StronglySorted R (filter p l).
Proof.
  induction 1 as [|x l Hl IH Hx]; simpl; [constructor|].
  destruct (p x); [|exact IH].
  constructor; [exact IH|].
  apply Forall_forall; intros y Hy; apply filter_In in Hy as [Hy _].
  rewrite Forall_forall in Hx; auto.
Qed.

Lemma StronglySorted_app_last {A : Type} (R : A -> A -> Prop) (l : list A)
    (y : A) :
  StronglySorted R l -> Forall (fun x => R x y) l ->
  StronglySorted R (l ++ [y]).
Proof.
  induction 1 as [|x l Hl IH Hx]; simpl; intros Hy.
  - repeat constructor.
  - inversion Hy; subst; constructor; [auto|].
    apply Forall_app; split; auto.
Qed.

Lemma StronglySorted_app_inv {A : Type} (R : A -> A -> Prop) (l1 l2 : list A) :
  StronglySorted R (l1 ++ l2) -> StronglySorted R l1 /\ StronglySorted R l2.
Proof.
  induction l1 as [|x l1 IH]; simpl; intros H; [split; [constructor|exact H]|].
  inversion H as [|? ? Hl Hx]; subst.
  destruct (IH Hl) as [H1 H2]; split; [|exact H2].
  constructor; [exact H1|].
  apply Forall_app in Hx; tauto.
Qed.

Lemma max_rowid_bound (ids : list Z) (x : Z) : In x ids -> x <= max_rowid ids.
Proof.
  unfold max_rowid; induction ids as [|y l IH]; simpl; [intros []|].
  intros [->|H]; [lia|]. specialize (IH H); lia.
Qed.

Lemma insert_drawing_rowid_order (g : engine) (t : Z) (ty : jsval)
    (data : option json_text) (u : jsval) :
  preserves rowid_order (insert_drawing g t ty data u).
Proof.
  intros d d' n Hd; unfold insert_drawing.
  destruct (nullish ty); [discriminate|].
  destruct data; [|discriminate].
  intros H; injection H as <- _; unfold rowid_order in *; simpl.
  apply StronglySorted_app_last; [exact Hd|].
  apply Forall_forall; intros r Hr; unfold rowid_lt, next_rowid; simpl.
  pose proof (max_rowid_bound (map Drawing.id (drawings d)) (Drawing.id r)
                (in_map _ _ _ Hr)).
  lia.
Qed.

Lemma set_data_id (g : engine) (text : json_text) (id : jsval)
    (r : Drawing.t) :
  Drawing.id (set_data g text id r) = Drawing.id r.
Proof. unfold set_data; now destruct (matches g id (Drawing.id r)). Qed.

Lemma update_drawing_rowid_order (g : engine) (data : option json_text)
    (id : jsval) :
  preserves rowid_order (update_drawing g data id).
Proof.
  intros d d' n Hd; unfold update_drawing.
  destruct data.
  - intros H; injection H as <- _; unfold rowid_order in *; simpl.
    induction Hd as [|x l Hl IH Hx]; simpl; constructor; [exact IH|].
    apply Forall_forall; intros y Hy; apply in_map_iff in Hy as [z [<- Hz]].
    rewrite Forall_forall in Hx; unfold rowid_lt; rewrite !set_data_id.
    now apply Hx.
  - destruct (existsb _ _); [discriminate|].
    intros H; injection H as <- _; exact Hd.
Qed.

Lemma delete_drawing_rowid_order (g : engine) (id : jsval) :
  preserves rowid_order (delete_drawing g id).
Proof.
  intros d d' n Hd H; injection H as <- _; unfold rowid_order in *; simpl.
  now apply StronglySorted_filter.
Qed.

Lemma delete_all_drawings_rowid_order :
  preserves rowid_order delete_all_drawings.
Proof. intros d d' n Hd H; injection H as <- _; constructor. Qed.

Lemma insert_session_rowid_order (g : engine) (t : Z) (u r : jsval)
    (sid : string) :
  preserves rowid_order (insert_session g t u r sid).
Proof.
  intros d d' n Hd; unfold insert_session.
  destruct (nullish u); [discriminate|].
  destruct (nullish r); [discriminate|].
  intros H; injection H as <- _; exact Hd.
Qed.

Lemma insert_or_replace_session_rowid_order (g : engine) (t : Z)
    (u r : jsval) (sid : string) :
  preserves rowid_order (insert_or_replace_session g t u r sid).
Proof.
  intros d d' n Hd; unfold insert_or_replace_session.
  destruct (nullish u); [discriminate|].
  destruct (nullish r); [discriminate|].
  intros H; injection H as <- _; exact Hd.
Qed.

Lemma delete_session_rowid_order (sid : string) :
  preserves rowid_order (delete_session sid).
Proof. intros d d' n Hd H; injection H as <- _; exact Hd. Qed.

Lemma delete_old_sessions_rowid_order (cutoff : Z) :
  preserves rowid_order (delete_old_sessions cutoff).
Proof. intros d d' n Hd H; injection H as <- _; exact Hd. Qed.

#[local] Hint Resolve insert_drawing_rowid_order update_drawing_rowid_order
  delete_drawing_rowid_order delete_all_drawings_rowid_order
  insert_session_rowid_order insert_or_replace_session_rowid_order
  delete_session_rowid_order delete_old_sessions_rowid_order : tables.

Lemma server_step_rowid_order (st : state) (i : Server.input) (e : env) :
  rowid_order (db st) -> rowid_order (db (fst (Server.step st i e))).
Proof.
  intros Hinv; destruct i; simpl;
    unfold Server.on_connection, Server.on_user_join, Server.on_drawing,
      Server.on_text, Server.on_textUpdate, Server.on_textMove,
      Server.on_textDelete, Server.on_clear, Server.on_ping,
      Server.on_disconnect, Server.sweep, Server.api_save, Server.api_clear,
      Server.api_drawing_delete;
    handler_cases; keeps_table_invariant.
Qed.

Lemma legacy_step_rowid_order (st : state) (i : Legacy.input) (e : env) :
  rowid_order (db st) -> rowid_order (db (fst (Legacy.step st i e))).
Proof.
  intros Hinv; destruct i; simpl;
    unfold Legacy.on_connection, Legacy.on_user_join, Legacy.on_drawing,
      Legacy.on_text, Legacy.on_textUpdate, Legacy.on_textMove,
      Legacy.on_textDelete, Legacy.on_clear, Legacy.on_disconnect,
      Legacy.sweep, Legacy.api_save, Legacy.api_clear,
      Legacy.api_drawing_delete;
    handler_cases; keeps_table_invariant.
Qed.

Lemma server_reachable_rowid_order (st : state) :
  Server.reachable st -> rowid_order (db st).
Proof.
  induction 1 as [|st i e _ IH]; [constructor|].
  now apply server_step_rowid_order.
Qed.

Lemma legacy_reachable_rowid_order (st : state) :
  Legacy.reachable st -> rowid_order (db st).
Proof.
  induction 1 as [|st i e _ IH]; [constructor|].
  now apply legacy_step_rowid_order.
Qed.

(** *** The [TEXT] columns hold texts *)

Lemma sql_text_text_or_null (g : engine) (v : jsval) :
  text_or_null (sql_text g v) = true.
Proof. now destruct v. Qed.

Lemma sql_text_is_text (g : engine) (v : jsval) :
  nullish v = false -> is_text (sql_text g v) = true.
Proof. destruct v; simpl; auto. Qed.

Lemma insert_drawing_columns (g : engine) (t : Z) (ty : jsval)
    (data : option json_text) (u : jsval) :
  preserves columns_are_text (insert_drawing g t ty data u).
Proof.
  intros d d' n [Hd Hs]; unfold insert_drawing.
  destruct (nullish ty) eqn:Ety; [discriminate|].
  destruct data; [|discriminate].
  intros H; injection H as <- _; split; simpl; [|exact Hs].
  apply Forall_app; split; [exact Hd|].
  repeat constructor; simpl;
    [now apply sql_text_is_text | apply sql_text_text_or_null].
Qed.

Lemma update_drawing_columns (g : engine) (data : option json_text)
    (id : jsval) :
  preserves columns_are_text (update_drawing g data id).
Proof.
  intros d d' n [Hd Hs]; unfold update_drawing.
  destruct data.
  - intros H; injection H as <- _; split; simpl; [|exact Hs].
    rewrite Forall_forall in *; intros r Hr.
    apply in_map_iff in Hr as [r0 [<- Hr0]]; specialize (Hd r0 Hr0).
    unfold set_data; destruct (matches g id (Drawing.id r0)); exact Hd.
  - destruct (existsb _ _); [discriminate|].
    intros H; injection H as <- _; split; assumption.
Qed.

Lemma delete_drawing_columns (g : engine) (id : jsval) :
  preserves columns_are_text (delete_drawing g id).
Proof.
  intros d d' n [Hd Hs] H; injection H as <- _; split; simpl; [|exact Hs].
  rewrite Forall_forall in *; intros r Hr; apply filter_In in Hr as [Hr _].
  auto.
Qed.

Lemma delete_all_drawings_columns :
  preserves columns_are_text delete_all_drawings.
Proof.
  intros d d' n [Hd Hs] H; injection H as <- _; split; [constructor|exact Hs].
Qed.

Lemma insert_session_columns (g : engine) (t : Z) (u r : jsval)
    (sid : string) :
  preserves columns_are_text (insert_session g t u r sid).
Proof.
  intros d d' n [Hd Hs]; unfold insert_session.
  destruct (nullish u) eqn:Eu; [discriminate|].
  destruct (nullish r) eqn:Er; [discriminate|].
  intros H; injection H as <- _; split; simpl; [exact Hd|].
  apply Forall_app; split; [exact Hs|].
  repeat constructor; simpl; now apply sql_text_is_text.
Qed.

Lemma insert_or_replace_session_columns (g : engine) (t : Z) (u r : jsval)
    (sid : string) :
  preserves columns_are_text (insert_or_replace_session g t u r sid).
Proof.
  intros d d' n [Hd Hs]; unfold insert_or_replace_session.
  destruct (nullish u) eqn:Eu; [discriminate|].
  destruct (nullish r) eqn:Er; [discriminate|].
  intros H; injection H as <- _; split; simpl; [exact Hd|].
  apply Forall_app; split.
  - rewrite Forall_forall in *; intros x Hx.
    apply filter_In in Hx as [Hx _]; auto.
  - repeat constructor; simpl; now apply sql_text_is_text.
Qed.

Lemma delete_session_columns (sid : string) :
  preserves columns_are_text (delete_session sid).
Proof.
  intros d d' n [Hd Hs] H; injection H as <- _; split; simpl; [exact Hd|].
  rewrite Forall_forall in *; intros x Hx; apply filter_In in Hx as [Hx _].
  auto.
Qed.

Lemma delete_old_sessions_columns (cutoff : Z) :
  preserves columns_are_text (delete_old_sessions cutoff).
Proof.
  intros d d' n [Hd Hs] H; injection H as <- _; split; simpl; [exact Hd|].
  rewrite Forall_forall in *; intros x Hx; apply filter_In in Hx as [Hx _].
  auto.
Qed.

#[local] Hint Resolve insert_drawing_columns update_drawing_columns
  delete_drawing_columns delete_all_drawings_columns insert_session_columns
  insert_or_replace_session_columns delete_session_columns
  delete_old_sessions_columns : tables.

Lemma server_reachable_columns (st : state) :
  Server.reachable st -> columns_are_text (db st).
Proof.
  induction 1 as [|st i e _ IH]; [split; constructor|].
  destruct i; simpl;
    unfold Server.on_connection, Server.on_user_join, Server.on_drawing,
      Server.on_text, Server.on_textUpdate, Server.on_textMove,
      Server.on_textDelete, Server.on_clear, Server.on_ping,
      Server.on_disconnect, Server.sweep, Server.api_save, Server.api_clear,
      Server.api_drawing_delete;
    handler_cases; keeps_table_invariant.
Qed.

Lemma legacy_reachable_columns (st : state) :
  Legacy.reachable st -> columns_are_text (db st).
Proof.
  induction 1 as [|st i e _ IH]; [split; constructor|].
  destruct i; simpl;
    unfold Legacy.on_connection, Legacy.on_user_join, Legacy.on_drawing,
      Legacy.on_text, Legacy.on_textUpdate, Legacy.on_textMove,
      Legacy.on_textDelete, Legacy.on_clear, Legacy.on_disconnect,
      Legacy.sweep, Legacy.api_save, Legacy.api_clear,
      Legacy.api_drawing_delete;
    handler_cases; keeps_table_invariant.
Qed.

Lemma limit_offset_Forall {A : Type} (P : A -> Prop) (limit offset : Z)
    (l : list A) :
  Forall P l -> Forall P (limit_offset limit offset l).
Proof.
  intros H; unfold limit_offset.
  assert (Hs : Forall P (skipn (Z.to_nat offset) l)).
  { rewrite <- (firstn_skipn (Z.to_nat offset) l) in H.
    now apply Forall_app in H. }
  destruct (limit <? 0); [exact Hs|].
  rewrite <- (firstn_skipn (Z.to_nat limit) (skipn (Z.to_nat offset) l)) in Hs.
  now apply Forall_app in Hs.
Qed.

Lemma listing_shows_texts (g : engine) (d : database) :
  columns_are_text d ->
  Forall shows_texts (map drawing_json (select_drawings g d)).
Proof.
  intros [Hd _]; apply Forall_map; unfold select_drawings.
  eapply Permutation_Forall;
    [apply Permutation_sym, order_by_Permutation | exact Hd].
Qed.

(** ** Listing the board *)

Lemma StronglySorted_weaken {A : Type} (R S : A -> A -> Prop) (l : list A) :
  (forall x y, R x y -> S x y) -> StronglySorted R l -> StronglySorted S l.
Proof.
  intros HRS; induction 1 as [|x l Hl IH Hx]; constructor; [exact IH|].
  rewrite Forall_forall in *; auto.
Qed.

Lemma key_then_rank_true (g : engine) (kx rx ky ry : Z) :
  key_then_rank g kx rx ky ry = true
  <-> kx < ky \/ (kx = ky /\ tie_rank g rx <= tie_rank g ry).
Proof.
  unfold key_then_rank.
  rewrite orb_true_iff, andb_true_iff, Z.ltb_lt, Z.eqb_eq, Z.leb_le.
  reflexivity.
Qed.

Lemma key_then_rank_false (g : engine) (kx rx ky ry : Z) :
  key_then_rank g kx rx ky ry = false
  <-> ky < kx \/ (kx = ky /\ tie_rank g ry < tie_rank g rx).
Proof.
  unfold key_then_rank.
  rewrite orb_false_iff, andb_false_iff, Z.ltb_ge, Z.eqb_neq, Z.leb_gt.
  lia.
Qed.

(** Inserting into a list in the order of the listing keeps it so. *)
Lemma insert_by_created_then_rank (g : engine) (x : Drawing.t)
    (l : list Drawing.t) :
  StronglySorted (created_then_rank g) l ->
  StronglySorted (created_then_rank g)
    (insert_by (fun a b => key_then_rank g (Drawing.created_at a)
                             (Drawing.id a) (Drawing.created_at b)
                             (Drawing.id b)) x l).
Proof.
  induction 1 as [|y l Hl IH Hy]; simpl; [repeat constructor|].
  destruct (key_then_rank g _ _ _ _) eqn:E.
  - apply key_then_rank_true in E.
    constructor; [now constructor|].
    constructor; [exact E|].
    rewrite Forall_forall in *; intros z Hz; specialize (Hy z Hz).
    unfold created_then_rank in *; lia.
  - apply key_then_rank_false in E.
    constructor; [exact IH|].
    eapply Permutation_Forall;
      [apply Permutation_sym, insert_by_Permutation|].
    constructor; [unfold created_then_rank; lia | exact Hy].
Qed.

Lemma select_drawings_sorted (g : engine) (d : database) :
  StronglySorted (created_then_rank g) (select_drawings g d).
Proof.
  unfold select_drawings.
  induction (drawings d) as [|x l IH]; simpl; [constructor|].
  now apply insert_by_created_then_rank.
Qed.

(** On an engine that returns the rows of equal key in rowid order, a row
    that the scan meets before all of [l] is listed before the rows of [l]
    of its [created_at]. *)
Lemma insert_by_created_then_id (g : engine) (x : Drawing.t)
    (l : list Drawing.t) :
  ties_in_rowid_order g ->
  StronglySorted created_then_id l ->
  Forall (rowid_lt x) l ->
  StronglySorted created_then_id
    (insert_by (fun a b => key_then_rank g (Drawing.created_at a)
                             (Drawing.id a) (Drawing.created_at b)
                             (Drawing.id b)) x l).
Proof.
  intros Hties; induction 1 as [|y l Hl IH Hy]; simpl; intros Hx.
  - repeat constructor.
  - inversion Hx as [|? ? Hxy Hxl]; subst.
    pose proof (Hties _ _ Hxy) as Hrank.
    destruct (key_then_rank g _ _ _ _) eqn:E.
    + apply key_then_rank_true in E.
      constructor; [now constructor|].
      constructor; [unfold created_then_id, rowid_lt in *; lia|].
      rewrite Forall_forall in *; intros z Hz.
      specialize (Hy z Hz); specialize (Hxl z Hz).
      unfold created_then_id, rowid_lt in *; lia.
    + apply key_then_rank_false in E.
      constructor; [now apply IH|].
      eapply Permutation_Forall;
        [apply Permutation_sym, insert_by_Permutation|].
      constructor; [unfold created_then_id; lia | exact Hy].
Qed.

Lemma select_drawings_created_then_id (g : engine) (d : database) :
  ties_in_rowid_order g -> rowid_order d ->
  StronglySorted created_then_id (select_drawings g d).
Proof.
  unfold rowid_order, select_drawings; intros Hties.
  induction 1 as [|x l Hl IH Hx]; simpl; [constructor|].
  apply insert_by_created_then_id; [exact Hties | exact IH |].
  eapply Permutation_Forall;
    [apply Permutation_sym, order_by_Permutation | exact Hx].
Qed.

Lemma limit_offset_sorted {A : Type} (R : A -> A -> Prop) (limit offset : Z)
    (l : list A) :
  StronglySorted R l -> StronglySorted R (limit_offset limit offset l).
Proof.
  intros H; unfold limit_offset.
  assert (Hs : StronglySorted R (skipn (Z.to_nat offset) l)).
  { rewrite <- (firstn_skipn (Z.to_nat offset) l) in H.
    now apply StronglySorted_app_inv in H. }
  destruct (limit <? 0); [exact Hs|].
  rewrite <- (firstn_skipn (Z.to_nat limit) (skipn (Z.to_nat offset) l)) in Hs.
  now apply StronglySorted_app_inv in Hs.
Qed.

Lemma drawing_json_lists (rows : list Drawing.t) :
  Forall2 lists (map drawing_json rows) rows.
Proof.
  induction rows as [|r rows IH]; simpl; constructor; [|exact IH].
  repeat split.
Qed.




(** ** The small board at work *)

Example bob_may_not_move_anns_text :
  Server.on_textMove board "b" (move_of "Ann") noon
  = (board,
     [mkemit "b" "error" [message "Нет прав для перемещения этого текста"]]).
Proof. reflexivity. Qed.

Example cara_moves_anns_text :
  map to (snd (Server.on_textMove board "c" (move_of "Ann") noon))
  = ["a"; "b"]
  /\ map Drawing.user_id
       (drawings (db (fst (Server.on_textMove board "c" (move_of "Ann") noon))))
     = [JStr "Ann"].
Proof. split; reflexivity. Qed.

Example bob_moves_anns_text_as_his_own :
  map to (snd (Server.on_textMove board "b" (move_of "Bob") noon))
  = ["a"; "c"].
Proof. reflexivity. Qed.

Example stroke_lost_on_full_disk :
  Server.on_drawing board "a" stroke disk_full
  = (board,
     [mkemit "b" "drawing" [stamped stroke disk_full Ann];
      mkemit "c" "drawing" [stamped stroke disk_full Ann]]).
Proof. reflexivity. Qed.

Example two_strokes_listed :
  map Drawing.id (select_drawings plain (db server_two_strokes)) = [1; 2]
  /\ map Drawing.id
         (select_drawings (ranking Z.opp plain) (db server_two_strokes))
     = [2; 1]
  /\ map Drawing.created_at (select_drawings plain (db server_two_strokes))
     = [now noon; now noon].
Proof. repeat split. Qed.

Example later_row_with_earlier_time_listed_first :
  map Drawing.id
      (select_drawings plain
         (mkdb [Drawing.mk 1 (JStr "text") (Json JNull) JNull 30;
                Drawing.mk 2 (JStr "text") (Json JNull) JNull 10;
                Drawing.mk 3 (JStr "text") (Json JNull) JNull 30;
                Drawing.mk 4 (JStr "text") (Json JNull) JNull 10] 4 [] 0))
  = [2; 4; 1; 3].
Proof. reflexivity. Qed.

Example path_parameter_names_a_row :
  rowid_of plain (JStr "12") = Some 12
  /\ rowid_of plain (JStr "twelve") = None
  /\ rowid_of (reading "12.0" 12 plain) (JStr "12.0") = Some 12.
Proof. repeat split. Qed.

Example path_with_a_fraction_deletes_the_row :
  let e := mkenv (iso noon) (now noon) None None false
                 (reading "1.0" 1 plain) in
  drawings (db (fst (fst (Server.api_drawing_delete board "1.0" admin_body
                            e)))) = []
  /\ snd (fst (Server.api_drawing_delete board "1.0" admin_body e))
     = mkresponse 200 success_true.
Proof. split; reflexivity. Qed.

Example number_kept_as_text :
  sql_text plain (JNum 5) = JStr "5"
  /\ sql_text plain (JBool true) = JStr "1"
  /\ sql_text plain JUndefined = JNull
  /\ sql_text plain Ann = JStr "[object Object]".
Proof. repeat split. Qed.

Example join_replaces_the_session_row :
  map Session.id (user_sessions (db server_joined_twice)) = [2]
  /\ map Session.id (user_sessions (db legacy_joined_twice)) = [1; 2].
Proof. split; reflexivity. Qed.

Example session_of_yesterday_evening_is_swept :
  expired (1714609800 - seconds_per_day)
          (Session.mk 1 (JStr "Ann") (JStr "Ученик") "a" 1714604400)
  = true.
Proof. reflexivity. Qed.

(** ** Events that are dropped *)

Lemma anonymous_find (st : state) (sid : string) :
  anonymous st sid ->
  find_socket sid st = None
  \/ exists s, find_socket sid st = Some s
               /\ truthy (Socket.userData s) = false.
Proof.
  intros H; destruct (find_socket sid st) as [s|] eqn:E; [right|now left].
  exists s; split; [reflexivity | now apply H].
Qed.

(** X1.  On both entry points a [drawing], [text], [textUpdate],
    [textMove], [textDelete] or [clear] event from a connection that has not
    joined changes nothing and sends nothing, whatever its payload. *)
Theorem events_before_join_are_dropped (st : state) (sid : string)
    (data : jsval) (e : env) :
  anonymous st sid ->
  (Server.on_drawing st sid data e = (st, [])
   /\ Server.on_text st sid data e = (st, [])
   /\ Server.on_textUpdate st sid data e = (st, [])
   /\ Server.on_textMove st sid data e = (st, [])
   /\ Server.on_textDelete st sid data e = (st, [])
   /\ Server.on_clear st sid data e = (st, []))
  /\ (Legacy.on_drawing st sid data e = (st, [], Legacy.Returned)
      /\ Legacy.on_text st sid data e = (st, [], Legacy.Returned)
      /\ Legacy.on_textUpdate st sid data e = (st, [], Legacy.Returned)
      /\ Legacy.on_textMove st sid data e = (st, [], Legacy.Returned)
      /\ Legacy.on_textDelete st sid data e = (st, [], Legacy.Returned)
      /\ Legacy.on_clear st sid data e = (st, [], Legacy.Returned)).
Proof.
  intros Hanon.
  unfold Server.on_drawing, Server.on_text, Server.on_textUpdate,
    Server.on_textMove, Server.on_textDelete, Server.on_clear,
    Legacy.on_drawing, Legacy.on_text, Legacy.on_textUpdate,
    Legacy.on_textMove, Legacy.on_textDelete, Legacy.on_clear.
  destruct (anonymous_find _ _ Hanon) as [-> | [s [-> ->]]]; simpl;
    repeat split.
Qed.

Lemma events_before_join_are_dropped_witness :
  Server.on_textDelete board_with_guest "d" (move_of "Ann") noon
  = (board_with_guest, [])
  /\ Legacy.on_drawing board_with_guest "d" stroke noon
     = (board_with_guest, [], Legacy.Returned).
Proof.
  assert (H : anonymous board_with_guest "d").
  { intros s Hs; vm_compute in Hs; injection Hs as <-; reflexivity. }
  pose proof (events_before_join_are_dropped board_with_guest "d"
                (move_of "Ann") noon H) as HA.
  pose proof (events_before_join_are_dropped board_with_guest "d"
                stroke noon H) as HB.
  split.
  - exact (proj1 (proj2 (proj2 (proj2 (proj2 (proj1 HA)))))).
  - exact (proj1 (proj2 HB)).
Defined.

(** X2.  [server.js] drops an ill-formed event without a word, before it
    looks at the permissions: a [drawing] without [from] or [to], a [text]
    without [text] or [id], a [textUpdate], [textMove] or [textDelete]
    without [id] changes nothing and sends nothing, not even an error notice
    to its sender, whoever the sender is. *)
Theorem server_drops_ill_formed_events (st : state) (sid : string)
    (data : jsval) (e : env) :
  (truthy data = false \/ truthy (field data "from") = false
   \/ truthy (field data "to") = false ->
   Server.on_drawing st sid data e = (st, []))
  /\ (truthy data = false \/ truthy (field data "text") = false
      \/ truthy (field data "id") = false ->
      Server.on_text st sid data e = (st, []))
  /\ (truthy data = false \/ truthy (field data "id") = false ->
      Server.on_textUpdate st sid data e = (st, [])
      /\ Server.on_textMove st sid data e = (st, [])
      /\ Server.on_textDelete st sid data e = (st, [])).
Proof.
  unfold Server.on_drawing, Server.on_text, Server.on_textUpdate,
    Server.on_textMove, Server.on_textDelete.
  destruct (find_socket sid st) as [s|]; [|repeat split].
  destruct (truthy (Socket.userData s)); simpl; [|repeat split].
  split; [|split].
  - intros [-> | [-> | ->]]; simpl; rewrite ?orb_true_r; reflexivity.
  - intros [-> | [-> | ->]]; simpl; rewrite ?orb_true_r; reflexivity.
  - intros [-> | ->]; simpl; rewrite ?orb_true_r; repeat split.
Qed.

Lemma server_drops_ill_formed_events_witness :
  Server.on_textUpdate board "c" (JObj [("text", JStr "bye")]) noon
  = (board, []).
Proof.
  exact (proj1 (proj2 (proj2 (server_drops_ill_formed_events board "c"
                                (JObj [("text", JStr "bye")]) noon))
                      (or_intror eq_refl))).
Defined.

(** X3.  On the earlier entry point a joined connection that sends
    [textUpdate], [textMove] or [textDelete] with no payload makes the
    handler throw before anything is stored or sent; a [drawing] or [text]
    with no payload is taken: a row holding only the server's [timestamp]
    and [userId] is stored, its [user_id] the text the column keeps of the
    username, and sent to the others. *)
Theorem legacy_missing_payload (st : state) (sid : string)
    (userData data : jsval) (e : env) :
  active st sid userData ->
  nullish data = true ->
  Legacy.on_textUpdate st sid data e = (st, [], Legacy.TypeError)
  /\ Legacy.on_textMove st sid data e = (st, [], Legacy.TypeError)
  /\ Legacy.on_textDelete st sid data e = (st, [], Legacy.TypeError)
  /\ stamped data e userData
     = JObj [("timestamp", JStr (iso e));
             ("userId", field userData "username")]
  /\ (write_fault e = None ->
      Legacy.on_drawing st sid data e
      = (with_db (mkdb (drawings (db st)
                          ++ [Drawing.mk (next_drawing_id (db st))
                                (JStr "drawing")
                                (Json (stamped data e userData))
                                (sql_text (sqlite e)
                                          (field userData "username"))
                                (now e)])
                       (next_drawing_id (db st))
                       (user_sessions (db st)) (user_sessions_seq (db st)))
                 st,
         broadcast_emit st sid "drawing" [stamped data e userData],
         Legacy.Returned)).
Proof.
  intros Hact Hnull.
  destruct (active_socket _ _ _ Hact) as [s [Hs [Hin [Hid [Hud Htr]]]]].
  unfold Legacy.on_textUpdate, Legacy.on_textMove, Legacy.on_textDelete,
    Legacy.on_drawing; rewrite Hs, Htr, Hud, Hnull; simpl.
  repeat split.
  - destruct data; try discriminate; reflexivity.
  - intros ->; reflexivity.
Qed.

Lemma legacy_missing_payload_witness :
  Legacy.on_textDelete board "a" JNull noon = (board, [], Legacy.TypeError).
Proof.
  exact (proj1 (proj2 (proj2 (legacy_missing_payload board "a" Ann JNull noon
                                (ex_intro _ (Socket.mk "a" Ann)
                                   (conj eq_refl (conj eq_refl eq_refl)))
                                eq_refl)))).
Defined.

(** X4.  A [textUpdate] or [textMove] that fails the permission check
    changes nothing and reaches no other connection: [server.js] sends the
    error notice to the sender alone, the earlier entry point sends
    nothing. *)
Theorem refused_update_stays_with_the_sender (st : state) (sid : string)
    (userData data : jsval) (e : env) :
  active st sid userData ->
  (truthy data = true -> truthy (field data "id") = true ->
   (canEdit userData data = false ->
    let '(st', out) := Server.on_textUpdate st sid data e in
    refused st st' out sid "error")
   /\ (canMove userData data = false ->
       let '(st', out) := Server.on_textMove st sid data e in
       refused st st' out sid "error"))
  /\ (nullish data = false ->
      (canEdit userData data = false ->
       Legacy.on_textUpdate st sid data e = (st, [], Legacy.Returned))
      /\ (canMove userData data = false ->
          Legacy.on_textMove st sid data e = (st, [], Legacy.Returned))).
Proof.
  intros Hact.
  destruct (active_socket _ _ _ Hact) as [s [Hs [Hin [Hid [Hud Htr]]]]].
  unfold Server.on_textUpdate, Server.on_textMove, Legacy.on_textUpdate,
    Legacy.on_textMove; rewrite Hs, Htr, Hud.
  split.
  - intros -> ->; simpl; split; intros ->; simpl;
      (split; [reflexivity | apply socket_emit_only_to]).
  - intros ->; simpl; split; intros ->; reflexivity.
Qed.

Lemma refused_update_stays_with_the_sender_witness :
  refused board (fst (Server.on_textUpdate board "b" (move_of "Ann") noon))
          (snd (Server.on_textUpdate board "b" (move_of "Ann") noon))
          "b" "error"
  /\ Legacy.on_textMove board "b" (move_of "Ann") noon
     = (board, [], Legacy.Returned).
Proof.
  pose proof (refused_update_stays_with_the_sender board "b" Bob
                (move_of "Ann") noon
                (ex_intro _ (Socket.mk "b" Bob)
                   (conj eq_refl (conj eq_refl eq_refl)))) as [HA HB].
  split.
  - exact (proj1 (HA eq_refl eq_refl) eq_refl).
  - exact (proj2 (HB eq_refl) eq_refl).
Defined.

(** ** What the server stamps on an event *)

Lemma lookup_set_field_same (k : string) (v : jsval)
    (fs : list (string * jsval)) :
  lookup k (set_field k v fs) = v.
Proof.
  induction fs as [|[k' v'] fs IH]; simpl.
  - now rewrite String.eqb_refl.
  - destruct (k =? k')%string eqn:E; simpl; rewrite ?String.eqb_refl, ?E; auto.
Qed.

Lemma lookup_set_field_other (k k' : string) (v : jsval)
    (fs : list (string * jsval)) :
  k' <> k -> lookup k' (set_field k v fs) = lookup k' fs.
Proof.
  intros Hne; induction fs as [|[k2 v2] fs IH]; simpl.
  - apply String.eqb_neq in Hne; now rewrite Hne.
  - destruct (k =? k2)%string eqn:E; simpl.
    + apply String.eqb_eq in E; subst k2.
      apply String.eqb_neq in Hne; now rewrite Hne.
    + destruct (k' =? k2)%string; auto.
Qed.

(** X5.  In what the server stores and sends for a [drawing], [text],
    [textUpdate] or [textMove] event, [userId] is the username the sender
    joined with and [timestamp] is the server's clock, whatever the payload
    says of them; every other field of the payload is passed on as it
    came. *)
Theorem stamp_overrides_userId_and_timestamp (data userData : jsval)
    (e : env) :
  field (stamped data e userData) "userId" = field userData "username"
  /\ field (stamped data e userData) "timestamp" = JStr (iso e)
  /\ (is_object data = true ->
      forall k, k <> "userId" -> k <> "timestamp" ->
                field (stamped data e userData) k = field data k).
Proof.
  unfold stamped; simpl; split; [|split].
  - apply lookup_set_field_same.
  - rewrite lookup_set_field_other by discriminate.
    apply lookup_set_field_same.
  - intros Hobj k H1 H2; destruct data; try discriminate; simpl.
    now rewrite !lookup_set_field_other.
Qed.

Lemma stamp_overrides_userId_and_timestamp_witness :
  field (stamped new_text noon Bob) "userId" = JStr "Bob"
  /\ field (stamped new_text noon Bob) "text" = field new_text "text".
Proof.
  pose proof (stamp_overrides_userId_and_timestamp new_text Bob noon)
    as [H1 [_ H3]].
  split; [exact H1|].
  apply (H3 eq_refl); discriminate.
Defined.

(** ** Creating a stroke or a text *)

Lemma next_drawing_id_fresh (d : database) :
  Forall (fun r => Drawing.id r < next_drawing_id d) (drawings d)
  /\ drawings_seq d < next_drawing_id d.
Proof.
  unfold next_drawing_id, next_rowid; split; [|lia].
  apply Forall_forall; intros r Hr.
  pose proof (max_rowid_bound (map Drawing.id (drawings d)) (Drawing.id r)
                (in_map _ _ _ Hr)); lia.
Qed.

(** X6.  A well-formed [drawing] or [text] event from a joined connection
    whose statement meets no fault adds exactly one row at the end of the
    store, on both entry points: its [type] is the event, its [user_id] the
    text the column keeps of the sender's username (the digits of a number,
    [NULL] for none), its [created_at] the clock, its payload the stamped
    event, and its rowid the next of the sequence, larger than every rowid in
    the store; a [text] is not stored under the [id] its payload carries. *)
Theorem created_item_is_one_fresh_row (st : state) (sid : string)
    (userData data : jsval) (e : env) :
  active st sid userData ->
  write_fault e = None ->
  Forall (fun r => Drawing.id r < next_drawing_id (db st)) (drawings (db st))
  /\ (truthy data = true ->
      (truthy (field data "from") = true -> truthy (field data "to") = true ->
       appended (created_row (db st) "drawing" data userData e) (db st)
                (db (fst (Server.on_drawing st sid data e))))
      /\ (truthy (field data "text") = true ->
          truthy (field data "id") = true ->
          appended (created_row (db st) "text" data userData e) (db st)
                   (db (fst (Server.on_text st sid data e)))))
  /\ appended (created_row (db st) "drawing" data userData e) (db st)
              (db (fst (fst (Legacy.on_drawing st sid data e))))
  /\ appended (created_row (db st) "text" data userData e) (db st)
              (db (fst (fst (Legacy.on_text st sid data e)))).
Proof.
  intros Hact Hf.
  destruct (active_socket _ _ _ Hact) as [s [Hs [Hin [Hid [Hud Htr]]]]].
  split; [apply next_drawing_id_fresh|].
  unfold Server.on_drawing, Server.on_text, Legacy.on_drawing, Legacy.on_text.
  rewrite Hs, Htr, Hud, Hf; simpl.
  split; [|split].
  - intros ->; simpl; split; intros -> ->; simpl; repeat split.
  - repeat split.
  - repeat split.
Qed.

Lemma created_item_is_one_fresh_row_witness :
  appended (created_row (db board) "text" new_text Bob noon) (db board)
           (db (fst (Server.on_text board "b" new_text noon)))
  /\ Drawing.id (created_row (db board) "text" new_text Bob noon) = 2.
Proof.
  split; [|reflexivity].
  exact (proj2 (proj1 (proj2 (created_item_is_one_fresh_row board "b" Bob
                                new_text noon
                                (ex_intro _ (Socket.mk "b" Bob)
                                   (conj eq_refl (conj eq_refl eq_refl)))
                                eq_refl))
                      eq_refl) eq_refl eq_refl).
Defined.

(** ** The rowids of the board *)

Lemma insert_session_untouched (g : engine) (t : Z) (u r : jsval)
    (sid : string) :
  drawings_untouched (insert_session g t u r sid).
Proof.
  intros d d' n; unfold insert_session.
  destruct (nullish u); [discriminate|].
  destruct (nullish r); [discriminate|].
  intros H; injection H as <- _; split; reflexivity.
Qed.

Lemma insert_or_replace_session_untouched (g : engine) (t : Z)
    (u r : jsval) (sid : string) :
  drawings_untouched (insert_or_replace_session g t u r sid).
Proof.
  intros d d' n; unfold insert_or_replace_session.
  destruct (nullish u); [discriminate|].
  destruct (nullish r); [discriminate|].
  intros H; injection H as <- _; split; reflexivity.
Qed.

Lemma delete_session_untouched (sid : string) :
  drawings_untouched (delete_session sid).
Proof. intros d d' n H; injection H as <- _; split; reflexivity. Qed.

Lemma delete_old_sessions_untouched (cutoff : Z) :
  drawings_untouched (delete_old_sessions cutoff).
Proof. intros d d' n H; injection H as <- _; split; reflexivity. Qed.

Lemma untouched_ids_within_seq (stmt : database -> run_result) :
  drawings_untouched stmt -> preserves ids_within_seq stmt.
Proof.
  intros Hu d d' n Hd E; destruct (Hu d d' n E) as [H1 H2].
  unfold ids_within_seq in *; now rewrite H1, H2.
Qed.

Lemma untouched_extends (d0 : database) (stmt : database -> run_result) :
  drawings_untouched stmt -> preserves (extends d0) stmt.
Proof.
  intros Hu d d' n Hd E; destruct (Hu d d' n E) as [H1 H2].
  unfold extends in *; now rewrite H1, H2.
Qed.

Lemma insert_drawing_ids_within_seq (g : engine) (t : Z) (ty : jsval)
    (data : option json_text) (u : jsval) :
  preserves ids_within_seq (insert_drawing g t ty data u).
Proof.
  intros d d' n Hd; unfold insert_drawing.
  destruct (nullish ty); [discriminate|].
  destruct data; [|discriminate].
  intros H; injection H as <- _; unfold ids_within_seq in *; simpl.
  destruct (next_drawing_id_fresh d) as [Hfresh _].
  apply Forall_app; split; [|repeat constructor; simpl; lia].
  rewrite Forall_forall in *; intros r Hr; specialize (Hfresh r Hr).
  unfold next_drawing_id in Hfresh; lia.
Qed.

Lemma update_drawing_ids_within_seq (g : engine) (data : option json_text)
    (id : jsval) :
  preserves ids_within_seq (update_drawing g data id).
Proof.
  intros d d' n Hd; unfold update_drawing.
  destruct data.
  - intros H; injection H as <- _; unfold ids_within_seq in *; simpl.
    rewrite Forall_forall in *; intros r Hr.
    apply in_map_iff in Hr as [r0 [<- Hr0]]; rewrite set_data_id; auto.
  - destruct (existsb _ _); [discriminate|].
    intros H; injection H as <- _; exact Hd.
Qed.

Lemma delete_drawing_ids_within_seq (g : engine) (id : jsval) :
  preserves ids_within_seq (delete_drawing g id).
Proof.
  intros d d' n Hd H; injection H as <- _; unfold ids_within_seq in *; simpl.
  rewrite Forall_forall in *; intros r Hr; apply filter_In in Hr as [Hr _].
  auto.
Qed.

Lemma delete_all_drawings_ids_within_seq :
  preserves ids_within_seq delete_all_drawings.
Proof. intros d d' n Hd H; injection H as <- _; constructor. Qed.

Lemma extends_refl (d : database) : extends d d.
Proof.
  split; [lia|]; intros r Hr; left; exists r; repeat split; auto.
Qed.

Lemma insert_drawing_extends (d0 : database) (g : engine) (t : Z)
    (ty : jsval) (data : option json_text) (u : jsval) :
  preserves (extends d0) (insert_drawing g t ty data u).
Proof.
  intros d d' n [Hseq Hrows]; unfold insert_drawing.
  destruct (nullish ty); [discriminate|].
  destruct data; [|discriminate].
  intros H; injection H as <- _; unfold extends; simpl.
  destruct (next_drawing_id_fresh d) as [_ Hfresh].
  unfold next_drawing_id in Hfresh.
  split; [lia|]; intros r Hr; apply in_app_or in Hr as [Hr|[<-|[]]]; auto.
  right; simpl; lia.
Qed.

Lemma update_drawing_extends (d0 : database) (g : engine)
    (data : option json_text) (id : jsval) :
  preserves (extends d0) (update_drawing g data id).
Proof.
  intros d d' n [Hseq Hrows]; unfold update_drawing.
  destruct data.
  - intros H; injection H as <- _; split; [exact Hseq|]; simpl.
    intros r Hr; apply in_map_iff in Hr as [r0 [<- Hr0]].
    assert (E : Drawing.id (set_data g j id r0) = Drawing.id r0
                /\ Drawing.type (set_data g j id r0) = Drawing.type r0
                /\ Drawing.user_id (set_data g j id r0) = Drawing.user_id r0
                /\ Drawing.created_at (set_data g j id r0)
                   = Drawing.created_at r0).
    { unfold set_data; destruct (matches g id (Drawing.id r0)); auto. }
    destruct E as [E1 [E2 [E3 E4]]]; rewrite E1, E2, E3, E4; auto.
  - destruct (existsb _ _); [discriminate|].
    intros H; injection H as <- _; split; assumption.
Qed.

Lemma delete_drawing_extends (d0 : database) (g : engine) (id : jsval) :
  preserves (extends d0) (delete_drawing g id).
Proof.
  intros d d' n [Hseq Hrows] H; injection H as <- _; split; [exact Hseq|].
  simpl; intros r Hr; apply filter_In in Hr as [Hr _]; auto.
Qed.

Lemma delete_all_drawings_extends (d0 : database) :
  preserves (extends d0) delete_all_drawings.
Proof.
  intros d d' n [Hseq Hrows] H; injection H as <- _; split; [exact Hseq|].
  intros r [].
Qed.

#[local] Hint Resolve insert_session_untouched
  insert_or_replace_session_untouched delete_session_untouched
  delete_old_sessions_untouched untouched_ids_within_seq untouched_extends
  insert_drawing_ids_within_seq update_drawing_ids_within_seq
  delete_drawing_ids_within_seq delete_all_drawings_ids_within_seq
  insert_drawing_extends update_drawing_extends delete_drawing_extends
  delete_all_drawings_extends : tables.

Ltac server_handlers :=
  unfold Server.on_connection, Server.on_user_join, Server.on_drawing,
    Server.on_text, Server.on_textUpdate, Server.on_textMove,
    Server.on_textDelete, Server.on_clear, Server.on_ping,
    Server.on_disconnect, Server.sweep, Server.api_save, Server.api_clear,
    Server.api_drawing_delete.

Ltac legacy_handlers :=
  unfold Legacy.on_connection, Legacy.on_user_join, Legacy.on_drawing,
    Legacy.on_text, Legacy.on_textUpdate, Legacy.on_textMove,
    Legacy.on_textDelete, Legacy.on_clear, Legacy.on_disconnect,
    Legacy.sweep, Legacy.api_save, Legacy.api_clear,
    Legacy.api_drawing_delete.

Lemma server_step_table_invariant (P : database -> Prop) :
  (forall g t ty data u, preserves P (insert_drawing g t ty data u)) ->
  (forall g data id, preserves P (update_drawing g data id)) ->
  (forall g id, preserves P (delete_drawing g id)) ->
  preserves P delete_all_drawings ->
  (forall g t u r sid, preserves P (insert_or_replace_session g t u r sid)) ->
  (forall sid, preserves P (delete_session sid)) ->
  (forall cutoff, preserves P (delete_old_sessions cutoff)) ->
  forall st i e, P (db st) -> P (db (fst (Server.step st i e))).
Proof.
  intros H1 H2 H3 H4 H5 H6 H7 st i e Hinv; destruct i; simpl;
    server_handlers; handler_cases; simpl; try assumption;
    try (apply db_after_preserves; [auto | assumption]);
    try (eapply db_run_preserves; [| | eassumption]; [auto | assumption]).
Qed.

Lemma legacy_step_table_invariant (P : database -> Prop) :
  (forall g t ty data u, preserves P (insert_drawing g t ty data u)) ->
  (forall g data id, preserves P (update_drawing g data id)) ->
  (forall g id, preserves P (delete_drawing g id)) ->
  preserves P delete_all_drawings ->
  (forall g t u r sid, preserves P (insert_session g t u r sid)) ->
  (forall sid, preserves P (delete_session sid)) ->
  (forall cutoff, preserves P (delete_old_sessions cutoff)) ->
  forall st i e, P (db st) -> P (db (fst (Legacy.step st i e))).
Proof.
  intros H1 H2 H3 H4 H5 H6 H7 st i e Hinv; destruct i; simpl;
    legacy_handlers; handler_cases; simpl; try assumption;
    try (apply db_after_preserves; [auto | assumption]);
    try (eapply db_run_preserves; [| | eassumption]; [auto | assumption]).
Qed.

Lemma server_reachable_ids_within_seq (st : state) :
  Server.reachable st -> ids_within_seq (db st).
Proof.
  induction 1 as [|st i e _ IH]; [constructor|].
  apply server_step_table_invariant; auto with tables.
Qed.

Lemma legacy_reachable_ids_within_seq (st : state) :
  Legacy.reachable st -> ids_within_seq (db st).
Proof.
  induction 1 as [|st i e _ IH]; [constructor|].
  apply legacy_step_table_invariant; auto with tables.
Qed.

Lemma server_step_extends (st : state) (i : Server.input) (e : env) :
  extends (db st) (db (fst (Server.step st i e))).
Proof.
  apply server_step_table_invariant; auto using extends_refl with tables.
Qed.

Lemma legacy_step_extends (st : state) (i : Legacy.input) (e : env) :
  extends (db st) (db (fst (Legacy.step st i e))).
Proof.
  apply legacy_step_table_invariant; auto using extends_refl with tables.
Qed.

Lemma rowid_order_unique (d : database) (r1 r2 : Drawing.t) :
  rowid_order d -> In r1 (drawings d) -> In r2 (drawings d) ->
  Drawing.id r1 = Drawing.id r2 -> r1 = r2.
Proof.
  unfold rowid_order; induction 1 as [|x l Hl IH Hx]; simpl; [intros []|].
  rewrite Forall_forall in Hx; unfold rowid_lt in Hx.
  intros [<-|H1] [<-|H2] E; auto.
  - specialize (Hx _ H2); lia.
  - specialize (Hx _ H1); lia.
Qed.

(** X7.  A rowid of the board is never used twice, on either entry point:
    in every reachable state no row carries a rowid beyond the sequence, no
    event takes the sequence back, and a row that an event adds has a rowid
    beyond the sequence, hence beyond every rowid handed out before, those
    of deleted rows and of a cleared board included. *)
Theorem rowids_are_never_reused (st : state) :
  (Server.reachable st ->
   ids_within_seq (db st)
   /\ forall i e,
       drawings_seq (db st) <= drawings_seq (db (fst (Server.step st i e)))
       /\ forall r', In r' (drawings (db (fst (Server.step st i e)))) ->
            (exists r, In r (drawings (db st))
                       /\ Drawing.id r = Drawing.id r')
            \/ drawings_seq (db st) < Drawing.id r')
  /\ (Legacy.reachable st ->
      ids_within_seq (db st)
      /\ forall i e,
          drawings_seq (db st) <= drawings_seq (db (fst (Legacy.step st i e)))
          /\ forall r', In r' (drawings (db (fst (Legacy.step st i e)))) ->
               (exists r, In r (drawings (db st))
                          /\ Drawing.id r = Drawing.id r')
               \/ drawings_seq (db st) < Drawing.id r').
Proof.
  split; intros Hr.
  - split; [now apply server_reachable_ids_within_seq|].
    intros i e; destruct (server_step_extends st i e) as [H1 H2].
    split; [exact H1|]; intros r' Hr'.
    destruct (H2 r' Hr') as [[r [Ha [Hb _]]]|Hb]; eauto.
  - split; [now apply legacy_reachable_ids_within_seq|].
    intros i e; destruct (legacy_step_extends st i e) as [H1 H2].
    split; [exact H1|]; intros r' Hr'.
    destruct (H2 r' Hr') as [[r [Ha [Hb _]]]|Hb]; eauto.
Qed.

Lemma rowids_are_never_reused_witness :
  ids_within_seq (db server_two_strokes)
  /\ ids_within_seq (db legacy_two_strokes).
Proof.
  split.
  - apply (proj1 (rowids_are_never_reused server_two_strokes)).
    unfold server_two_strokes; repeat constructor.
  - apply (proj2 (rowids_are_never_reused legacy_two_strokes)).
    unfold legacy_two_strokes; repeat constructor.
Defined.

(** X8.  No event of either entry point changes the [user_id], the [type]
    or the [created_at] of a stored row: a row that is still in the store
    after the event, under the same rowid, carries all three as before. *)
Theorem stored_owner_type_and_time_never_change (st : state) :
  (Server.reachable st ->
   forall i e r r',
     In r (drawings (db st)) ->
     In r' (drawings (db (fst (Server.step st i e)))) ->
     Drawing.id r = Drawing.id r' ->
     Drawing.user_id r' = Drawing.user_id r
     /\ Drawing.type r' = Drawing.type r
     /\ Drawing.created_at r' = Drawing.created_at r)
  /\ (Legacy.reachable st ->
      forall i e r r',
        In r (drawings (db st)) ->
        In r' (drawings (db (fst (Legacy.step st i e)))) ->
        Drawing.id r = Drawing.id r' ->
        Drawing.user_id r' = Drawing.user_id r
        /\ Drawing.type r' = Drawing.type r
        /\ Drawing.created_at r' = Drawing.created_at r).
Proof.
  assert (Hgen : forall d d', rowid_order d -> ids_within_seq d ->
                              extends d d' ->
                 forall r r', In r (drawings d) -> In r' (drawings d') ->
                              Drawing.id r = Drawing.id r' ->
                 Drawing.user_id r' = Drawing.user_id r
                 /\ Drawing.type r' = Drawing.type r
                 /\ Drawing.created_at r' = Drawing.created_at r).
  { intros d d' Hord Hseq [_ Hext] r r' Hin Hin' E.
    destruct (Hext r' Hin') as [[r0 [H0 [E0 [Ht [Hu Hc]]]]]|Hnew].
    - assert (r0 = r) as -> by (eapply rowid_order_unique; eauto; congruence).
      auto.
    - unfold ids_within_seq in Hseq; rewrite Forall_forall in Hseq.
      specialize (Hseq r Hin); lia. }
  split; intros Hr i e; apply Hgen.
  - now apply server_reachable_rowid_order.
  - now apply server_reachable_ids_within_seq.
  - apply server_step_extends.
  - now apply legacy_reachable_rowid_order.
  - now apply legacy_reachable_ids_within_seq.
  - apply legacy_step_extends.
Qed.

Lemma stored_owner_type_and_time_never_change_witness :
  Drawing.user_id
    (hd note (drawings (db (fst (Server.step server_two_strokes
                                   (Server.TextUpdate "a" (move_of "Ann"))
                                   noon)))))
  = Drawing.user_id (hd note (drawings (db server_two_strokes)))
  /\ Drawing.type
       (hd note (drawings (db (fst (Server.step server_two_strokes
                                      (Server.TextUpdate "a" (move_of "Ann"))
                                      noon)))))
     = Drawing.type (hd note (drawings (db server_two_strokes)))
  /\ Drawing.created_at
       (hd note (drawings (db (fst (Server.step server_two_strokes
                                      (Server.TextUpdate "a" (move_of "Ann"))
                                      noon)))))
     = Drawing.created_at (hd note (drawings (db server_two_strokes))).
Proof.
  apply (proj1 (stored_owner_type_and_time_never_change server_two_strokes)
               ltac:(unfold server_two_strokes; repeat constructor)
               (Server.TextUpdate "a" (move_of "Ann")) noon).
  - left; reflexivity.
  - left; reflexivity.
  - reflexivity.
Defined.

(** ** The rows of the session table *)

Lemma sessions_filter_Forall (P : Session.t -> Prop) (keep : Session.t -> bool)
    (rows : list Session.t) :
  Forall P rows -> Forall P (filter keep rows).
Proof.
  rewrite !Forall_forall; intros H r Hr; apply filter_In in Hr as [Hr _]; auto.
Qed.

(** The text of a number is never empty. *)
Lemma display_number_not_empty (n : Z) : display (JNum n) <> "".
Proof.
  intros H; pose proof (reads_decimal plain n) as R.
  unfold rowid_text in R; rewrite H in R; discriminate.
Qed.

(** What is not null is not stored as [NULL], and what is truthy is not
    stored as an empty text. *)
Lemma sql_text_not_null (g : engine) (v : jsval) :
  nullish v = false -> nullish (sql_text g v) = false.
Proof. destruct v; simpl; auto. Qed.

Lemma sql_text_truthy (g : engine) (v : jsval) :
  truthy v = true -> truthy (sql_text g v) = true.
Proof.
  destruct v; cbn [sql_text truthy]; try discriminate; auto.
  - intros ->; reflexivity.
  - intros _; apply negb_true_iff, String.eqb_neq.
    destruct (int32 n);
      [apply display_number_not_empty | apply wide_number_text_not_empty].
Qed.

Lemma insert_or_replace_session_named (g : engine) (t : Z) (u r : jsval)
    (sid : string) :
  truthy u = true ->
  preserves sessions_named (insert_or_replace_session g t u r sid).
Proof.
  intros Hu d d' n Hd; unfold insert_or_replace_session.
  destruct (nullish u); [discriminate|].
  destruct (nullish r) eqn:Er; [discriminate|].
  intros H; injection H as <- _; unfold sessions_named in *; simpl.
  apply Forall_app; split; [now apply sessions_filter_Forall|].
  repeat constructor; simpl;
    [now apply sql_text_truthy | now apply sql_text_not_null].
Qed.

Lemma insert_session_not_null (g : engine) (t : Z) (u r : jsval)
    (sid : string) :
  preserves sessions_not_null (insert_session g t u r sid).
Proof.
  intros d d' n Hd; unfold insert_session.
  destruct (nullish u) eqn:Eu; [discriminate|].
  destruct (nullish r) eqn:Er; [discriminate|].
  intros H; injection H as <- _; unfold sessions_not_null in *; simpl.
  apply Forall_app; split; [exact Hd|].
  repeat constructor; simpl; now apply sql_text_not_null.
Qed.

Lemma delete_session_Forall (P : Session.t -> Prop) (sid : string) :
  preserves (fun d => Forall P (user_sessions d)) (delete_session sid).
Proof.
  intros d d' n Hd H; injection H as <- _; simpl.
  now apply sessions_filter_Forall.
Qed.

Lemma delete_old_sessions_Forall (P : Session.t -> Prop) (cutoff : Z) :
  preserves (fun d => Forall P (user_sessions d)) (delete_old_sessions cutoff).
Proof.
  intros d d' n Hd H; injection H as <- _; simpl.
  now apply sessions_filter_Forall.
Qed.

Lemma insert_drawing_sessions (P : list Session.t -> Prop) (g : engine)
    (t : Z) (ty : jsval) (data : option json_text) (u : jsval) :
  preserves (fun d => P (user_sessions d)) (insert_drawing g t ty data u).
Proof.
  intros d d' n Hd; unfold insert_drawing.
  destruct (nullish ty); [discriminate|].
  destruct data; [|discriminate].
  intros H; injection H as <- _; exact Hd.
Qed.

Lemma update_drawing_sessions (P : list Session.t -> Prop) (g : engine)
    (data : option json_text) (id : jsval) :
  preserves (fun d => P (user_sessions d)) (update_drawing g data id).
Proof.
  intros d d' n Hd; unfold update_drawing.
  destruct data.
  - intros H; injection H as <- _; exact Hd.
  - destruct (existsb _ _); [discriminate|].
    intros H; injection H as <- _; exact Hd.
Qed.

Lemma delete_drawing_sessions (P : list Session.t -> Prop) (g : engine)
    (id : jsval) :
  preserves (fun d => P (user_sessions d)) (delete_drawing g id).
Proof. intros d d' n Hd H; injection H as <- _; exact Hd. Qed.

Lemma delete_all_drawings_sessions (P : list Session.t -> Prop) :
  preserves (fun d => P (user_sessions d)) delete_all_drawings.
Proof. intros d d' n Hd H; injection H as <- _; exact Hd. Qed.

Lemma drawings_statements_named :
  (forall g t ty data u,
      preserves sessions_named (insert_drawing g t ty data u))
  /\ (forall g data id, preserves sessions_named (update_drawing g data id))
  /\ (forall g id, preserves sessions_named (delete_drawing g id))
  /\ preserves sessions_named delete_all_drawings
  /\ (forall sid, preserves sessions_named (delete_session sid))
  /\ (forall cutoff, preserves sessions_named (delete_old_sessions cutoff)).
Proof.
  repeat split; intros.
  - apply (insert_drawing_sessions (Forall _)).
  - apply (update_drawing_sessions (Forall _)).
  - apply (delete_drawing_sessions (Forall _)).
  - apply (delete_all_drawings_sessions (Forall _)).
  - apply (delete_session_Forall _).
  - apply (delete_old_sessions_Forall _).
Qed.

Lemma drawings_statements_not_null :
  (forall g t ty data u,
      preserves sessions_not_null (insert_drawing g t ty data u))
  /\ (forall g data id, preserves sessions_not_null (update_drawing g data id))
  /\ (forall g id, preserves sessions_not_null (delete_drawing g id))
  /\ preserves sessions_not_null delete_all_drawings
  /\ (forall sid, preserves sessions_not_null (delete_session sid))
  /\ (forall cutoff, preserves sessions_not_null (delete_old_sessions cutoff)).
Proof.
  repeat split; intros.
  - apply (insert_drawing_sessions (Forall _)).
  - apply (update_drawing_sessions (Forall _)).
  - apply (delete_drawing_sessions (Forall _)).
  - apply (delete_all_drawings_sessions (Forall _)).
  - apply (delete_session_Forall _).
  - apply (delete_old_sessions_Forall _).
Qed.

Lemma server_step_sessions_named (st : state) (i : Server.input) (e : env) :
  sessions_named (db st) -> sessions_named (db (fst (Server.step st i e))).
Proof.
  destruct drawings_statements_named as [H1 [H2 [H3 [H4 [H5 H6]]]]].
  intros Hinv; destruct i; simpl; server_handlers; handler_cases; simpl;
    try assumption;
    try (apply db_after_preserves; [solve [auto] | assumption]);
    try (eapply db_run_preserves; [| | eassumption];
         [solve [auto] | assumption]).
  apply db_after_preserves; [|assumption].
  apply insert_or_replace_session_named.
  match goal with
  | H : _ || _ = false |- _ =>
      apply orb_false_elim in H as [_ H]; now apply negb_false_iff in H
  end.
Qed.

Lemma server_reachable_sessions_named (st : state) :
  Server.reachable st -> sessions_named (db st).
Proof.
  induction 1 as [|st i e _ IH]; [constructor|].
  now apply server_step_sessions_named.
Qed.

Lemma legacy_reachable_sessions_not_null (st : state) :
  Legacy.reachable st -> sessions_not_null (db st).
Proof.
  destruct drawings_statements_not_null as [H1 [H2 [H3 [H4 [H5 H6]]]]].
  induction 1 as [|st i e _ IH]; [constructor|].
  apply legacy_step_table_invariant; auto.
  intros; apply insert_session_not_null.
Qed.



(** ** Joining and leaving *)

Lemma server_binding_fields (sid : string) (userData : jsval) (e : env) :
  field (server_binding sid userData e) "socketId" = JStr sid
  /\ field (server_binding sid userData e) "joinedAt" = JStr (iso e)
  /\ (is_object userData = true ->
      forall k, k <> "socketId" -> k <> "joinedAt" ->
                field (server_binding sid userData e) k = field userData k).
Proof.
  unfold server_binding; simpl; split; [|split].
  - rewrite lookup_set_field_other by discriminate.
    apply lookup_set_field_same.
  - apply lookup_set_field_same.
  - intros Hobj k H1 H2; destruct userData; try discriminate; simpl.
    now rewrite !lookup_set_field_other.
Qed.

Lemma as_read_sockets (e : env) (before after : state) :
  sockets (as_read e before after) = sockets after.
Proof. unfold as_read; now destruct (select_first e). Qed.

Lemma truthy_field_object (v : jsval) (k : string) :
  truthy (field v k) = true -> is_object v = true.
Proof. destruct v; simpl; try discriminate; reflexivity. Qed.

(** X10.  A [user_join] with a username, on [server.js], binds the
    connection: the binding is the payload with [socketId] set to the id of
    the connection and [joinedAt] to the clock, whatever the payload says of
    them, and with the username and role of the payload.  Every other
    connection is sent [user_joined]; when the list of sessions can be read
    it is sent to every connection, the new one included.  The handler
    queues the query of the list right after its [INSERT], outside
    [db.serialize]: the list is read from the table as the join leaves it,
    or, when the query overtakes the statement, as it was before the
    join. *)
Theorem server_join_binds_and_announces (st : state) (sid : string)
    (s : Socket.t) (userData : jsval) (e : env) :
  find_socket sid st = Some s ->
  truthy userData = true ->
  truthy (field userData "username") = true ->
  let '(st', out) := Server.on_user_join st sid userData e in
  active st' sid (server_binding sid userData e)
  /\ field (server_binding sid userData e) "socketId" = JStr sid
  /\ field (server_binding sid userData e) "joinedAt" = JStr (iso e)
  /\ field (server_binding sid userData e) "username"
     = field userData "username"
  /\ field (server_binding sid userData e) "role" = field userData "role"
  /\ map Socket.id (sockets st') = map Socket.id (sockets st)
  /\ to_everyone_else st' out sid "user_joined"
       [membership_notice userData " присоединился к доске" e]
  /\ (read_fault e = None ->
      to_everyone st' out "online_users_update"
        [js_array (map session_json
                       (select_sessions (sqlite e)
                          (if select_first e then db st else db st')))]).
Proof.
  intros Hs Hud Hname; unfold Server.on_user_join; rewrite Hs, Hud, Hname.
  fold (server_binding sid userData e); simpl.
  set (st1 := set_userData sid (server_binding sid userData e) st).
  set (r := db_run _ _ _).
  destruct (server_binding_fields sid userData e) as [F1 [F2 F3]].
  pose proof (truthy_field_object _ _ Hname) as Hobj.
  split; [|split; [exact F1|split; [exact F2|]]].
  { exists (Socket.mk sid (server_binding sid userData e)); repeat split.
    apply (find_socket_set_userData sid _ st s Hs). }
  split; [apply (F3 Hobj); discriminate|].
  split; [apply (F3 Hobj); discriminate|].
  split; [apply set_userData_ids|].
  split.
  - destruct (broadcast_emit_to_everyone_else
                (with_db (db_after r (db st1)) st1) sid "user_joined"
                [membership_notice userData " присоединился к доске" e])
      as [H1 H2]; split.
    + intros t Ht Hne; apply in_or_app; left; auto.
    + intros [a H]; apply in_app_or in H as [H|H].
      * apply H2; exists a; exact H.
      * unfold updateOnlineUsers in H.
        destruct (read_fault e); [destruct H|].
        apply In_io_emit in H as [t [_ H]]; discriminate.
  - intros Hrf t Ht; apply in_or_app; right.
    unfold updateOnlineUsers, as_read; rewrite Hrf.
    destruct (select_first e);
      [apply (io_emit_to_everyone (with_db (db st1) _)) |
       apply io_emit_to_everyone]; exact Ht.
Qed.

Lemma server_join_binds_and_announces_witness :
  field (server_binding "d" forged_join noon) "socketId" = JStr "d"
  /\ active (fst (Server.on_user_join board_with_guest "d" forged_join noon))
            "d" (server_binding "d" forged_join noon).
Proof.
  pose proof (server_join_binds_and_announces board_with_guest "d"
                (Socket.mk "d" JUndefined) forged_join noon
                eq_refl eq_refl eq_refl) as H.
  split.
  - exact (proj1 (proj2 H)).
  - exact (proj1 H).
Defined.

Lemma find_after_leave (sid : string) (l : list Socket.t) :
  find (fun s => (Socket.id s =? sid)%string)
       (filter (fun t => negb (Socket.id t =? sid)%string) l) = None.
Proof.
  induction l as [|t l IH]; simpl; [reflexivity|].
  destruct (Socket.id t =? sid)%string eqn:E; simpl; [exact IH|].
  now rewrite E.
Qed.

Lemma In_after_leave (sid : string) (l : list Socket.t) (t : Socket.t) :
  In t (filter (fun t => negb (Socket.id t =? sid)%string) l)
  <-> In t l /\ Socket.id t <> sid.
Proof.
  rewrite filter_In, negb_true_iff, String.eqb_neq; reflexivity.
Qed.

(** X11.  When a connection closes, on both entry points alike, it is taken
    off the list of connections and is itself sent nothing.  If it had
    joined, every remaining connection is sent [user_left], its session rows
    are deleted unless the statement meets a fault, and the list of sessions,
    when it can be read, is sent to every remaining connection.  The handler
    queues the query of the list right after its [DELETE], outside
    [db.serialize]: the list is read from the table as the [DELETE] leaves
    it, or, when the query overtakes the statement, as it was before, the
    rows of the closed connection included.  If it had not joined, nothing
    is stored and nothing is sent. *)
Theorem disconnect_removes_and_announces (st : state) (sid : string)
    (s : Socket.t) (e : env) :
  find_socket sid st = Some s ->
  Legacy.on_disconnect st sid e
  = (Server.on_disconnect st sid e, Legacy.Returned)
  /\ let '(st', out) := Server.on_disconnect st sid e in
     find_socket sid st' = None
     /\ (forall t, In t (sockets st')
                   <-> In t (sockets st) /\ Socket.id t <> sid)
     /\ (forall ev, ~ receives out sid ev)
     /\ (truthy (Socket.userData s) = false -> db st' = db st /\ out = [])
     /\ (truthy (Socket.userData s) = true ->
         to_everyone st' out "user_left"
           [membership_notice (Socket.userData s) " покинул доску" e]
         /\ (write_fault e = None ->
             user_sessions (db st')
             = filter (fun r => negb (Session.socket_id r =? sid)%string)
                      (user_sessions (db st))
             /\ drawings (db st') = drawings (db st))
         /\ (read_fault e = None ->
             to_everyone st' out "online_users_update"
               [js_array (map session_json
                              (select_sessions (sqlite e)
                                 (if select_first e then db st
                                  else db st')))])).
Proof.
  intros Hs; unfold Legacy.on_disconnect, Server.on_disconnect; rewrite Hs.
  split; [destruct (truthy (Socket.userData s)); reflexivity|].
  destruct (truthy (Socket.userData s)) eqn:Htr; simpl.
  - set (r := db_run _ _ _).
    set (st2 := with_db _ _).
    assert (Hleft : forall t, In t (sockets st2)
                              <-> In t (sockets st) /\ Socket.id t <> sid)
      by (intros t; apply In_after_leave).
    split; [apply find_after_leave|].
    split; [exact Hleft|].
    split; [|split; [discriminate|intros _; split; [|split]]].
    + intros ev [a H]; apply in_app_or in H as [H|H].
      * apply In_broadcast_emit in H as [t [_ [Hne H]]].
        injection H as H _ _; congruence.
      * unfold updateOnlineUsers in H.
        destruct (read_fault e); [destruct H|].
        apply In_io_emit in H as [t [Ht H]]; rewrite as_read_sockets in Ht.
        apply Hleft in Ht as [_ Hne]; injection H as H _ _; congruence.
    + intros t Ht; apply in_or_app; left.
      apply In_broadcast_emit; exists t; repeat split; auto.
      now apply Hleft in Ht as [_ Hne].
    + intros Hf; subst st2 r; rewrite Hf; simpl; split; reflexivity.
    + intros Hrf t Ht; apply in_or_app; right.
      unfold updateOnlineUsers, as_read; rewrite Hrf.
      destruct (select_first e);
        [apply (io_emit_to_everyone (with_db (db st) st2)) |
         apply io_emit_to_everyone]; exact Ht.
  - split; [apply find_after_leave|].
    split; [intros t; apply In_after_leave|].
    split; [intros ev [a []]|].
    split; [auto | discriminate].
Qed.

Lemma disconnect_removes_and_announces_witness :
  find_socket "b" (fst (Server.on_disconnect board "b" noon)) = None
  /\ Legacy.on_disconnect board "b" noon
     = (Server.on_disconnect board "b" noon, Legacy.Returned).
Proof.
  pose proof (disconnect_removes_and_announces board "b" (Socket.mk "b" Bob)
                noon eq_refl) as [HA HB].
  split; [exact (proj1 HB) | exact HA].
Defined.

(** ** The HTTP routes that save and clear *)

(** X12.  [POST /api/save] on [server.js]: without a truthy [type] or
    [data] the answer is 400 and nothing is stored.  Otherwise, unless the
    statement meets a fault (500, nothing stored), exactly one row is added
    at the end of the store, with the [data] of the body and with the text
    the columns keep of its [type] and of its [userId] (the digits of a
    number) or, when that is missing or empty, ['unknown'] as its
    [user_id], and the answer carries the rowid of that row.  The earlier
    entry point does not validate: a missing [type] or [data] reaches the
    database, whose [NOT NULL] constraint refuses it, and the answer is 500
    with the message of the database. *)
Theorem save_route (st : state) (body : jsval) (e : env) :
  (truthy (field body "type") = false \/ truthy (field body "data") = false ->
   Server.api_save st body e
   = (st, mkresponse 400 (success_false "Missing required fields")))
  /\ (truthy (field body "type") = true ->
      truthy (field body "data") = true ->
      (write_fault e = None ->
       let '(st', resp) := Server.api_save st body e in
       appended (Drawing.mk (next_drawing_id (db st))
                   (sql_text (sqlite e) (field body "type"))
                   (Json (field body "data"))
                   (sql_text (sqlite e)
                      (if truthy (field body "userId")
                       then field body "userId" else JStr "unknown"))
                   (now e))
                (db st) (db st')
       /\ sockets st' = sockets st
       /\ resp = mkresponse 200
                   (JObj [("success", JBool true);
                          ("id", JNum (next_drawing_id (db st)))]))
      /\ (write_fault e <> None ->
          Server.api_save st body e
          = (st, mkresponse 500 (success_false "Database error"))))
  /\ (write_fault e = None ->
      (nullish (field body "type") = true ->
       Legacy.api_save st body e
       = (st, mkresponse 500
                (Legacy.error_body (not_null_failed "drawings.type"))))
      /\ (nullish (field body "type") = false ->
          field body "data" = JUndefined ->
          Legacy.api_save st body e
          = (st, mkresponse 500
                   (Legacy.error_body (not_null_failed "drawings.data"))))).
Proof.
  unfold Server.api_save, Legacy.api_save; split; [|split].
  - intros [-> | ->]; simpl; rewrite ?orb_true_r; reflexivity.
  - intros Ht Hd; rewrite Ht, Hd; simpl.
    assert (Hs : JSON_stringify (field body "data")
                 = Some (Json (field body "data")))
      by (destruct (field body "data"); try discriminate; reflexivity).
    assert (Hn : nullish (field body "type") = false)
      by (destruct (field body "type"); try discriminate; reflexivity).
    split.
    + intros ->; simpl; unfold insert_drawing; rewrite Hs, Hn; simpl.
      repeat split.
    + intros Hf; destruct (write_fault e); [reflexivity | congruence].
  - intros ->; simpl; unfold insert_drawing; split.
    + intros ->; reflexivity.
    + intros -> ->; reflexivity.
Qed.

Lemma save_route_witness :
  Server.api_save board (JObj [("type", JStr "text")]) noon
  = (board, mkresponse 400 (success_false "Missing required fields"))
  /\ snd (Server.api_save board save_body noon)
     = mkresponse 200 (JObj [("success", JBool true); ("id", JNum 2)]).
Proof.
  pose proof (save_route board (JObj [("type", JStr "text")]) noon)
    as [HA _].
  pose proof (save_route board save_body noon) as [_ [HB _]].
  split.
  - exact (HA (or_intror eq_refl)).
  - exact (proj2 (proj2 (proj1 (HB eq_refl eq_refl) eq_refl))).
Defined.

(** X13.  [DELETE /api/clear] decides on the [role] of the body alone, no
    connection and no [userId] being asked for.  Any other role than
    Administrator is answered 403 and nothing changes.  For an
    Administrator, unless the statement meets a fault (500, nothing
    changes), every row of the board is deleted while the sequence and the
    sessions stay; [server.js] then sends [clear] to every connection and
    nothing else, the earlier entry point sends nothing. *)
Theorem clear_route (st : state) (body : jsval) (e : env) :
  (strict_eq (field body "role") (JStr Administrator) = false ->
   Server.api_clear st body e
   = (st, mkresponse 403 (success_false "Только учитель может очистить доску"),
      [])
   /\ Legacy.api_clear st body e
      = (st,
         mkresponse 403 (success_false "Только учитель может очистить доску")))
  /\ (strict_eq (field body "role") (JStr Administrator) = true ->
      (write_fault e = None ->
       (let '(st', resp, out) := Server.api_clear st body e in
        db st' = mkdb [] (drawings_seq (db st)) (user_sessions (db st))
                      (user_sessions_seq (db st))
        /\ sockets st' = sockets st
        /\ resp = mkresponse 200 success_true
        /\ out = io_emit st "clear" []
        /\ to_everyone st out "clear" [])
       /\ Legacy.api_clear st body e
          = (with_db (mkdb [] (drawings_seq (db st)) (user_sessions (db st))
                           (user_sessions_seq (db st))) st,
             mkresponse 200 success_true))
      /\ (write_fault e <> None ->
          fst (Server.api_clear st body e)
          = (st, mkresponse 500 (success_false "Database error"))
          /\ snd (Server.api_clear st body e) = []
          /\ fst (Legacy.api_clear st body e) = st
          /\ status (snd (Legacy.api_clear st body e)) = 500)).
Proof.
  unfold Server.api_clear, Legacy.api_clear; split.
  - intros ->; split; reflexivity.
  - intros ->; simpl; split.
    + intros ->; simpl; repeat split.
      apply (io_emit_to_everyone (with_db _ st)).
    + intros Hf; destruct (write_fault e); [repeat split | congruence].
Qed.

Lemma clear_route_witness :
  Server.api_clear board (body_of_Bob "Bob") noon
  = (board, mkresponse 403 (success_false "Только учитель может очистить доску"),
     [])
  /\ snd (Server.api_clear board admin_body noon) = io_emit board "clear" [].
Proof.
  pose proof (clear_route board (body_of_Bob "Bob") noon) as [HA _].
  pose proof (clear_route board admin_body noon) as [_ HB].
  split.
  - exact (proj1 (HA eq_refl)).
  - exact (proj1 (proj2 (proj2 (proj2 (proj1 (proj1 (HB eq_refl) eq_refl)))))).
Defined.

(** ** Pages of the listing *)

Lemma firstn_then_next {A : Type} (n m : nat) (l : list A) :
  firstn n l ++ firstn m (skipn n l) = firstn (n + m) l.
Proof.
  revert l; induction n as [|n IH]; intros l; simpl; [reflexivity|].
  destruct l as [|x l]; simpl; [now rewrite firstn_nil|].
  now rewrite IH.
Qed.

Lemma pages_fit_together (g : engine) (d : database) (n m off : Z) :
  0 < n -> 0 < m -> 0 <= off ->
  select_drawings_page g n off d ++ select_drawings_page g m (off + n) d
  = select_drawings_page g (n + m) off d
  /\ (List.length (select_drawings_page g n off d) <= Z.to_nat n)%nat
  /\ (Z.of_nat (List.length (drawings d)) <= off ->
      select_drawings_page g n off d = [])
  /\ select_drawings_page g n off d
     = firstn (Z.to_nat n) (select_drawings_page g (- n) off d)
  /\ List.length (select_drawings_page g (- n) off d)
     = (List.length (drawings d) - Z.to_nat off)%nat.
Proof.
  intros Hn Hm Hoff; unfold select_drawings_page, limit_offset.
  replace (n <? 0) with false by (symmetry; apply Z.ltb_ge; lia).
  replace (m <? 0) with false by (symmetry; apply Z.ltb_ge; lia).
  replace (n + m <? 0) with false by (symmetry; apply Z.ltb_ge; lia).
  replace (- n <? 0) with true by (symmetry; apply Z.ltb_lt; lia).
  assert (Hlen : List.length (select_drawings g d) = List.length (drawings d)).
  { unfold select_drawings; apply Permutation_length, order_by_Permutation. }
  split; [|split; [|split; [|split]]].
  - rewrite !Z2Nat.inj_add by lia.
    rewrite (Nat.add_comm (Z.to_nat off)), <- skipn_skipn.
    apply firstn_then_next.
  - apply firstn_le_length.
  - intros Hall; rewrite skipn_all2; [apply firstn_nil | lia].
  - reflexivity.
  - now rewrite length_skipn, Hlen.
Qed.

Lemma int64_spec (n : Z) :
  int64 n = true
  <-> - 9223372036854775808 <= n <= 9223372036854775807.
Proof. unfold int64; rewrite andb_true_iff, !Z.leb_le; reflexivity. Qed.

Lemma parsed_or_limit (n : Z) : n <> 0 -> Server.parsed_or (Some n) 1000 = n.
Proof.
  intros Hn; unfold Server.parsed_or.
  apply Z.eqb_neq in Hn; now rewrite Hn.
Qed.

Lemma parsed_or_offset (off : Z) : Server.parsed_or (Some off) 0 = off.
Proof.
  unfold Server.parsed_or; destruct (Z.eqb_spec off 0); congruence.
Qed.

Lemma api_drawings_page (st : state) (n off : Z) (e : env) :
  read_fault e = None -> n <> 0 -> int64 n = true -> int64 off = true ->
  Server.api_drawings st (Some n) (Some off) e
  = mkresponse 200
      (js_array (map drawing_json
                     (select_drawings_page (sqlite e) n off (db st)))).
Proof.
  intros Hf Hn H1 H2; unfold Server.api_drawings.
  rewrite Hf, (parsed_or_limit _ Hn), parsed_or_offset, H1, H2; reflexivity.
Qed.

(** X14.  The pages [server.js] answers fit together, as long as limits and
    offsets fit 64 bits: the page of [n] rows at an offset, followed by the
    page of [m] rows that starts where it ended, is the page of [n + m] rows
    at that offset; a page never holds more rows than its limit, and is
    empty once the offset reaches the number of rows.  A negative limit
    lifts the limit: the answer is every row from the offset on.  A limit of
    0, like a missing or unreadable one, is taken as 1000, so that [limit=0]
    does not produce an empty page.  A limit beyond 64 bits is answered
    500. *)
Theorem pages_of_the_listing (st : state) (n m off : Z) (e : env) :
  read_fault e = None ->
  0 < n -> 0 < m -> 0 <= off ->
  int64 (n + m) = true -> int64 (off + n) = true ->
  (exists first next both rest,
     Server.api_drawings st (Some n) (Some off) e
     = mkresponse 200 (js_array first)
     /\ Server.api_drawings st (Some m) (Some (off + n)) e
        = mkresponse 200 (js_array next)
     /\ Server.api_drawings st (Some (n + m)) (Some off) e
        = mkresponse 200 (js_array both)
     /\ Server.api_drawings st (Some (- n)) (Some off) e
        = mkresponse 200 (js_array rest)
     /\ first ++ next = both
     /\ (List.length first <= Z.to_nat n)%nat
     /\ (Z.of_nat (List.length (drawings (db st))) <= off -> first = [])
     /\ first = firstn (Z.to_nat n) rest
     /\ List.length rest
        = (List.length (drawings (db st)) - Z.to_nat off)%nat)
  /\ Server.api_drawings st (Some 0) (Some off) e
     = Server.api_drawings st (Some 1000) (Some off) e
  /\ Server.api_drawings st None (Some off) e
     = Server.api_drawings st (Some 1000) (Some off) e
  /\ (forall wide, int64 wide = false ->
        Server.api_drawings st (Some wide) (Some off) e
        = mkresponse 500 (JObj [("error", JStr "Failed to fetch drawings")])).
Proof.
  intros Hf Hn Hm Hoff Hnm Hon.
  apply int64_spec in Hnm, Hon.
  destruct (pages_fit_together (sqlite e) (db st) n m off Hn Hm Hoff)
    as [P1 [P2 [P3 [P4 P5]]]].
  split; [|split; [reflexivity|split; [reflexivity|]]].
  - exists (map drawing_json (select_drawings_page (sqlite e) n off (db st))).
    exists (map drawing_json
                (select_drawings_page (sqlite e) m (off + n) (db st))).
    exists (map drawing_json
                (select_drawings_page (sqlite e) (n + m) off (db st))).
    exists (map drawing_json
                (select_drawings_page (sqlite e) (- n) off (db st))).
    rewrite !api_drawings_page by (try apply int64_spec; auto; lia).
    repeat (split; [reflexivity|]).
    split; [now rewrite <- map_app, P1|].
    split; [now rewrite length_map|].
    split; [intros Hall; now rewrite (P3 Hall)|].
    split; [now rewrite firstn_map, <- P4 | now rewrite length_map].
  - intros wide Hwide; unfold Server.api_drawings; rewrite Hf.
    assert (Hw : wide <> 0) by (intros ->; discriminate).
    rewrite (parsed_or_limit _ Hw), Hwide; reflexivity.
Qed.

Lemma pages_of_the_listing_witness :
  exists first next both rest,
    Server.api_drawings server_two_strokes (Some 1) (Some 0) noon
    = mkresponse 200 (js_array first)
    /\ Server.api_drawings server_two_strokes (Some 1) (Some (0 + 1)) noon
       = mkresponse 200 (js_array next)
    /\ Server.api_drawings server_two_strokes (Some (1 + 1)) (Some 0) noon
       = mkresponse 200 (js_array both)
    /\ Server.api_drawings server_two_strokes (Some (- (1))) (Some 0) noon
       = mkresponse 200 (js_array rest)
    /\ first ++ next = both
    /\ (List.length first <= Z.to_nat 1)%nat
    /\ (Z.of_nat (List.length (drawings (db server_two_strokes))) <= 0 ->
        first = [])
    /\ first = firstn (Z.to_nat 1) rest
    /\ List.length rest
       = (List.length (drawings (db server_two_strokes)) - Z.to_nat 0)%nat.
Proof.
  apply (pages_of_the_listing server_two_strokes 1 1 0 noon);
    try reflexivity; lia.
Defined.

(** ** The list of participants *)

Lemma insert_by_later_first (g : engine) (x : Session.t)
    (l : list Session.t) :
  StronglySorted later_first l ->
  StronglySorted later_first
    (insert_by (fun a b => key_then_rank g (Session.connected_at b)
                             (Session.id a) (Session.connected_at a)
                             (Session.id b)) x l).
Proof.
  induction 1 as [|y l Hl IH Hy]; simpl; [repeat constructor|].
  destruct (key_then_rank g _ _ _ _) eqn:E.
  - apply key_then_rank_true in E.
    constructor; [now constructor|].
    constructor; [unfold later_first; lia|].
    rewrite Forall_forall in *; intros z Hz; specialize (Hy z Hz).
    unfold later_first in *; lia.
  - apply key_then_rank_false in E.
    constructor; [exact IH|].
    eapply Permutation_Forall;
      [apply Permutation_sym, insert_by_Permutation|].
    constructor; [unfold later_first; lia | exact Hy].
Qed.

Lemma select_sessions_later_first (g : engine) (d : database) :
  StronglySorted later_first (select_sessions g d).
Proof.
  unfold select_sessions; induction (user_sessions d) as [|x l IH]; simpl;
    [constructor | now apply insert_by_later_first].
Qed.

(** X15.  The list of participants, as [GET /api/users] answers it and as
    [updateOnlineUsers] sends it to every connection, on both entry points,
    is the rows of the session table, each exactly once, the later
    [connected_at] first, on whatever engine; an entry shows the username,
    the role and
    [connected_at], and not the id of the connection.  When the table cannot
    be read the route answers 500 and [updateOnlineUsers] sends nothing. *)
Theorem participants_listed_latest_first (st : state) (e : env) :
  StronglySorted later_first (select_sessions (sqlite e) (db st))
  /\ Permutation (select_sessions (sqlite e) (db st)) (user_sessions (db st))
  /\ (forall r, field (session_json r) "socket_id" = JUndefined
                /\ field (session_json r) "username" = Session.username r
                /\ field (session_json r) "role" = Session.role r)
  /\ (read_fault e = None ->
      Server.api_users st e
      = mkresponse 200
          (js_array (map session_json (select_sessions (sqlite e) (db st))))
      /\ Legacy.api_users st e = Server.api_users st e
      /\ to_everyone st (updateOnlineUsers st e) "online_users_update"
           [js_array (map session_json
                          (select_sessions (sqlite e) (db st)))])
  /\ (read_fault e <> None ->
      status (Server.api_users st e) = 500
      /\ status (Legacy.api_users st e) = 500
      /\ updateOnlineUsers st e = []).
Proof.
  split; [apply select_sessions_later_first|].
  split; [apply order_by_Permutation|].
  split; [intros r; repeat split|].
  unfold Server.api_users, Legacy.api_users, updateOnlineUsers; split.
  - intros ->; repeat split; apply io_emit_to_everyone.
  - intros Hf; destruct (read_fault e); [repeat split | congruence].
Qed.

Lemma participants_listed_latest_first_witness :
  Server.api_users server_joined_twice noon
  = mkresponse 200
      (js_array (map session_json
                     (select_sessions plain (db server_joined_twice)))).
Proof.
  exact (proj1 (proj1 (proj2 (proj2 (proj2
           (participants_listed_latest_first server_joined_twice noon))))
         eq_refl)).
Defined.

(** ** The hourly sweep *)

Lemma expired_before_today (t : Z) (r : Session.t) :
  expired (t - seconds_per_day) r = true
  <-> day (Session.connected_at r) < day t.
Proof.
  unfold expired, day, seconds_per_day; rewrite Z.leb_le.
  replace (t - 24 * 60 * 60) with (t + (-1) * (24 * 60 * 60)) by lia.
  rewrite Z.div_add by lia; lia.
Qed.

(** X16.  The hourly sweep, when its statement runs, deletes exactly the
    session rows that were connected on an earlier day than the day of the
    sweep, be it less than 24 hours ago, and keeps those of the same day;
    the board and the connections with their bindings are left alone, so a
    participant whose row is swept stays joined.  [server.js] sends the list
    of participants again only when a row was deleted; the earlier entry
    point, which does the same to the table, never does. *)
Theorem sweep_deletes_sessions_of_earlier_days (st : state) (e : env) :
  write_fault e = None ->
  let '(st', out) := Server.sweep st e in
  (forall r, In r (user_sessions (db st'))
             <-> In r (user_sessions (db st))
                 /\ day (now e) <= day (Session.connected_at r))
  /\ drawings (db st') = drawings (db st)
  /\ sockets st' = sockets st
  /\ Legacy.sweep st e = st'
  /\ ((forall r, In r (user_sessions (db st)) ->
                 day (now e) <= day (Session.connected_at r)) ->
      out = [])
  /\ ((exists r, In r (user_sessions (db st))
                 /\ day (Session.connected_at r) < day (now e)) ->
      out = updateOnlineUsers st' e).
Proof.
  intros Hf; unfold Server.sweep, Legacy.sweep; rewrite Hf; simpl.
  split; [|split; [reflexivity|split; [reflexivity|split; [reflexivity|]]]].
  - intros r; rewrite filter_In, negb_true_iff.
    pose proof (expired_before_today (now e) r) as H.
    destruct (expired (now e - seconds_per_day) r); split; intros [H1 H2];
      split; auto; try discriminate.
    + destruct H as [H _]; specialize (H eq_refl); lia.
    + destruct (Z_lt_le_dec (day (Session.connected_at r)) (day (now e)))
        as [Hlt|Hle]; [|lia].
      apply H in Hlt; discriminate.
  - split.
    + intros Hall.
      replace (filter (expired (now e - seconds_per_day))
                      (user_sessions (db st))) with (@nil Session.t);
        [reflexivity|].
      symmetry; induction (user_sessions (db st)) as [|r l IH]; simpl;
        [reflexivity|].
      destruct (expired (now e - seconds_per_day) r) eqn:E.
      * apply expired_before_today in E.
        specialize (Hall r (or_introl eq_refl)); lia.
      * apply IH; intros r' Hr'; apply Hall; now right.
    + intros [r [Hin Hlt]].
      apply expired_before_today in Hlt.
      assert (Hpos : (0 <? List.length (filter (expired
                                                 (now e - seconds_per_day))
                                              (user_sessions (db st))))%nat
                     = true).
      { apply Nat.ltb_lt.
        assert (Hr : In r (filter (expired (now e - seconds_per_day))
                                  (user_sessions (db st))))
          by (apply filter_In; auto).
        destruct (filter _ _); [destruct Hr | simpl; lia]. }
      now rewrite Hpos.
Qed.

Lemma sweep_deletes_sessions_of_earlier_days_witness :
  Legacy.sweep server_joined_twice noon
  = fst (Server.sweep server_joined_twice noon).
Proof.
  exact (proj1 (proj2 (proj2 (proj2
           (sweep_deletes_sessions_of_earlier_days server_joined_twice noon
              eq_refl))))).
Defined.

(** ** Saving, then deleting by the id that was answered *)

Lemma rowid_of_rowid_text (g : engine) (n : Z) :
  rowid_of g (JStr (rowid_text n)) = Some n.
Proof. apply reads_decimal. Qed.

Lemma rowid_text_not_empty (n : Z) : rowid_text n <> "".
Proof. apply display_number_not_empty. Qed.

Lemma matches_rowid_text (g : engine) (n m : Z) :
  matches g (JStr (rowid_text n)) m = (n =? m).
Proof. unfold matches; now rewrite rowid_of_rowid_text. Qed.

Lemma filter_keeps_smaller_rowids (g : engine) (n : Z) (l : list Drawing.t) :
  Forall (fun r => Drawing.id r < n) l ->
  filter (fun r => negb (matches g (JStr (rowid_text n)) (Drawing.id r))) l
  = l
  /\ filter (fun r => matches g (JStr (rowid_text n)) (Drawing.id r)) l = [].
Proof.
  induction 1 as [|r l Hr Hl [IH1 IH2]]; simpl; [split; reflexivity|].
  rewrite matches_rowid_text.
  replace (n =? Drawing.id r) with false by (symmetry; apply Z.eqb_neq; lia).
  simpl; rewrite IH1, IH2; split; reflexivity.
Qed.

(** X17.  The id that [POST /api/save] answers names the row it stored:
    deleting that id right away through [DELETE /api/drawing/:id], as an
    administrator or as the declared owner, is answered [{success:true}],
    is announced to every connection, and leaves the rows of the board
    exactly as they were before the save; only the sequence has moved on, so
    the id is not handed out again. *)
Theorem save_then_delete_restores_the_board (st : state) (req del : jsval)
    (e1 e2 : env) :
  truthy (field req "type") = true ->
  truthy (field req "data") = true ->
  write_fault e1 = None ->
  write_fault e2 = None ->
  strict_eq (field del "role") (JStr Administrator) = true
  \/ strict_eq (field del "userId") (field del "owner") = true ->
  let n := next_drawing_id (db st) in
  let '(st1, resp1) := Server.api_save st req e1 in
  let '(st2, resp2, out) :=
    Server.api_drawing_delete st1 (rowid_text n) del e2 in
  field (body resp1) "id" = JNum n
  /\ drawings (db st2) = drawings (db st)
  /\ drawings_seq (db st2) = n
  /\ resp2 = mkresponse 200 success_true
  /\ to_everyone st out "textDelete" [JStr (rowid_text n)].
Proof.
  intros Ht Hd Hf1 Hf2 Hok; unfold Server.api_save; rewrite Ht, Hd, Hf1; simpl.
  assert (Hs : JSON_stringify (field req "data")
               = Some (Json (field req "data")))
    by (destruct (field req "data"); try discriminate; reflexivity).
  assert (Hn : nullish (field req "type") = false)
    by (destruct (field req "type"); try discriminate; reflexivity).
  unfold insert_drawing; rewrite Hs, Hn; simpl.
  fold (next_drawing_id (db st)).
  unfold Server.api_drawing_delete.
  assert (Hid : negb (truthy (JStr (rowid_text (next_drawing_id (db st)))))
                = false).
  { simpl; pose proof (rowid_text_not_empty (next_drawing_id (db st))) as H.
    apply String.eqb_neq in H; now rewrite H. }
  rewrite Hid.
  assert (Hpass : negb (strict_eq (field del "role") (JStr Administrator))
                  && negb (strict_eq (field del "userId") (field del "owner"))
                  = false)
    by (destruct Hok as [-> | ->]; simpl; auto using andb_false_r).
  rewrite Hpass, Hf2; simpl.
  destruct (next_drawing_id_fresh (db st)) as [Hfresh _].
  destruct (filter_keeps_smaller_rowids (sqlite e2) _ _ Hfresh) as [K1 K2].
  rewrite !filter_app, K1, K2; simpl.
  rewrite matches_rowid_text, Z.eqb_refl; simpl.
  rewrite app_nil_r; repeat split.
  apply (io_emit_to_everyone (with_db _ st)).
Qed.

Lemma save_then_delete_restores_the_board_witness :
  drawings (db (fst (fst (Server.api_drawing_delete
                            (fst (Server.api_save board save_body noon))
                            (rowid_text 2) admin_body noon))))
  = drawings (db board).
Proof.
  exact (proj1 (proj2 (save_then_delete_restores_the_board board save_body
                         admin_body noon noon eq_refl eq_refl eq_refl eq_refl
                         (or_introl eq_refl)))).
Defined.

(** ** The two entry points side by side *)

Lemma others_of_broadcast (st : state) (sid ev : string) (a : list jsval)
    (tail : list emission) :
  only_to tail sid ->
  filter (fun m => negb (to m =? sid)%string)
         (broadcast_emit st sid ev a ++ tail)
  = broadcast_emit st sid ev a.
Proof.
  intros Honly; rewrite filter_app.
  replace (filter _ tail) with (@nil emission).
  - rewrite app_nil_r; unfold broadcast_emit.
    induction (sockets st) as [|t l IH]; simpl; [reflexivity|].
    destruct (Socket.id t =? sid)%string eqn:E; simpl; [exact IH|].
    now rewrite E, IH.
  - symmetry; induction tail as [|m tail IH]; simpl; [reflexivity|].
    rewrite (Honly m (or_introl eq_refl)), String.eqb_refl; simpl.
    apply IH; intros m' Hm'; apply Honly; now right.
Qed.

(** X18.  On an event that passes the validation of [server.js] the two
    entry points do the same.  For [drawing] and [text] they yield the same
    state and the same messages.  For [textUpdate], [textMove] and
    [textDelete] they yield the same state, and the messages of the earlier
    entry point are those of [server.js] without the notices to the sender:
    what the other connections are sent is the same, storage fault or
    not. *)
Theorem entry_points_agree_on_valid_events (st : state) (sid : string)
    (data : jsval) (e : env) :
  truthy data = true ->
  (truthy (field data "from") = true -> truthy (field data "to") = true ->
   Legacy.on_drawing st sid data e
   = (Server.on_drawing st sid data e, Legacy.Returned))
  /\ (truthy (field data "text") = true -> truthy (field data "id") = true ->
      Legacy.on_text st sid data e
      = (Server.on_text st sid data e, Legacy.Returned))
  /\ (truthy (field data "id") = true ->
      Legacy.on_textUpdate st sid data e
      = (fst (Server.on_textUpdate st sid data e),
         filter (fun m => negb (to m =? sid)%string)
                (snd (Server.on_textUpdate st sid data e)),
         Legacy.Returned)
      /\ Legacy.on_textMove st sid data e
         = (fst (Server.on_textMove st sid data e),
            filter (fun m => negb (to m =? sid)%string)
                   (snd (Server.on_textMove st sid data e)),
            Legacy.Returned)
      /\ Legacy.on_textDelete st sid data e
         = (fst (Server.on_textDelete st sid data e),
            filter (fun m => negb (to m =? sid)%string)
                   (snd (Server.on_textDelete st sid data e)),
            Legacy.Returned)).
Proof.
  intros Hd.
  assert (Hnn : nullish data = false)
    by (destruct data; simpl in *; congruence).
  unfold Legacy.on_drawing, Server.on_drawing, Legacy.on_text, Server.on_text,
    Legacy.on_textUpdate, Server.on_textUpdate, Legacy.on_textMove,
    Server.on_textMove, Legacy.on_textDelete, Server.on_textDelete.
  rewrite Hd, Hnn.
  destruct (find_socket sid st) as [s|]; [|repeat split].
  destruct (truthy (Socket.userData s)); simpl; [|repeat split].
  split; [intros -> ->; reflexivity|].
  split; [intros -> ->; reflexivity|].
  intros ->; simpl.
  unfold canEdit, canMove, canDelete.
  destruct (strict_eq (field (Socket.userData s) "role") (JStr Administrator)
            || strict_eq (field (Socket.userData s) "username")
                         (field data "owner")); simpl.
  - repeat split; rewrite others_of_broadcast;
      try reflexivity; apply error_tail_only_to.
  - rewrite String.eqb_refl; repeat split.
Qed.

Lemma entry_points_agree_on_valid_events_witness :
  Legacy.on_drawing board "a" stroke disk_full
  = (Server.on_drawing board "a" stroke disk_full, Legacy.Returned).
Proof.
  exact (proj1 (entry_points_agree_on_valid_events board "a" stroke disk_full
                  eq_refl) eq_refl eq_refl).
Defined.

(** ** A text and the id its browser gave it *)

(** X19.  A [text] is stored under the next rowid of the board, while a
    [textUpdate] addresses the row whose rowid the engine takes the [id] of
    its payload for (a number by its value, a text as the engine reads it).
    So when a joined connection creates a text and then updates it under the
    same [id], on [server.js] and with no storage fault, the stored text is
    changed when that [id] is taken for the rowid the text was given, and
    otherwise stays as it was created. *)
Theorem update_reaches_a_text_only_under_its_rowid (st : state)
    (sid : string) (userData data upd : jsval) (e1 e2 : env) :
  active st sid userData ->
  truthy data = true ->
  truthy (field data "text") = true ->
  truthy (field data "id") = true ->
  truthy upd = true ->
  field upd "id" = field data "id" ->
  canEdit userData upd = true ->
  write_fault e1 = None ->
  write_fault e2 = None ->
  let st1 := fst (Server.on_text st sid data e1) in
  let st2 := fst (Server.on_textUpdate st1 sid upd e2) in
  let created := created_row (db st) "text" data userData e1 in
  (rowid_of (sqlite e2) (field data "id") <> Some (next_drawing_id (db st)) ->
   drawings (db st2)
   = map (set_data (sqlite e2) (Json (stamped upd e2 userData))
                   (field data "id"))
         (drawings (db st)) ++ [created])
  /\ (rowid_of (sqlite e2) (field data "id")
      = Some (next_drawing_id (db st)) ->
      drawings (db st2)
      = drawings (db st)
        ++ [Drawing.mk (Drawing.id created) (JStr "text")
              (Json (stamped upd e2 userData))
              (Drawing.user_id created) (Drawing.created_at created)]).
Proof.
  intros Hact Hd Ht Hi Hu Hsame Hcan Hf1 Hf2.
  destruct (active_socket _ _ _ Hact) as [s [Hs [Hin [Hid [Hud Htr]]]]].
  unfold Server.on_text; rewrite Hs, Htr, Hd, Ht, Hi, Hf1, Hud; simpl.
  unfold Server.on_textUpdate; unfold find_socket in *; simpl.
  rewrite Hs, Htr, Hu, Hsame, Hi, Hud, Hcan, Hf2; simpl.
  fold (next_drawing_id (db st)).
  rewrite map_app; simpl; unfold created_row.
  destruct (next_drawing_id_fresh (db st)) as [Hfresh _].
  split; intros Hrow.
  - do 2 f_equal; unfold set_data, matches; simpl.
    destruct (rowid_of (sqlite e2) (field data "id")) as [k|]; [|reflexivity].
    replace (k =? next_drawing_id (db st)) with false; [reflexivity|].
    symmetry; apply Z.eqb_neq; congruence.
  - f_equal.
    + rewrite <- (map_id (drawings (db st))) at 2; apply map_ext_in.
      intros r Hr; unfold set_data, matches; rewrite Hrow.
      rewrite Forall_forall in Hfresh; specialize (Hfresh r Hr).
      replace (next_drawing_id (db st) =? Drawing.id r) with false;
        [reflexivity | symmetry; apply Z.eqb_neq; lia].
    + unfold set_data, matches; simpl; rewrite Hrow, Z.eqb_refl; reflexivity.
Qed.

Lemma update_reaches_a_text_only_under_its_rowid_witness :
  drawings
    (db (fst (Server.on_textUpdate
                (fst (Server.on_text board "b" new_text noon))
                "b" new_text noon)))
  = map (set_data plain (Json (stamped new_text noon Bob))
                  (field new_text "id"))
        (drawings (db board))
      ++ [created_row (db board) "text" new_text Bob noon].
Proof.
  refine (proj1 (update_reaches_a_text_only_under_its_rowid board "b" Bob
                   new_text new_text noon noon
                   (ex_intro _ (Socket.mk "b" Bob)
                      (conj eq_refl (conj eq_refl eq_refl)))
                   eq_refl eq_refl eq_refl eq_refl eq_refl eq_refl eq_refl
                   eq_refl) _).
  discriminate.
Defined.

(** ** Ping *)

(** X20.  [server.js] answers a [ping] on any open connection, joined or
    not: the state stays as it is and the one message is a [pong] to the
    sender, which carries the fields of the ping and, as [serverTime], the
    server's clock, whatever the ping says of [serverTime]. *)
Theorem ping_is_answered_to_the_sender (st : state) (sid : string)
    (s : Socket.t) (data : jsval) (e : env) :
  find_socket sid st = Some s ->
  let '(st', out) := Server.on_ping st sid data e in
  st' = st
  /\ exists reply,
       out = [mkemit sid "pong" [reply]]
       /\ field reply "serverTime" = JStr (iso e)
       /\ (is_object data = true ->
           forall k, k <> "serverTime" -> field reply k = field data k).
Proof.
  intros Hs; unfold Server.on_ping; rewrite Hs.
  split; [reflexivity|].
  eexists; split; [reflexivity|]; simpl; split.
  - apply lookup_set_field_same.
  - intros Hobj k Hk; destruct data; try discriminate; simpl.
    now apply lookup_set_field_other.
Qed.

Lemma ping_is_answered_to_the_sender_witness :
  fst (Server.on_ping board_with_guest "d"
         (JObj [("serverTime", JStr "never")]) noon)
  = board_with_guest.
Proof.
  exact (proj1 (ping_is_answered_to_the_sender board_with_guest "d"
                  (Socket.mk "d" JUndefined)
                  (JObj [("serverTime", JStr "never")]) noon eq_refl)).
Defined.

(** ** Who is bound, and who owns the rows *)

Lemma server_step_bindings_named (st : state) (i : Server.input) (e : env) :
  bindings_named (sockets st) ->
  bindings_named (sockets (fst (Server.step st i e))).
Proof.
  intros Hinv; destruct i; simpl; server_handlers; handler_cases; simpl;
    try assumption.
  - apply Forall_app; split; [assumption|].
    repeat constructor; simpl; discriminate.
  - match goal with
    | H : _ || _ = false |- _ =>
        apply orb_false_elim in H as [_ H]; apply negb_false_iff in H;
        rename H into Hname
    end.
    unfold bindings_named in *; rewrite Forall_forall in *.
    intros sk Hsk; apply in_map_iff in Hsk as [sk0 [<- Hsk0]].
    destruct (Socket.id sk0 =? sid)%string eqn:E; [|now apply Hinv].
    cbn [Socket.userData Socket.id]; intros _.
    apply String.eqb_eq in E; rewrite E.
    change (JObj (set_field "joinedAt" (JStr (iso e))
                    (set_field "socketId" (JStr sid) (spread userData))))
      with (server_binding sid userData e).
    destruct (server_binding_fields sid userData e) as [F1 [_ F3]].
    split; [|exact F1].
    rewrite (F3 (truthy_field_object _ _ Hname)) by discriminate.
    exact Hname.
  - unfold bindings_named in *; rewrite Forall_forall in *.
    intros sk Hsk; apply filter_In in Hsk as [Hsk _]; now apply Hinv.
  - unfold bindings_named in *; rewrite Forall_forall in *.
    intros sk Hsk; apply filter_In in Hsk as [Hsk _]; now apply Hinv.
Qed.

Lemma server_reachable_bindings_named (st : state) :
  Server.reachable st -> bindings_named (sockets st).
Proof.
  induction 1 as [|st i e _ IH]; [constructor|].
  now apply server_step_bindings_named.
Qed.

(** X21.  In every reachable state of [server.js] a joined connection is
    bound to a truthy username and to its own connection id: no event lets a
    connection act without a name or under the id of another connection. *)
Theorem bound_connections_are_named (st : state) (sid : string)
    (userData : jsval) :
  Server.reachable st ->
  active st sid userData ->
  truthy (field userData "username") = true
  /\ field userData "socketId" = JStr sid.
Proof.
  intros Hr Hact.
  destruct (active_socket _ _ _ Hact) as [s [Hs [Hin [Hid [Hud Htr]]]]].
  apply server_reachable_bindings_named in Hr.
  unfold bindings_named in Hr; rewrite Forall_forall in Hr.
  specialize (Hr s Hin Htr); rewrite Hud, Hid in Hr; exact Hr.
Qed.

Lemma bound_connections_are_named_witness :
  truthy (field (server_binding "a" Ann noon) "username") = true
  /\ field (server_binding "a" Ann noon) "socketId" = JStr "a".
Proof.
  apply (bound_connections_are_named server_joined_twice "a").
  - unfold server_joined_twice; repeat constructor.
  - exists (Socket.mk "a" (server_binding "a" Ann noon)); repeat split.
Defined.

Lemma insert_drawing_rows_owned (g : engine) (t : Z) (ty : jsval)
    (data : option json_text) (u : jsval) :
  truthy ty = true -> truthy u = true ->
  preserves rows_owned (insert_drawing g t ty data u).
Proof.
  intros Hty Hu d d' n Hd; unfold insert_drawing.
  destruct (nullish ty); [discriminate|].
  destruct data; [|discriminate].
  intros H; injection H as <- _; unfold rows_owned in *; simpl.
  apply Forall_app; split; [exact Hd|].
  repeat constructor; simpl; now apply sql_text_truthy.
Qed.

Lemma update_drawing_rows_owned (g : engine) (data : option json_text)
    (id : jsval) :
  preserves rows_owned (update_drawing g data id).
Proof.
  intros d d' n Hd; unfold update_drawing.
  destruct data.
  - intros H; injection H as <- _; unfold rows_owned in *; simpl.
    rewrite Forall_forall in *; intros r Hr.
    apply in_map_iff in Hr as [r0 [<- Hr0]]; specialize (Hd r0 Hr0).
    unfold set_data; destruct (matches g id (Drawing.id r0)); exact Hd.
  - destruct (existsb _ _); [discriminate|].
    intros H; injection H as <- _; exact Hd.
Qed.

Lemma delete_drawing_rows_owned (g : engine) (id : jsval) :
  preserves rows_owned (delete_drawing g id).
Proof.
  intros d d' n Hd H; injection H as <- _; unfold rows_owned in *; simpl.
  rewrite Forall_forall in *; intros r Hr; apply filter_In in Hr as [Hr _].
  auto.
Qed.

Lemma delete_all_drawings_rows_owned : preserves rows_owned delete_all_drawings.
Proof. intros d d' n Hd H; injection H as <- _; constructor. Qed.

Lemma untouched_rows_owned (stmt : database -> run_result) :
  drawings_untouched stmt -> preserves rows_owned stmt.
Proof.
  intros Hu d d' n Hd E; destruct (Hu d d' n E) as [H1 _].
  unfold rows_owned in *; now rewrite H1.
Qed.

Lemma bound_username (st : state) (sid : string) (s : Socket.t) :
  bindings_named (sockets st) ->
  find_socket sid st = Some s ->
  negb (truthy (Socket.userData s)) = false ->
  truthy (field (Socket.userData s) "username") = true.
Proof.
  intros Hb Hs Htr; apply negb_false_iff in Htr.
  destruct (find_socket_In _ _ _ Hs) as [Hin _].
  unfold bindings_named in Hb; rewrite Forall_forall in Hb.
  now apply Hb.
Qed.

Lemma server_step_rows_owned (st : state) (i : Server.input) (e : env) :
  bindings_named (sockets st) ->
  rows_owned (db st) -> rows_owned (db (fst (Server.step st i e))).
Proof.
  intros Hb Hinv.
  pose proof update_drawing_rows_owned as U1.
  pose proof delete_drawing_rows_owned as U2.
  pose proof delete_all_drawings_rows_owned as U3.
  pose proof (fun g t u r sid =>
                untouched_rows_owned _
                  (insert_or_replace_session_untouched g t u r sid)) as U4.
  pose proof (fun sid =>
                untouched_rows_owned _ (delete_session_untouched sid)) as U5.
  pose proof (fun c =>
                untouched_rows_owned _ (delete_old_sessions_untouched c))
    as U6.
  destruct i; simpl; server_handlers; handler_cases; simpl;
    try assumption;
    try (apply db_after_preserves; [solve [auto] | assumption]);
    try (eapply db_run_preserves; [| | eassumption];
         [solve [auto] | assumption]);
    try (apply db_after_preserves; [|assumption];
         apply insert_drawing_rows_owned;
         [reflexivity | eapply bound_username; eassumption]);
    try (eapply db_run_preserves; [| | eassumption]; [|assumption];
         match goal with
         | H : _ || _ = false |- _ =>
             apply orb_false_elim in H as [H _]; apply negb_false_iff in H
         end;
         apply insert_drawing_rows_owned; [assumption|];
         first [assumption | reflexivity]).
  apply orb_false_elim in Heqb as [Hty _]; apply negb_false_iff in Hty.
  eapply db_run_preserves; [| exact Hinv | exact Heqr].
  apply insert_drawing_rows_owned; [exact Hty|].
  match goal with
  | |- truthy (if truthy ?v then _ else _) = true =>
      destruct (truthy v) eqn:Eu; [exact Eu | reflexivity]
  end.
Qed.

Lemma server_reachable_rows_owned (st : state) :
  Server.reachable st -> rows_owned (db st).
Proof.
  induction 1 as [|st i e Hr IH]; [constructor|].
  apply server_step_rows_owned; [|exact IH].
  now apply server_reachable_bindings_named.
Qed.



(** ** The health probe *)

(** X23.  [GET /api/health] on [server.js] answers [ok] with the server's
    clock and, as [drawingsCount], the number of rows the whole listing of
    the board holds; once an administrator has cleared the board it answers
    0.  When the count cannot be read it answers 500. *)
Theorem health_counts_the_board (st : state) (sid : string)
    (userData payload : jsval) (e : env) :
  (read_fault e = None ->
   Server.api_health st e
   = mkresponse 200
       (JObj [("status", JStr "ok");
              ("timestamp", JStr (iso e));
              ("drawingsCount",
               JNum (Z.of_nat (List.length
                                 (select_drawings (sqlite e) (db st)))))])
   /\ (active st sid userData -> is_administrator userData ->
       write_fault e = None ->
       field (body (Server.api_health
                      (fst (Server.on_clear st sid payload e)) e))
             "drawingsCount"
       = JNum 0))
  /\ (read_fault e <> None -> status (Server.api_health st e) = 500).
Proof.
  unfold Server.api_health, count_drawings; split.
  - intros ->; split.
    + unfold select_drawings.
      now rewrite (Permutation_length
                     (order_by_Permutation _ (drawings (db st)))).
    + intros Hact Hadm Hf.
      destruct (active_socket _ _ _ Hact) as [s [Hs [Hin [Hid [Hud Htr]]]]].
      unfold Server.on_clear; rewrite Hs, Htr, Hud, Hf.
      rewrite (administrator _ Hadm); reflexivity.
  - intros Hf; destruct (read_fault e); [reflexivity | congruence].
Qed.

Lemma health_counts_the_board_witness :
  field (body (Server.api_health
                 (fst (Server.on_clear board "c" JUndefined noon)) noon))
        "drawingsCount"
  = JNum 0.
Proof.
  exact (proj2 (proj1 (health_counts_the_board board "c" Cara JUndefined noon)
                      eq_refl)
               (ex_intro _ (Socket.mk "c" Cara)
                  (conj eq_refl (conj eq_refl eq_refl)))
               eq_refl eq_refl).
Defined.

(** ** What the [TEXT] columns hold *)



(** ** The engine and the queue at work *)

Example list_read_before_the_join_is_stored :
  snd (Server.on_user_join lobby "a" Ann noon_overtaken)
  = [mkemit "a" "online_users_update" [js_array []]]
  /\ snd (Server.on_user_join lobby "a" Ann noon)
     = [mkemit "a" "online_users_update"
          [js_array [session_json (Session.mk 1 (JStr "Ann") (JStr "Ученик")
                                      "a" (now noon))]]].
Proof. split; reflexivity. Qed.

Example list_read_before_the_leave_is_stored :
  let joined := fst (Server.on_user_join board_with_guest "d" forged_join
                       noon) in
  map Session.socket_id
      (user_sessions (db (fst (Server.on_disconnect joined "d"
                                 noon_overtaken)))) = []
  /\ In (mkemit "a" "online_users_update"
           [js_array [session_json (Session.mk 1 (JStr "Dan") (JStr "Ученик")
                                       "d" (now noon))]])
        (snd (Server.on_disconnect joined "d" noon_overtaken))
  /\ In (mkemit "a" "online_users_update" [js_array []])
        (snd (Server.on_disconnect joined "d" noon)).
Proof. repeat split; vm_compute; tauto. Qed.

Example numeric_username_is_stored_as_text :
  user_sessions
    (db (fst (Server.on_user_join lobby "a"
                (JObj [("username", JNum 7); ("role", JStr "Ученик")]) noon)))
  = [Session.mk 1 (JStr "7") (JStr "Ученик") "a" (now noon)].
Proof. reflexivity. Qed.

Example unnamed_owner_is_listed_as_null :
  let joined := fst (fst (Legacy.on_user_join lobby "a"
                            (JObj [("role", JStr "Ученик")]) noon)) in
  let drawn := fst (fst (Legacy.on_drawing joined "a" stroke noon)) in
  user_sessions (db joined) = []
  /\ exists entry,
       Legacy.api_drawings drawn noon = mkresponse 200 (js_array [entry])
       /\ field entry "user_id" = JNull.
Proof. split; [reflexivity|]; eexists; split; reflexivity. Qed.

Example update_under_a_text_the_engine_reads :
  let e := mkenv (iso noon) (now noon) None None false
                 (reading "2.0" 2 plain) in
  let created :=
    JObj [("id", JStr "2.0"); ("text", JStr "hi"); ("owner", JStr "Bob")] in
  let updated :=
    JObj [("id", JStr "2.0"); ("text", JStr "ho"); ("owner", JStr "Bob")] in
  map (fun r => field (JSON_parse (Drawing.data r)) "text")
      (drawings (db (fst (Server.on_textUpdate
                            (fst (Server.on_text board "b" created e))
                            "b" updated e))))
  = [JStr "hello"; JStr "ho"]
  /\ map (fun r => field (JSON_parse (Drawing.data r)) "text")
         (drawings (db (fst (Server.on_textUpdate
                               (fst (Server.on_text board "b" created noon))
                               "b" updated noon))))
     = [JStr "hello"; JStr "hi"].
Proof. split; reflexivity. Qed.
